(** * xcheck: a consistency checker for xv6 file-system images

    A shallow embedding of [xcheck.c] and the properties of its twelve
    checks.  The program opens an image read-only, loads the superblock,
    checks the root directory, walks every on-disk inode and finally sweeps
    the block bitmap; the first violated check prints one diagnostic and
    ends the process with status 1.

    Conventions of the embedding.
    - [uint] values are integers in [0, 2^32); where the C expression is
      computed in [unsigned int] the wrap-around is written [u32].  Offsets
      that involve [sizeof] are computed in the 64-bit [size_t] (LP64), so
      only their [uint] sub-expressions wrap.
    - The image is a finite sequence of bytes with a file position.  A
      [read] that would pass the end of the image leaves its (mostly
      uninitialised) destination unspecified; the model stops there with
      [Fault].  An access outside the array [in_use] is a [Fault] too.
    - [exit] ends the run with a status and the text written to the standard
      error stream.
    - Loops whose counter runs from a bound to a bound by steps of one are
      structural; the loops whose counter is not advanced that way (the
      loops of check 9, where the direct-block scan advances the counter of
      the loop around it, and the byte-stepping sweep of check 6) are driven
      by fuel and answer [OutOfFuel] when it runs out. *)

From Stdlib Require Import ZArith Lia List String Bool.
From Stdlib Require Import Strings.Byte.
From stdpp Require Import base list list_numbers.

Local Open Scope Z_scope.

(** ** Machine integers and bytes *)

Definition u32 (x : Z) : Z := x mod 2 ^ 32.

Definition byte_val (b : byte) : Z := Z.of_N (Byte.to_N b).

(** Little-endian value of a byte string, as [read] stores it in an
    unsigned integer variable on the x86. *)
Fixpoint le_val (bs : list byte) : Z :=
  match bs with
  | [] => 0
  | b :: bs' => byte_val b + 256 * le_val bs'
  end.

(** ** The image file *)

Record image := {
  img_len : Z;
  img_byte : Z -> byte
}.

(** ** Outcomes and the I/O monad *)

Inductive result (A : Type) : Type :=
| Ok (a : A)
| Exited (status : Z) (err : string)
| Fault
| OutOfFuel.

Arguments Ok {A} a.
Arguments Exited {A} status err.
Arguments Fault {A}.
Arguments OutOfFuel {A}.

(** A computation takes the file position and answers a value with the new
    position. *)
Definition IO (A : Type) : Type := Z -> result (A * Z).

Definition ret {A} (a : A) : IO A := fun pos => Ok (a, pos).

Definition bind {A B} (m : IO A) (k : A -> IO B) : IO B :=
  fun pos =>
    match m pos with
    | Ok (a, pos') => k a pos'
    | Exited st e => Exited st e
    | Fault => Fault
    | OutOfFuel => OutOfFuel
    end.

Notation "x <- m ;; k" := (bind m (fun x => k))
  (at level 100, m at level 99, right associativity).
Notation "m ;;; k" := (bind m (fun _ => k))
  (at level 100, right associativity).

(** The value of a computation started at [pos], the final position dropped. *)
Definition eval {A} (m : IO A) (pos : Z) : result A :=
  match m pos with
  | Ok (a, _) => Ok a
  | Exited st e => Exited st e
  | Fault => Fault
  | OutOfFuel => OutOfFuel
  end.

(** [m] gives [r] from any file position. *)
Definition yields {A} (m : IO A) (r : result A) : Prop :=
  forall pos, eval m pos = r.

(** [fprintf(stderr, msg); close(img_file); exit(1);] *)
Definition die {A} (msg : string) : IO A := fun _ => Exited 1 msg.

(** A loop body either goes on with a new loop state or leaves the
    enclosing function with [return r]. *)
Inductive ctl (S R : Type) : Type :=
| Next (s : S)
| Return (r : R).

Arguments Next {S R} s.
Arguments Return {S R} r.

(** [for (uint i = lo; i < lo + n; ++i) body] *)
Fixpoint for_loop {S R} (n : nat) (i : Z) (s : S)
    (body : Z -> S -> IO (ctl S R)) : IO (ctl S R) :=
  match n with
  | O => ret (Next s)
  | Datatypes.S n' =>
      c <- body i s ;;
      match c with
      | Next s' => for_loop n' (i + 1) s' body
      | Return r => ret (Return r)
      end
  end.

(** What follows a loop: the function goes on unless the loop returned. *)
Definition after {S R} (m : IO (ctl S R)) (k : S -> IO R) : IO R :=
  c <- m ;;
  match c with
  | Next s => k s
  | Return r => ret r
  end.

(** ** On-disk records *)

Record superblock := {
  size : Z;        (* total blocks *)
  nblocks : Z;     (* data blocks *)
  ninodes : Z;
  inodestart : Z;
  bmapstart : Z
}.

Record dinode := {
  type : Z;
  nlink : Z;
  addrs : list Z
}.

Record dirent := {
  inum : Z;
  name : list byte
}.

(** [nd.addrs[i]] *)
Definition addr (nd : dinode) (i : Z) : Z := nth (Z.to_nat i) (addrs nd) 0.

(** ** The format header

    The checker includes [fs.h], [param.h], [stat.h] and [types.h] of the
    kernel tree; they are not part of the sources at hand.  Their constants,
    the sizes of the three structs and the way a struct is laid out in the
    bytes that [read] delivers are parameters of the development.  A block
    holds at least one block number, and is small enough for the [int]
    expressions of the checker ([8 * BSIZE], the match counter of check 4)
    to stay below [2^31]. *)
Class fs_header := {
  BSIZE : Z;
  DIRSIZ : Z;
  T_DIR : Z;
  T_FILE : Z;
  T_DEV : Z;
  sizeof_superblock : Z;
  sizeof_dinode : Z;
  sizeof_dirent : Z;
  load_superblock : list byte -> superblock;
  load_dinode : list byte -> dinode;
  load_dirent : list byte -> dirent;
  BSIZE_min : 4 <= BSIZE;
  BSIZE_max : BSIZE <= 2 ^ 20;
  DIRSIZ_min : 2 <= DIRSIZ;
  sizeof_dinode_pos : 0 < sizeof_dinode;
  sizeof_dirent_pos : 0 < sizeof_dirent;
  T_DIR_used : T_DIR <> 0;
  T_FILE_used : T_FILE <> 0;
  T_DIR_FILE : T_DIR <> T_FILE
}.

(** Modelled from the spec: the header that defines NDIRECT is missing; the
    spec fixes the number of direct pointers of an inode at 12. *)
Definition NDIRECT : Z := 12.

(** Modelled from the spec: the header that defines NINDIRECT is missing; the
    spec gives the indirect fan-out as the block size over the 4 bytes of a
    block number. *)
Definition NINDIRECT `{fs_header} : Z := BSIZE / 4.

Definition sizeof_uint : Z := 4.
Definition sizeof_uchar : Z := 1.

Notation "x !=? y" := (negb (Z.eqb x y)) (at level 70, no associativity).

(** ** C library *)

(** [strncmp(s1, s2, n)]: the difference of the first pair of bytes that
    differ among the first [n], looking no further than a NUL.  A byte
    string is read as followed by NULs: for a literal that is its
    terminator. *)
Fixpoint strncmp (s1 s2 : list byte) (n : nat) : Z :=
  match n with
  | O => 0
  | Datatypes.S n' =>
      let c1 := byte_val (hd x00 s1) in
      let c2 := byte_val (hd x00 s2) in
      if c1 !=? c2 then c1 - c2
      else if c1 =? 0 then 0
      else strncmp (tl s1) (tl s2) n'
  end.

Definition nl : string := String (Ascii.ascii_of_nat 10) EmptyString.

Definition fault {A} : IO A := fun _ => Fault.
Definition out_of_fuel {A} : IO A := fun _ => OutOfFuel.

(** [lseek(img_file, off, SEEK_SET)] *)
Definition lseek (off : Z) : IO unit := fun _ => Ok (tt, off).

Section Checks.
Context `{fs_header}.
Variable img : image.     (* the open image, [img_file] *)
Variable sb : superblock. (* the global [sblock] *)

(** The [n] bytes of the image from offset [off] on. *)
Definition peek (off n : Z) : list byte :=
  map (fun k => img_byte img (off + k)) (seqZ 0 n).

(** [read(img_file, &buf, n)] *)
Definition read (n : Z) : IO (list byte) :=
  fun pos =>
    if (0 <=? pos) && (pos + n <=? img_len img)
    then Ok (peek pos n, pos + n)
    else Fault.

Definition read_uint : IO Z := bs <- read sizeof_uint ;; ret (le_val bs).
Definition read_uchar : IO Z := bs <- read sizeof_uchar ;; ret (le_val bs).
Definition read_dinode : IO dinode := bs <- read sizeof_dinode ;; ret (load_dinode bs).
Definition read_dirent : IO dirent := bs <- read sizeof_dirent ;; ret (load_dirent bs).
Definition read_superblock : IO superblock :=
  bs <- read sizeof_superblock ;; ret (load_superblock bs).

Definition dot : list byte := list_byte_of_string ".".
Definition dotdot : list byte := list_byte_of_string "..".

(** Check 1: the type of an inode is one of the four known ones. *)
Definition error_check_1 (nd : dinode) : Z :=
  if (type nd !=? 0) && (type nd !=? T_DEV) && (type nd !=? T_DIR)
     && (type nd !=? T_FILE)
  then 1
  else 0.

(** Check 2: every address of an inode points into the data area. *)
Definition error_check_2 (nd : dinode) : IO Z :=
  let bitmap_end := u32 (bmapstart sb + size sb / (8 * BSIZE)) in
  let fs_end := u32 (size sb - 1) in
  let bitmap_end :=
    if size sb mod (8 * BSIZE) !=? 0 then u32 (bitmap_end + 1) else bitmap_end in
  after (for_loop (Z.to_nat (NDIRECT + 1)) 0 tt (fun i _ =>
    if (addr nd i !=? 0) && ((addr nd i <? bitmap_end) || (addr nd i >? fs_end))
    then ret (Return 1)
    else ret (Next tt)))
  (fun _ =>
  after (if addr nd NDIRECT !=? 0 then
    lseek (u32 (addr nd NDIRECT * BSIZE)) ;;;
    for_loop (Z.to_nat NINDIRECT) 0 tt (fun i _ =>
      ndirect_ptr <- read_uint ;;
      if (ndirect_ptr !=? 0)
         && ((ndirect_ptr <? bitmap_end) || (ndirect_ptr >? fs_end))
      then ret (Return 1)
      else ret (Next tt))
  else ret (Next tt))
  (fun _ => ret 0)).

(** Check 3: inode 1 is a directory whose [..] is inode 1. *)
Definition error_check_3 : IO Z :=
  lseek (u32 (inodestart sb * BSIZE) + sizeof_dinode) ;;;
  root_inode <- read_dinode ;;
  if type root_inode !=? T_DIR then ret 1 else
  after (for_loop (Z.to_nat NDIRECT) 0 tt (fun i _ =>
    if addr root_inode i !=? 0 then
      lseek (u32 (addr root_inode i * BSIZE)) ;;;
      for_loop (Z.to_nat (BSIZE / sizeof_dirent)) 0 tt (fun dir_cnt _ =>
        dir_entry <- read_dirent ;;
        if (inum dir_entry !=? 0)
           && ((strncmp (name dir_entry) dotdot (Z.to_nat DIRSIZ) =? 0)
               && (inum dir_entry =? 1))
        then ret (Return 0)
        else ret (Next tt))
    else ret (Next tt)))
  (fun _ => ret 1).

(** Check 4: a directory holds its [.] and a [..]. *)
Definition error_check_4 (nd : dinode) (inode_num : Z) : IO Z :=
  after (for_loop (Z.to_nat NDIRECT) 0 0 (fun i chk =>
    if addr nd i !=? 0 then
      lseek (u32 (addr nd i * BSIZE)) ;;;
      for_loop (Z.to_nat (BSIZE / sizeof_dirent)) 0 chk (fun dir_cnt chk =>
        dir_entry <- read_dirent ;;
        let chk :=
          if (strncmp (name dir_entry) dot (Z.to_nat DIRSIZ) =? 0)
             && (inum dir_entry =? inode_num)
          then chk + 1 else chk in
        let chk :=
          if strncmp (name dir_entry) dotdot (Z.to_nat DIRSIZ) =? 0
          then chk + 1 else chk in
        ret (Next chk))
    else ret (Next chk)))
  (fun chk => if chk !=? 2 then ret 1 else ret 0).

(** Check 5: every block an inode uses is marked in the bitmap. *)
Definition error_check_5 (nd : dinode) : IO Z :=
  after (for_loop (Z.to_nat (NDIRECT + 1)) 0 tt (fun i _ =>
    if addr nd i !=? 0 then
      lseek (u32 (bmapstart sb * BSIZE + addr nd i / 8)) ;;;
      usebit <- read_uint ;;
      let shift_amt := addr nd i mod 8 in
      let usebit := Z.shiftr usebit shift_amt in
      if Z.land usebit 1 =? 0 then ret (Return 1) else ret (Next tt)
    else ret (Next tt)))
  (fun _ =>
  after (if addr nd NDIRECT !=? 0 then
    for_loop (Z.to_nat NINDIRECT) 0 tt (fun i _ =>
      lseek (u32 (addr nd NDIRECT * BSIZE) + i * sizeof_uint) ;;;
      ndirect_ptr <- read_uint ;;
      if ndirect_ptr !=? 0 then
        lseek (u32 (bmapstart sb * BSIZE + ndirect_ptr / 8)) ;;;
        usebit <- read_uint ;;
        let shift_amt := ndirect_ptr mod 8 in
        let usebit := Z.shiftr usebit shift_amt in
        if Z.land usebit 1 =? 0 then ret (Return 1) else ret (Next tt)
      else ret (Next tt))
  else ret (Next tt))
  (fun _ => ret 0)).

(** Check 6: every block the bitmap marks is used by some inode.  The
    outer counter advances by 8 in [unsigned int]. *)
Fixpoint check_6_sweep (fuel : nat) (in_use : list Z) (i cnt : Z) : IO Z :=
  match fuel with
  | O => out_of_fuel
  | Datatypes.S fuel' =>
      if i <? size sb then
        bits <- read_uchar ;;
        after (for_loop 8 0 cnt (fun offset cnt =>
          if Z.shiftr bits offset mod 2 !=? 0 then
            match in_use !! Z.to_nat cnt with
            | Some v =>
                if v =? 0 then ret (Return 1) else ret (Next (u32 (cnt + 1)))
            | None => fault
            end
          else ret (Next (u32 (cnt + 1)))))
        (fun cnt => check_6_sweep fuel' in_use (u32 (i + 8)) cnt)
      else ret 0
  end.

Definition error_check_6 (fuel : nat) (in_use : list Z) : IO Z :=
  lseek (u32 (bmapstart sb * BSIZE + size sb / 8 - nblocks sb / 8)) ;;;
  let cnt := u32 (bmapstart sb + 1) in
  check_6_sweep fuel in_use cnt cnt.

(** Check 7: no direct block, and no indirect block, is used twice.  The
    array [in_use] is updated in place; the model hands it back. *)
Definition error_check_7 (nd : dinode) (in_use : list Z) : IO (Z * list Z) :=
  c <- for_loop (Z.to_nat (NDIRECT + 1)) 0 in_use (fun i in_use =>
    if addr nd i !=? 0 then
      match in_use !! Z.to_nat (addr nd i) with
      | Some v =>
          if v !=? 0 then ret (Return (1, in_use))
          else ret (Next (<[Z.to_nat (addr nd i) := 1]> in_use))
      | None => fault
      end
    else ret (Next in_use)) ;;
  match c with
  | Next in_use => ret (0, in_use)
  | Return r => ret r
  end.

(** Check 8: no block listed in an indirect block is used twice. *)
Definition error_check_8 (nd : dinode) (in_use : list Z) : IO (Z * list Z) :=
  if addr nd NDIRECT !=? 0 then
    c <- for_loop (Z.to_nat NINDIRECT) 0 in_use (fun i in_use =>
      lseek (u32 (addr nd NDIRECT * BSIZE) + i * sizeof_uint) ;;;
      ndirect_ptr <- read_uint ;;
      if ndirect_ptr !=? 0 then
        match in_use !! Z.to_nat ndirect_ptr with
        | Some v =>
            if v =? 1 then ret (Return (1, in_use))
            else ret (Next (<[Z.to_nat ndirect_ptr := 1]> in_use))
        | None => fault
        end
      else ret (Next in_use)) ;;
    match c with
    | Next in_use => ret (0, in_use)
    | Return r => ret r
    end
  else ret (0, in_use).

(** Check 9: an inode in use is named by some directory.

    The loop over the direct blocks of a candidate directory is
    [for(uint j = 0; j < NDIRECT; ++i)]: it advances the counter [i] of the
    enclosing loop and leaves its own counter [j] alone. *)
Fixpoint check_9_direct (fuel : nat) (inode_num : Z) (tmp_inode : dinode)
    (i j : Z) : IO (ctl Z Z) :=
  match fuel with
  | O => out_of_fuel
  | Datatypes.S fuel' =>
      if j <? NDIRECT then
        c <- (if addr tmp_inode j !=? 0 then
                lseek (u32 (addr tmp_inode j * BSIZE)) ;;;
                dir_entry <- read_dirent ;;
                if inum dir_entry =? inode_num
                then ret (Return 0)
                else ret (Next tt)
              else ret (Next tt)) ;;
        match c with
        | Next _ => check_9_direct fuel' inode_num tmp_inode (u32 (i + 1)) j
        | Return r => ret (Return r)
        end
      else ret (Next i)
  end.

Definition check_9_indirect (inode_num : Z) (tmp_inode : dinode) : IO (ctl unit Z) :=
  if addr tmp_inode NDIRECT !=? 0 then
    for_loop (Z.to_nat NINDIRECT) 0 tt (fun j _ =>
      lseek (u32 (addr tmp_inode NDIRECT * BSIZE) + j * sizeof_uint) ;;;
      a <- read_uint ;;
      if a !=? 0 then
        lseek (u32 (a * BSIZE)) ;;;
        dir_entry <- read_dirent ;;
        if inum dir_entry =? inode_num
        then ret (Return 0)
        else ret (Next tt)
      else ret (Next tt))
  else ret (Next tt).

Fixpoint check_9_scan (fuel : nat) (inode_num i : Z) : IO Z :=
  match fuel with
  | O => out_of_fuel
  | Datatypes.S fuel' =>
      if i <? ninodes sb then
        lseek (u32 (inodestart sb * BSIZE) + i * sizeof_dinode) ;;;
        tmp_inode <- read_dinode ;;
        after (if (type tmp_inode =? T_DIR) && (inode_num !=? i) && (i !=? 1)
          then
            c <- check_9_direct fuel' inode_num tmp_inode i 0 ;;
            match c with
            | Next i' =>
                c' <- check_9_indirect inode_num tmp_inode ;;
                match c' with
                | Next _ => ret (Next i')
                | Return r => ret (Return r)
                end
            | Return r => ret (Return r)
            end
          else ret (Next i))
        (fun i' => check_9_scan fuel' inode_num (u32 (i' + 1)))
      else ret 1
  end.

Definition error_check_9 (fuel : nat) (inode_num : Z) : IO Z :=
  check_9_scan fuel inode_num 0.

(** Check 10: every name in a directory leads to an inode in use. *)
Definition error_check_10 (nd : dinode) : IO Z :=
  after (for_loop (Z.to_nat NDIRECT) 0 tt (fun i _ =>
    if addr nd i !=? 0 then
      for_loop (Z.to_nat (BSIZE / sizeof_dirent)) 0 tt (fun j _ =>
        lseek (u32 (addr nd i * BSIZE) + j * sizeof_dirent) ;;;
        dir_entry <- read_dirent ;;
        if inum dir_entry !=? 0 then
          lseek (u32 (inodestart sb * BSIZE) + inum dir_entry * sizeof_dinode) ;;;
          tmp_nd <- read_dinode ;;
          if type tmp_nd =? 0 then ret (Return 1) else ret (Next tt)
        else ret (Next tt))
    else ret (Next tt)))
  (fun _ =>
  after (if addr nd NDIRECT !=? 0 then
    for_loop (Z.to_nat NINDIRECT) 0 tt (fun i _ =>
      lseek (u32 (addr nd NDIRECT * BSIZE) + i * sizeof_uint) ;;;
      a <- read_uint ;;
      for_loop (Z.to_nat (BSIZE / sizeof_dirent)) 0 tt (fun j _ =>
        lseek (u32 (a * BSIZE) + j * sizeof_dirent) ;;;
        dir_entry <- read_dirent ;;
        if inum dir_entry !=? 0 then
          lseek (u32 (inodestart sb * BSIZE) + inum dir_entry * sizeof_dinode) ;;;
          tmp_nd <- read_dinode ;;
          if type tmp_nd =? 0 then ret (Return 1) else ret (Next tt)
        else ret (Next tt)))
  else ret (Next tt))
  (fun _ => ret 0)).

(** The scan that checks 11 and 12 both spell out, word for word: the number
    of directory entries, in the direct and indirect blocks of every
    directory inode, whose [inum] is [inode_num].  The counter is a [uint]. *)
Definition count_block (inode_num a cnt : Z) : IO (ctl Z Z) :=
  for_loop (Z.to_nat (BSIZE / sizeof_dirent)) 0 cnt (fun dir_cnt cnt =>
    lseek (u32 (a * BSIZE) + dir_cnt * sizeof_dirent) ;;;
    dir_entry <- read_dirent ;;
    if inum dir_entry =? inode_num
    then ret (Next (u32 (cnt + 1)))
    else ret (Next cnt)).

Definition count_refs (inode_num : Z) : IO (ctl Z Z) :=
  for_loop (Z.to_nat (ninodes sb)) 0 0 (fun i cnt =>
    lseek (u32 (inodestart sb * BSIZE) + i * sizeof_dinode) ;;;
    tmp_inode <- read_dinode ;;
    if type tmp_inode =? T_DIR then
      c <- for_loop (Z.to_nat NDIRECT) 0 cnt (fun j cnt =>
        if addr tmp_inode j !=? 0
        then count_block inode_num (addr tmp_inode j) cnt
        else ret (Next cnt)) ;;
      match c with
      | Next cnt =>
          if addr tmp_inode NDIRECT !=? 0 then
            for_loop (Z.to_nat NINDIRECT) 0 cnt (fun j cnt =>
              lseek (u32 (addr tmp_inode NDIRECT * BSIZE) + j * sizeof_uint) ;;;
              a <- read_uint ;;
              if a !=? 0
              then count_block inode_num a cnt
              else ret (Next cnt))
          else ret (Next cnt)
      | Return r => ret (Return r)
      end
    else ret (Next cnt)).

(** Check 11: the link count of a file is the number of its names. *)
Definition error_check_11 (nd : dinode) (inode_num : Z) : IO Z :=
  after (count_refs inode_num)
  (fun cnt => if cnt !=? u32 (nlink nd) then ret 1 else ret 0).

(** Check 12: a directory has one name. *)
Definition error_check_12 (nd : dinode) (inode_num : Z) : IO Z :=
  after (count_refs inode_num)
  (fun cnt => if cnt !=? 1 then ret 1 else ret 0).

(** [if(r) { fprintf(stderr, msg); close(img_file); exit(1); }] *)
Definition check (r : Z) (msg : string) : IO unit :=
  if r !=? 0 then die msg else ret tt.

(** The checks of a directory inode. *)
Definition directory_checks (fuel : nat) (inode_num : Z) (cur_inode : dinode)
    : IO unit :=
  r <- error_check_4 cur_inode inode_num ;;
  check r ("ERROR: directory not properly formatted" ++ nl) ;;;
  (if inode_num !=? 1 then
     r <- error_check_9 fuel inode_num ;;
     check r ("ERROR: inode marked use but not found in a directory" ++ nl) ;;;
     r <- error_check_12 cur_inode inode_num ;;
     check r ("ERROR: directory appears more than once in file system" ++ nl)
   else ret tt) ;;;
  r <- error_check_10 cur_inode ;;
  check r ("ERROR: inode referred to in directory but marked free" ++ nl).

(** The check of a file inode. *)
Definition file_checks (inode_num : Z) (cur_inode : dinode) : IO unit :=
  r <- error_check_11 cur_inode inode_num ;;
  check r ("ERROR: bad reference count for file" ++ nl).

(** The checks of one inode, in the order of the loop body of [main]. *)
Definition inode_checks (fuel : nat) (inode_num : Z) (cur_inode : dinode)
    (in_use : list Z) : IO (list Z) :=
  check (error_check_1 cur_inode) ("ERROR: bad inode" ++ nl) ;;;
  if type cur_inode !=? 0 then
    r <- error_check_2 cur_inode ;;
    check r ("ERROR: bad indirect address in inode" ++ nl) ;;;
    r <- error_check_5 cur_inode ;;
    check r ("ERROR: address used by inode but marked free in bitmap" ++ nl) ;;;
    p <- error_check_7 cur_inode in_use ;;
    let '(r, in_use) := p in
    check r ("ERROR: direct address used more than once" ++ nl) ;;;
    p <- error_check_8 cur_inode in_use ;;
    let '(r, in_use) := p in
    check r ("ERROR: indirect address used more than once" ++ nl) ;;;
    (if type cur_inode =? T_DIR
     then directory_checks fuel inode_num cur_inode
     else ret tt) ;;;
    (if type cur_inode =? T_FILE
     then file_checks inode_num cur_inode
     else ret tt) ;;;
    ret in_use
  else ret in_use.

(** The body of the loop of [main] over the inodes: the inode is loaded into
    [cur_inode] and checked. *)
Definition scan_inode (fuel : nat) (inode_num : Z) (in_use : list Z)
    : IO (list Z) :=
  lseek (u32 (inodestart sb * BSIZE) + sizeof_dinode * inode_num) ;;;
  cur_inode <- read_dinode ;;
  inode_checks fuel inode_num cur_inode in_use.

(** [for(uint inode_num = first; inode_num < first + n; ++inode_num)] *)
Fixpoint scan_inodes (fuel : nat) (n : nat) (first : Z) (in_use : list Z)
    : IO (list Z) :=
  match n with
  | O => ret in_use
  | Datatypes.S n' =>
      in_use <- scan_inode fuel first in_use ;;
      scan_inodes fuel n' (first + 1) in_use
  end.

End Checks.

(** [main]: [file] is what [open(argv[1], O_RDONLY)] finds.  Leaving [main]
    with [return n] ends the process like [exit(n)]. *)
Definition main `{fs_header} (fuel : nat) (argc : Z) (file : option image)
    : IO Z :=
  if argc !=? 2 then
    fun _ => Exited 1 ("Usage: xcheck <file_system_image>" ++ nl)
  else
    match file with
    | None => fun _ => Exited 1 ("image not found" ++ nl)
    | Some img =>
        lseek (BSIZE * 1) ;;;
        sb <- read_superblock img ;;
        let in_use := replicate (Z.to_nat (size sb)) 0 in
        r <- error_check_3 img sb ;;
        check r ("ERROR: root directory does not exist" ++ nl) ;;;
        in_use <- scan_inodes img sb fuel (Z.to_nat (ninodes sb)) 0 in_use ;;
        r <- error_check_6 img sb fuel in_use ;;
        check r ("ERROR: bitmap marks block in use but it is not in use" ++ nl) ;;;
        fun _ => Exited 0 EmptyString
    end.

(** A run of the program. *)
Definition xcheck `{fs_header} (fuel : nat) (argc : Z) (file : option image)
    : result Z :=
  eval (main fuel argc file) 0.

(** ** What a run prints

    A computation is quiet when it never ends the process; it exits with
    the messages [msgs] when it ends the process, if at all, with status 1
    and one of them. *)
Definition quiet {A} (m : IO A) : Prop :=
  forall pos st e, m pos <> Exited st e.

(** A computation is safe when it never reads past the end of the image nor
    outside the array [in_use]. *)
Definition safe {A} (m : IO A) : Prop := forall pos, m pos <> Fault.

Definition exits_with (msgs : list string) {A} (m : IO A) : Prop :=
  forall pos st e, m pos = Exited st e -> st = 1 /\ In e msgs.

(** The diagnostics of [main]. *)
Definition messages : list string :=
  [ "Usage: xcheck <file_system_image>" ++ nl;
    "image not found" ++ nl;
    "ERROR: root directory does not exist" ++ nl;
    "ERROR: bad inode" ++ nl;
    "ERROR: bad indirect address in inode" ++ nl;
    "ERROR: address used by inode but marked free in bitmap" ++ nl;
    "ERROR: direct address used more than once" ++ nl;
    "ERROR: indirect address used more than once" ++ nl;
    "ERROR: directory not properly formatted" ++ nl;
    "ERROR: inode marked use but not found in a directory" ++ nl;
    "ERROR: directory appears more than once in file system" ++ nl;
    "ERROR: inode referred to in directory but marked free" ++ nl;
    "ERROR: bad reference count for file" ++ nl;
    "ERROR: bitmap marks block in use but it is not in use" ++ nl ]%string.

(** ** The structure on the disk

    What the image holds, read off the layout: the inode table, the block
    numbers stored in a block, the directory entries stored in a block, and
    the notions the checks are about. *)
Section Disk.
Context `{fs_header}.
Variable img : image.
Variable sb : superblock.

(** Inode number [n] of the inode table. *)
Definition inode_at (n : Z) : dinode :=
  load_dinode (peek img (inodestart sb * BSIZE + n * sizeof_dinode) sizeof_dinode).

(** The [k]-th block number stored in block [a]. *)
Definition block_uint (a k : Z) : Z :=
  le_val (peek img (a * BSIZE + k * sizeof_uint) sizeof_uint).

(** The [k]-th directory entry stored in block [a]. *)
Definition block_dirent (a k : Z) : dirent :=
  load_dirent (peek img (a * BSIZE + k * sizeof_dirent) sizeof_dirent).

(** Number of directory entries of a block. *)
Definition NDIRENT : Z := BSIZE / sizeof_dirent.

Definition block_entries (a : Z) : list dirent :=
  map (block_dirent a) (seqZ 0 NDIRENT).

(** The 12 direct pointers of an inode, and the pointers stored in its
    indirect block when it has one. *)
Definition direct_addrs (nd : dinode) : list Z :=
  map (addr nd) (seqZ 0 NDIRECT).

Definition indirect_addrs (nd : dinode) : list Z :=
  if addr nd NDIRECT =? 0 then []
  else map (block_uint (addr nd NDIRECT)) (seqZ 0 NINDIRECT).

(** Every block address an inode refers to: the direct pointers, the
    indirect pointer, the pointers in the indirect block. *)
Definition inode_addrs (nd : dinode) : list Z :=
  direct_addrs nd ++ [addr nd NDIRECT] ++ indirect_addrs nd.

Definition nonzero (l : list Z) : list Z := List.filter (fun a => a !=? 0) l.

(** The entries of a directory: those of its direct blocks, then those of
    the blocks its indirect block lists; unused (zero) slots hold no block. *)
Definition direct_entries (nd : dinode) : list dirent :=
  flat_map block_entries (nonzero (direct_addrs nd)).

Definition indirect_entries (nd : dinode) : list dirent :=
  flat_map block_entries (nonzero (indirect_addrs nd)).

Definition dir_entries (nd : dinode) : list dirent :=
  direct_entries nd ++ indirect_entries nd.

(** The records check 10 reads in a directory: those of its direct blocks,
    and those of every block number stored in its indirect block, the unused
    (zero) ones too, for which it reads block 0. *)
Definition scanned_entries (nd : dinode) : list dirent :=
  direct_entries nd ++ flat_map block_entries (indirect_addrs nd).

(** The entry is in use and leads to a free inode. *)
Definition dangling (e : dirent) : bool :=
  (inum e !=? 0) && (type (inode_at (inum e)) =? 0).

(** The entries in use among the records check 10 reads lead to inodes of
    the inode table. *)
Definition names_in_table (nd : dinode) : bool :=
  forallb (fun e => (inum e =? 0) || ((0 <=? inum e) && (inum e <? ninodes sb)))
    (scanned_entries nd).

Definition is_dir (n : Z) : bool := type (inode_at n) =? T_DIR.

Definition directories : list Z := List.filter is_dir (seqZ 0 (ninodes sb)).

(** Inode [i] is a directory that check 9 takes as a possible parent of
    inode [d]: any directory but [d] itself and the root. *)
Definition candidate (d i : Z) : bool :=
  is_dir i && (d !=? i) && (i !=? 1).

(** The first directory that check 9 takes as a possible parent of [d]. *)
Definition first_candidate (d : Z) : option Z :=
  List.find (candidate d) (seqZ 0 (ninodes sb)).

(** Every directory entry of the file system. *)
Definition all_entries : list dirent :=
  flat_map (fun n => dir_entries (inode_at n)) directories.

Definition count {A} (p : A -> bool) (l : list A) : Z :=
  Z.of_nat (length (List.filter p l)).

(** The entry refers to inode [d]. *)
Definition refers (d : Z) (e : dirent) : bool := inum e =? d.

(** Inode [p] has a first direct block, and the first record of that block
    refers to inode [d]. *)
Definition names_first (d p : Z) : bool :=
  (addr (inode_at p) 0 !=? 0)
  && refers d (block_dirent (addr (inode_at p) 0) 0).

(** Number of directory entries, system-wide, that refer to inode [d]. *)
Definition refcount (d : Z) : Z := count (refers d) all_entries.

(** The name of an entry: the bytes of the fixed-width field up to the first
    NUL, if there is one. *)
Fixpoint c_string (bs : list byte) : list byte :=
  match bs with
  | [] => []
  | b :: bs' => if Byte.eqb b x00 then [] else b :: c_string bs'
  end.

Fixpoint eqb_bytes (s t : list byte) : bool :=
  match s, t with
  | [], [] => true
  | b :: s', c :: t' => Byte.eqb b c && eqb_bytes s' t'
  | _, _ => false
  end.

Definition named (s : string) (e : dirent) : bool :=
  eqb_bytes (c_string (firstn (Z.to_nat DIRSIZ) (name e))) (list_byte_of_string s).

(** What check 4 counts in a list of entries of directory [d]: the entries
    named [.] that lead to [d], and the entries named [..]. *)
Definition shape_matches (d : Z) (es : list dirent) : Z :=
  count (fun e => named "." e && (inum e =? d)) es + count (named "..") es.

(** An entry named [..] that leads to inode 1: the root as its own parent. *)
Definition is_root_parent (e : dirent) : bool :=
  named ".." e && (inum e =? 1).

(** First block after the bitmap. *)
Definition bitmap_end : Z :=
  bmapstart sb + (size sb + 8 * BSIZE - 1) / (8 * BSIZE).

Definition in_data_area (a : Z) : Prop := bitmap_end <= a <= size sb - 1.

Definition out_of_range (a : Z) : Prop := a < bitmap_end \/ a > size sb - 1.

(** An address is fine when it is unused or in the data area. *)
Definition ok_addr (a : Z) : Prop := a = 0 \/ in_data_area a.

(** Some non-zero address the inode refers to is out of range. *)
Definition bad_address (nd : dinode) : Prop :=
  exists a, In a (inode_addrs nd) /\ a <> 0 /\ out_of_range a.

(** The bit of block [b] in the bitmap: byte [b / 8], bit [b % 8]. *)
Definition bitmap_bit (b : Z) : bool :=
  Z.testbit (byte_val (img_byte img (bmapstart sb * BSIZE + b / 8))) (b mod 8).

(** The type of an inode is one of the four the checker knows. *)
Definition valid_type (nd : dinode) : Prop :=
  type nd = 0 \/ type nd = T_DEV \/ type nd = T_DIR \/ type nd = T_FILE.

(** Some block the inode refers to has its bit clear in the bitmap. *)
Definition free_in_bitmap (nd : dinode) : Prop :=
  exists a, In a (inode_addrs nd) /\ a <> 0 /\ bitmap_bit a = false.

(** The sweep of check 6 reads the bitmap from its byte
    [size / 8 - nblocks / 8] on, bit 0 first, one byte for every 8 block
    numbers from [bmapstart + 1] up to [size]. *)
Definition sweep_start : Z :=
  bmapstart sb * BSIZE + size sb / 8 - nblocks sb / 8.

Definition sweep_bytes : Z := (size sb - (bmapstart sb + 1) + 7) / 8.

(** The [k]-th bit the sweep reads. *)
Definition swept_bit (k : Z) : bool :=
  Z.testbit (byte_val (img_byte img (sweep_start + k / 8))) (k mod 8).

(** The sweep finds its [k]-th bit set and [in_use[bmapstart + 1 + k]]
    clear. *)
Definition sweep_violation (in_use : list Z) (k : Z) : Prop :=
  swept_bit k = true /\ in_use !! Z.to_nat (bmapstart sb + 1 + k) = Some 0.

(** Every set bit that the sweep of check 6 reads is held against an entry
    inside the array [in_use]. *)
Definition sweep_in_bounds (in_use : list Z) : bool :=
  forallb (fun k => negb (swept_bit k)
                    || (Z.to_nat (bmapstart sb + 1 + k) <? length in_use)%nat)
    (seqZ 0 (8 * sweep_bytes)).

(** No bit that the sweep of check 6 reads is set while the entry of
    [in_use] it is held against is 0. *)
Definition sweep_clean (in_use : list Z) : bool :=
  forallb (fun k => negb (swept_bit k
                          && match in_use !! Z.to_nat (bmapstart sb + 1 + k) with
                             | Some v => v =? 0
                             | None => false
                             end))
    (seqZ 0 (8 * sweep_bytes)).

(** *** Images the 32-bit offsets can address *)

(** The image is no longer than 4 GiB, and holds the blocks and the inode
    table its superblock announces; the number of inodes is a [uint]. *)
Definition well_sized : Prop :=
  img_len img <= 2 ^ 32
  /\ 0 < size sb /\ size sb * BSIZE <= img_len img
  /\ 0 <= bmapstart sb < size sb
  /\ 0 <= inodestart sb /\ 0 <= ninodes sb < 2 ^ 32
  /\ inodestart sb * BSIZE + ninodes sb * sizeof_dinode <= img_len img.

Definition block_in_image (a : Z) : bool :=
  (0 <=? a) && ((a + 1) * BSIZE <=? img_len img).

(** The blocks a directory inode names lie inside the image. *)
Definition direct_in_image (nd : dinode) : bool :=
  forallb block_in_image (nonzero (direct_addrs nd)).

Definition dir_in_image (nd : dinode) : bool :=
  direct_in_image nd
  && ((addr nd NDIRECT =? 0)
      || (block_in_image (addr nd NDIRECT)
          && forallb block_in_image (nonzero (indirect_addrs nd)))).

Definition dirs_in_image : bool :=
  forallb (fun n => dir_in_image (inode_at n)) directories.

(** The superblock of the image. *)
Definition loads : Prop :=
  BSIZE + sizeof_superblock <= img_len img
  /\ sb = load_superblock (peek img BSIZE sizeof_superblock).

(** *** Runs *)

(** Block [b] is recorded as used in the array [in_use]. *)
Definition marked (in_use : list Z) (b : Z) : Prop :=
  exists v, in_use !! Z.to_nat b = Some v /\ v <> 0.

(** The entries of the array are 0 or 1. *)
Definition binary (in_use : list Z) : Prop :=
  forall b v, in_use !! b = Some v -> v = 0 \/ v = 1.

(** The 13 entries of [addrs]: the direct pointers and the indirect
    pointer. *)
Definition pointers (nd : dinode) : list Z :=
  map (addr nd) (seqZ 0 (NDIRECT + 1)).

(** The array [in_use] with the entries of the blocks of [l] set to 1. *)
Definition mark_all (l : list Z) (in_use : list Z) : list Z :=
  fold_left (fun u a => <[Z.to_nat a := 1]> u) l in_use.

(** Some non-zero pointer of the inode is recorded in [in_use] already, or
    repeats an earlier pointer of the inode. *)
Definition pointer_clash (nd : dinode) (in_use : list Z) : Prop :=
  exists j, 0 <= j <= NDIRECT /\ addr nd j <> 0
    /\ (marked in_use (addr nd j)
        \/ exists i, 0 <= i < j /\ addr nd i = addr nd j).

(** Some non-zero block number stored in the indirect block of the inode has
    the entry 1 in [in_use], or repeats an earlier one of the block. *)
Definition indirect_clash (nd : dinode) (in_use : list Z) : Prop :=
  addr nd NDIRECT <> 0
  /\ exists k, 0 <= k < NINDIRECT
       /\ block_uint (addr nd NDIRECT) k <> 0
       /\ (in_use !! Z.to_nat (block_uint (addr nd NDIRECT) k) = Some 1
           \/ exists i, 0 <= i < k
                /\ block_uint (addr nd NDIRECT) i = block_uint (addr nd NDIRECT) k).

(** Checks 1, 2, 5, 7 and 8 pass on an inode; checks 7 and 8 take the array
    [in_use] from [u] to [u']. *)
Definition address_checks_pass (nd : dinode) (u u' : list Z) : Prop :=
  error_check_1 nd = 0
  /\ yields (error_check_2 img sb nd) (Ok 0)
  /\ yields (error_check_5 img sb nd) (Ok 0)
  /\ exists u1,
       yields (error_check_7 nd u) (Ok (0, u1))
       /\ yields (error_check_8 img nd u1) (Ok (0, u')).

(** The array [in_use] when [main] enters its loop. *)
Definition in_use_0 : list Z := replicate (Z.to_nat (size sb)) 0.

(** The run passes the root check and the checks of the inodes before
    inode [n], and comes to inode [n] with the array [in_use]. *)
Definition scanned_to (fuel : nat) (n : Z) (in_use : list Z) : Prop :=
  yields (error_check_3 img sb) (Ok 0)
  /\ 0 <= n < ninodes sb
  /\ yields (scan_inodes img sb fuel (Z.to_nat n) 0 in_use_0) (Ok in_use).

(** The entries in use of every directory lead into the inode table. *)
Definition all_names_in_table : bool :=
  forallb (fun n => names_in_table (inode_at n)) directories.

(** The blocks of inode [i], if it is in use, in the order in which checks 7
    and 8 record them: the direct pointers, the indirect pointer, the block
    numbers stored in the indirect block. *)
Definition inode_blocks (i : Z) : list Z :=
  if type (inode_at i) =? 0 then []
  else nonzero (inode_addrs (inode_at i)).

(** The blocks of the inodes in use among the [n] inodes from [first] on. *)
Definition used_blocks (first n : Z) : list Z :=
  flat_map inode_blocks (seqZ first n).

(** What the checks of the loop body establish of inode [n]. *)
Definition sound_inode (n : Z) : Prop :=
  let nd := inode_at n in
  valid_type nd
  /\ (type nd <> 0 -> ~ bad_address nd /\ ~ free_in_bitmap nd)
  /\ (type nd = T_DIR ->
      shape_matches n (direct_entries nd) = 2
      /\ (names_in_table nd = true ->
          forall e, In e (scanned_entries nd) -> dangling e = false)
      /\ (n <> 1 ->
          u32 (refcount n) = 1
          /\ exists p, first_candidate n = Some p /\ names_first n p = true))
  /\ (type nd = T_FILE -> u32 (refcount n) = u32 (nlink nd)).

(** The images on which every read of a run stays inside the image and every
    access to [in_use] inside the array: the image is at most 4 GiB and
    holds the blocks and the inode table of its superblock, which has more
    than one inode; the directories have their blocks inside the image and
    their entries lead into the inode table; a directory record is no larger
    than a block; and the sweep of check 6 starts and ends inside the image
    and finds an entry of the array for every set bit it reads. *)
Definition in_bounds : Prop :=
  well_sized /\ loads /\ 1 < ninodes sb
  /\ dirs_in_image = true /\ sizeof_dirent <= BSIZE
  /\ all_names_in_table = true
  /\ size sb + 8 <= 2 ^ 32 /\ 0 <= sweep_start < 2 ^ 32
  /\ sweep_start + sweep_bytes <= img_len img
  /\ sweep_in_bounds (mark_all (used_blocks 0 (ninodes sb)) in_use_0) = true.

End Disk.

(** ** The xv6 header

    The layout of xv6 on the x86: 512-byte blocks, 14-byte names, a 64-byte
    [struct dinode] ([short type, major, minor, nlink; uint size;
    uint addrs[13]]), a 16-byte [struct dirent] ([ushort inum;
    char name[14]]) and a superblock of seven [uint]
    ([size, nblocks, ninodes, nlog, logstart, inodestart, bmapstart]).
    The concrete images below are laid out for it. *)
Module Xv6.

Definition slice (off n : nat) (bs : list byte) : list byte :=
  firstn n (skipn off bs).

Definition uint_at (off : nat) (bs : list byte) : Z := le_val (slice off 4 bs).
Definition ushort_at (off : nat) (bs : list byte) : Z := le_val (slice off 2 bs).
Definition short_at (off : nat) (bs : list byte) : Z :=
  let v := ushort_at off bs in
  if v <? 2 ^ 15 then v else v - 2 ^ 16.

Definition superblock_of (bs : list byte) : superblock :=
  {| size := uint_at 0 bs;
     nblocks := uint_at 4 bs;
     ninodes := uint_at 8 bs;
     inodestart := uint_at 20 bs;
     bmapstart := uint_at 24 bs |}.

Definition dinode_of (bs : list byte) : dinode :=
  {| type := short_at 0 bs;
     nlink := short_at 6 bs;
     addrs := map (fun i => uint_at (12 + 4 * i) bs) (seq 0 13) |}.

Definition dirent_of (bs : list byte) : dirent :=
  {| inum := ushort_at 0 bs;
     name := slice 2 14 bs |}.

#[refine] Instance header : fs_header := {|
  BSIZE := 512;
  DIRSIZ := 14;
  T_DIR := 1;
  T_FILE := 2;
  T_DEV := 3;
  sizeof_superblock := 28;
  sizeof_dinode := 64;
  sizeof_dirent := 16;
  load_superblock := superblock_of;
  load_dinode := dinode_of;
  load_dirent := dirent_of
|}.
Proof. all: lia. Defined.

(** *** Writing images *)

Definition byte_of (v : Z) : byte :=
  match Byte.of_N (Z.to_N (v mod 256)) with
  | Some b => b
  | None => x00
  end.

Fixpoint le_bytes (n : nat) (v : Z) : list byte :=
  match n with
  | O => []
  | Datatypes.S n' => byte_of v :: le_bytes n' (v / 256)
  end.

Definition pad (n : nat) (bs : list byte) : list byte :=
  firstn n (bs ++ repeat x00 n).

Definition superblock_bytes (sz nb ni nlog logstart istart bstart : Z) : list byte :=
  le_bytes 4 sz ++ le_bytes 4 nb ++ le_bytes 4 ni ++ le_bytes 4 nlog
  ++ le_bytes 4 logstart ++ le_bytes 4 istart ++ le_bytes 4 bstart.

Definition dinode_bytes (ty nl sz : Z) (blocks : list Z) : list byte :=
  le_bytes 2 ty ++ le_bytes 2 0 ++ le_bytes 2 0 ++ le_bytes 2 nl
  ++ le_bytes 4 sz ++ pad 52 (flat_map (le_bytes 4) blocks).

Definition dirent_bytes (i : Z) (nm : string) : list byte :=
  le_bytes 2 i ++ pad 14 (list_byte_of_string nm).

(** An image of [len] bytes, zero except for the given extents (the first
    extent that covers an offset wins). *)
Fixpoint extent_byte (exts : list (Z * list byte)) (off : Z) : byte :=
  match exts with
  | [] => x00
  | (start, bs) :: exts' =>
      if (start <=? off) && (off <? start + Z.of_nat (length bs))
      then nth (Z.to_nat (off - start)) bs x00
      else extent_byte exts' off
  end.

Definition image_of (len : Z) (exts : list (Z * list byte)) : image :=
  {| img_len := len; img_byte := extent_byte exts |}.

(** The layout [mkfs] gives a 1000-block image: boot block, superblock,
    30 log blocks, 26 inode blocks from block 32, one bitmap block at 58,
    941 data blocks from 59. *)
Definition std_superblock : Z * list byte :=
  (512, superblock_bytes 1000 941 200 30 2 32 58).

Definition inode_off (n : Z) : Z := 32 * 512 + 64 * n.
Definition block_off (a : Z) : Z := 512 * a.
Definition bitmap_off : Z := 58 * 512.

(** A root directory alone: inode 1 with the block 59 holding [.] and [..]. *)
Definition root_only : image :=
  image_of (1000 * 512)
    [ std_superblock;
      (inode_off 1, dinode_bytes 1 1 32 [59]);
      (block_off 59, dirent_bytes 1 "." ++ dirent_bytes 1 "..");
      (bitmap_off, le_bytes 8 (2 ^ 60 - 1)) ].

(** The superblock of these images. *)
Definition std_sb : superblock :=
  {| size := 1000; nblocks := 941; ninodes := 200;
     inodestart := 32; bmapstart := 58 |}.

(** The array [in_use] once the root directory of [root_only] is scanned. *)
Definition root_in_use : list Z := <[59%nat := 1]> (replicate 1000 0).

(** [root_only] with a file, inode 2, whose first direct pointer is block 5,
    a block of the log. *)
Definition low_pointer : image :=
  image_of (1000 * 512)
    [ std_superblock;
      (inode_off 1, dinode_bytes 1 1 32 [59]);
      (inode_off 2, dinode_bytes 2 1 10 [5]);
      (block_off 59, dirent_bytes 1 "." ++ dirent_bytes 1 "..");
      (bitmap_off, le_bytes 8 (2 ^ 60 - 1)) ].

(** [root_only] with inode 1 turned into a file. *)
Definition file_as_root : image :=
  image_of (1000 * 512)
    [ std_superblock;
      (inode_off 1, dinode_bytes 2 1 32 [59]);
      (block_off 59, dirent_bytes 1 "." ++ dirent_bytes 1 "..");
      (bitmap_off, le_bytes 8 (2 ^ 60 - 1)) ].

(** A file, inode 2, with link count 2 and the one name [f] in the root. *)
Definition short_link : image :=
  image_of (1000 * 512)
    [ std_superblock;
      (inode_off 1, dinode_bytes 1 1 48 [59]);
      (inode_off 2, dinode_bytes 2 2 10 [60]);
      (block_off 59,
       dirent_bytes 1 "." ++ dirent_bytes 1 ".." ++ dirent_bytes 2 "f");
      (bitmap_off, le_bytes 8 (2 ^ 61 - 1)) ].

(** The array [in_use] after checks 7 and 8 of an inode 2 that uses block 60
    alone. *)
Definition two_in_use : list Z := <[60%nat := 1]> root_in_use.

(** A file, inode 2, whose first direct pointer is block 59, the block of
    the root directory. *)
Definition shared_block : image :=
  image_of (1000 * 512)
    [ std_superblock;
      (inode_off 1, dinode_bytes 1 1 48 [59]);
      (inode_off 2, dinode_bytes 2 1 10 [59]);
      (block_off 59,
       dirent_bytes 1 "." ++ dirent_bytes 1 ".." ++ dirent_bytes 2 "f");
      (bitmap_off, le_bytes 8 (2 ^ 60 - 1)) ].

(** A directory, inode 2, named by the root and by the directory inode 3,
    whose first entry it is. *)
Definition two_parents : image :=
  image_of (1000 * 512)
    [ std_superblock;
      (inode_off 1, dinode_bytes 1 1 64 [59]);
      (inode_off 2, dinode_bytes 1 1 32 [60]);
      (inode_off 3, dinode_bytes 1 1 48 [61]);
      (block_off 59,
       dirent_bytes 1 "." ++ dirent_bytes 1 ".." ++ dirent_bytes 2 "a"
       ++ dirent_bytes 3 "b");
      (block_off 60, dirent_bytes 2 "." ++ dirent_bytes 1 "..");
      (block_off 61,
       dirent_bytes 2 "a" ++ dirent_bytes 3 "." ++ dirent_bytes 1 "..");
      (bitmap_off, le_bytes 8 (2 ^ 62 - 1)) ].

(** Two directories in the root, inodes 2 and 3.  The one entry of the file
    system that leads to inode 2 is the entry [a] of the root: the block of
    inode 2 holds two [..] and no [.]. *)
Definition sibling_dirs : image :=
  image_of (1000 * 512)
    [ std_superblock;
      (inode_off 1, dinode_bytes 1 1 64 [59]);
      (inode_off 2, dinode_bytes 1 1 32 [60]);
      (inode_off 3, dinode_bytes 1 1 32 [61]);
      (block_off 59,
       dirent_bytes 1 "." ++ dirent_bytes 1 ".." ++ dirent_bytes 2 "a"
       ++ dirent_bytes 3 "b");
      (block_off 60, dirent_bytes 1 ".." ++ dirent_bytes 1 "..");
      (block_off 61, dirent_bytes 3 "." ++ dirent_bytes 1 "..");
      (bitmap_off, le_bytes 8 (2 ^ 62 - 1)) ].

(** The tree that [mkdir a] leaves in the root. *)
Definition one_subdir : image :=
  image_of (1000 * 512)
    [ std_superblock;
      (inode_off 1, dinode_bytes 1 1 48 [59]);
      (inode_off 2, dinode_bytes 1 1 32 [60]);
      (block_off 59,
       dirent_bytes 1 "." ++ dirent_bytes 1 ".." ++ dirent_bytes 2 "a");
      (block_off 60, dirent_bytes 2 "." ++ dirent_bytes 1 "..");
      (bitmap_off, le_bytes 8 (2 ^ 61 - 1)) ].

(** The tree that [mkdir a; mkdir b] leaves in the root. *)
Definition ordinary_tree : image :=
  image_of (1000 * 512)
    [ std_superblock;
      (inode_off 1, dinode_bytes 1 1 64 [59]);
      (inode_off 2, dinode_bytes 1 1 32 [60]);
      (inode_off 3, dinode_bytes 1 1 32 [61]);
      (block_off 59,
       dirent_bytes 1 "." ++ dirent_bytes 1 ".." ++ dirent_bytes 2 "a"
       ++ dirent_bytes 3 "b");
      (block_off 60, dirent_bytes 2 "." ++ dirent_bytes 1 "..");
      (block_off 61, dirent_bytes 3 "." ++ dirent_bytes 1 "..");
      (bitmap_off, le_bytes 8 (2 ^ 62 - 1)) ].

(** [root_only] with an inode 2 of type 9. *)
Definition odd_type : image :=
  image_of (1000 * 512)
    [ std_superblock;
      (inode_off 1, dinode_bytes 1 1 32 [59]);
      (inode_off 2, dinode_bytes 9 1 0 []);
      (block_off 59, dirent_bytes 1 "." ++ dirent_bytes 1 "..");
      (bitmap_off, le_bytes 8 (2 ^ 60 - 1)) ].

(** [root_only] with the bit of block 59, the block of the root directory,
    clear in the bitmap. *)
Definition unmarked_block : image :=
  image_of (1000 * 512)
    [ std_superblock;
      (inode_off 1, dinode_bytes 1 1 32 [59]);
      (block_off 59, dirent_bytes 1 "." ++ dirent_bytes 1 "..");
      (bitmap_off, le_bytes 8 (2 ^ 59 - 1)) ].

(** A file, inode 2, whose first two direct pointers are both block 60. *)
Definition twice_listed : image :=
  image_of (1000 * 512)
    [ std_superblock;
      (inode_off 1, dinode_bytes 1 1 48 [59]);
      (inode_off 2, dinode_bytes 2 1 1024 [60; 60]);
      (block_off 59,
       dirent_bytes 1 "." ++ dirent_bytes 1 ".." ++ dirent_bytes 2 "f");
      (bitmap_off, le_bytes 8 (2 ^ 61 - 1)) ].

(** A file, inode 2, with the direct block 60 and the indirect block 61,
    which lists block 60 again. *)
Definition listed_again : image :=
  image_of (1000 * 512)
    [ std_superblock;
      (inode_off 1, dinode_bytes 1 1 48 [59]);
      (inode_off 2, dinode_bytes 2 1 7168 [60; 0; 0; 0; 0; 0; 0; 0; 0; 0; 0; 0; 61]);
      (block_off 59,
       dirent_bytes 1 "." ++ dirent_bytes 1 ".." ++ dirent_bytes 2 "f");
      (block_off 61, le_bytes 4 60);
      (bitmap_off, le_bytes 8 (2 ^ 62 - 1)) ].

(** A root directory with the entry [f] for inode 5, which is free. *)
Definition lost_name : image :=
  image_of (1000 * 512)
    [ std_superblock;
      (inode_off 1, dinode_bytes 1 1 48 [59]);
      (block_off 59,
       dirent_bytes 1 "." ++ dirent_bytes 1 ".." ++ dirent_bytes 5 "f");
      (bitmap_off, le_bytes 8 (2 ^ 60 - 1)) ].

(** [root_only] with a device, inode 2, that has link count 1, no block and
    no name. *)
Definition bare_device : image :=
  image_of (1000 * 512)
    [ std_superblock;
      (inode_off 1, dinode_bytes 1 1 32 [59]);
      (inode_off 2, dinode_bytes 3 1 0 []);
      (block_off 59, dirent_bytes 1 "." ++ dirent_bytes 1 "..");
      (bitmap_off, le_bytes 8 (2 ^ 60 - 1)) ].

(** A root directory with one file, inode 2, of one block and link count 1. *)
Definition one_file : image :=
  image_of (1000 * 512)
    [ std_superblock;
      (inode_off 1, dinode_bytes 1 1 48 [59]);
      (inode_off 2, dinode_bytes 2 1 10 [60]);
      (block_off 59,
       dirent_bytes 1 "." ++ dirent_bytes 1 ".." ++ dirent_bytes 2 "f");
      (bitmap_off, le_bytes 8 (2 ^ 61 - 1)) ].

(** [root_only] with the bit of block 65 set in the bitmap: byte 8, bit 1. *)
Definition stray_bit : image :=
  image_of (1000 * 512)
    [ std_superblock;
      (inode_off 1, dinode_bytes 1 1 32 [59]);
      (block_off 59, dirent_bytes 1 "." ++ dirent_bytes 1 "..");
      (bitmap_off, le_bytes 8 (2 ^ 60 - 1) ++ le_bytes 1 2) ].

(** [root_only] with the bit of block 64 set in the bitmap: byte 8, bit 0. *)
Definition stale_bit : image :=
  image_of (1000 * 512)
    [ std_superblock;
      (inode_off 1, dinode_bytes 1 1 32 [59]);
      (block_off 59, dirent_bytes 1 "." ++ dirent_bytes 1 "..");
      (bitmap_off, le_bytes 8 (2 ^ 60 - 1) ++ le_bytes 1 1) ].

(** A directory, inode 2, whose [.] is in its first direct block and whose
    [..] is in block 62, the one block its indirect block 61 lists. *)
Definition split_dir : image :=
  image_of (1000 * 512)
    [ std_superblock;
      (inode_off 1, dinode_bytes 1 1 48 [59]);
      (inode_off 2, dinode_bytes 1 1 32 [60; 0; 0; 0; 0; 0; 0; 0; 0; 0; 0; 0; 61]);
      (block_off 59,
       dirent_bytes 1 "." ++ dirent_bytes 1 ".." ++ dirent_bytes 2 "d");
      (block_off 60, dirent_bytes 2 ".");
      (block_off 61, le_bytes 4 62);
      (block_off 62, dirent_bytes 1 "..");
      (bitmap_off, le_bytes 8 (2 ^ 63 - 1)) ].

(** The array [in_use] after checks 7 and 8 of inode 2 of [split_dir]. *)
Definition split_dir_in_use : list Z :=
  <[62%nat := 1]> (<[61%nat := 1]> (<[60%nat := 1]> root_in_use)).

(** A directory, inode 2, with two parents: the root names it [a] and the
    directory inode 3 names it [a] too.  Each directory starts with its own
    [.] and [..], as [mkdir] leaves them. *)
Definition multi_parent : image :=
  image_of (1000 * 512)
    [ std_superblock;
      (inode_off 1, dinode_bytes 1 1 64 [59]);
      (inode_off 2, dinode_bytes 1 1 32 [60]);
      (inode_off 3, dinode_bytes 1 1 48 [61]);
      (block_off 59,
       dirent_bytes 1 "." ++ dirent_bytes 1 ".." ++ dirent_bytes 2 "a"
       ++ dirent_bytes 3 "b");
      (block_off 60, dirent_bytes 2 "." ++ dirent_bytes 1 "..");
      (block_off 61,
       dirent_bytes 3 "." ++ dirent_bytes 1 ".." ++ dirent_bytes 2 "a");
      (bitmap_off, le_bytes 8 (2 ^ 62 - 1)) ].

(** [root_only] with the entry [x] for inode 300 in the root: the table has
    200 inodes, and 64 * 300 bytes from its start lies the middle of the
    data block 69, where the image holds the bytes of an inode of type 2. *)
Definition far_entry : image :=
  image_of (1000 * 512)
    [ std_superblock;
      (inode_off 1, dinode_bytes 1 1 48 [59]);
      (inode_off 300, dinode_bytes 2 1 0 []);
      (block_off 59,
       dirent_bytes 1 "." ++ dirent_bytes 1 ".." ++ dirent_bytes 300 "x");
      (bitmap_off, le_bytes 8 (2 ^ 60 - 1)) ].

End Xv6.

(** * Properties *)

(** ** The monad *)

Lemma eval_bind_ok {A B} (m : IO A) (k : A -> IO B) pos a pos' :
  m pos = Ok (a, pos') -> eval (bind m k) pos = eval (k a) pos'.
Proof. intros Hm. unfold eval, bind. rewrite Hm. reflexivity. Qed.

Lemma eval_lseek {B} off (k : IO B) pos :
  eval (lseek off ;;; k) pos = eval k off.
Proof. reflexivity. Qed.

Lemma eval_ok_inv {A} (m : IO A) pos a :
  eval m pos = Ok a -> exists pos', m pos = Ok (a, pos').
Proof.
  unfold eval. destruct (m pos) as [[a' p']| | |]; intros E; inversion E.
  eauto.
Qed.

Lemma eval_bind_yields {A B} (m : IO A) (k : A -> IO B) a pos r :
  eval m pos = Ok a -> yields (k a) r -> eval (bind m k) pos = r.
Proof.
  intros Hm Hk. destruct (eval_ok_inv _ _ _ Hm) as [pos' E].
  rewrite (eval_bind_ok _ _ _ _ _ E). apply Hk.
Qed.

Lemma yields_bind {A B} (m : IO A) (k : A -> IO B) a r :
  yields m (Ok a) -> yields (k a) r -> yields (bind m k) r.
Proof. intros Hm Hk pos. eapply eval_bind_yields; eauto. Qed.

Lemma eval_bind_exited {A B} (m : IO A) (k : A -> IO B) pos st e :
  eval m pos = Exited st e -> eval (bind m k) pos = Exited st e.
Proof.
  unfold eval, bind. destruct (m pos) as [[a p]| | |]; intros E; inversion E.
  reflexivity.
Qed.

Lemma eval_bind_out_of_fuel {A B} (m : IO A) (k : A -> IO B) pos :
  eval m pos = OutOfFuel -> eval (bind m k) pos = OutOfFuel.
Proof.
  unfold eval, bind. destruct (m pos) as [[a p]| | |]; intros E; inversion E.
  reflexivity.
Qed.

Lemma yields_ret_bind {A B} (a : A) (k : A -> IO B) r :
  yields (k a) r -> yields (bind (ret a) k) r.
Proof. intros Hk pos. apply Hk. Qed.

Lemma eval_bind_inv {A B} (m : IO A) (k : A -> IO B) pos b :
  eval (bind m k) pos = Ok b ->
  exists a pos', m pos = Ok (a, pos') /\ eval (k a) pos' = Ok b.
Proof.
  unfold eval, bind. destruct (m pos) as [[a p]| | |]; intros E; try discriminate.
  eauto.
Qed.

Lemma check_pass msg : check 0 msg = ret tt.
Proof. reflexivity. Qed.

Lemma check_stop r msg pos : r <> 0 -> check r msg pos = Exited 1 msg.
Proof.
  intros Hr. unfold check. destruct (Z.eqb_spec r 0); [contradiction|reflexivity].
Qed.

(** ** Loops *)

(** A loop that keeps an invariant [I] while it goes on and establishes [Q]
    when it returns, and whose body neither faults nor exits, ends in one
    of the two. *)
Lemma for_loop_inv {S R} (I : Z -> S -> Z -> Prop) (Q : R -> Prop)
    (body : Z -> S -> IO (ctl S R)) n i s pos :
  I i s pos ->
  (forall j s p, i <= j < i + Z.of_nat n -> I j s p ->
     match body j s p with
     | Ok (Next s', p') => I (j + 1) s' p'
     | Ok (Return r, _) => Q r
     | _ => False
     end) ->
  match for_loop n i s body pos with
  | Ok (Next s', p') => I (i + Z.of_nat n) s' p'
  | Ok (Return r, _) => Q r
  | _ => False
  end.
Proof.
  revert i s pos. induction n as [|n IH]; intros i s pos HI Hbody.
  - simpl. replace (i + Z.of_nat 0) with i by lia. exact HI.
  - cbn [for_loop]. unfold bind.
    specialize (Hbody i s pos ltac:(lia) HI) as Hb.
    destruct (body i s pos) as [[[s'|r] p']| | |]; try contradiction.
    + replace (i + Z.of_nat (Datatypes.S n)) with (i + 1 + Z.of_nat n) by lia.
      apply IH; [exact Hb|].
      intros j s0 p0 Hj. apply Hbody. lia.
    + exact Hb.
Qed.

(** Establishes the invariant [Inv] and the postcondition [Post] of the
    first loop of the goal. *)
Ltac loop_inv Inv Post :=
  match goal with
  | |- context [for_loop ?n0 ?i0 ?s0 ?b0 ?pos0] =>
      let HL := fresh "HL" in
      cut (match for_loop n0 i0 s0 b0 pos0 with
           | Ok (Next s', p') => Inv (i0 + Z.of_nat n0) s' p'
           | Ok (Return r, _) => Post r
           | _ => False
           end);
      [ intros HL;
        destruct (for_loop n0 i0 s0 b0 pos0) as [[[?st|?r] ?p]| | |];
        try contradiction; cbv beta in HL
      | apply (for_loop_inv Inv Post); cbv beta;
        [ | intros ?j ?st ?p ?Hj ?HI ] ]
  end.

(** ** Names *)

Lemma byte_val_inj a b : byte_val a = byte_val b -> a = b.
Proof.
  unfold byte_val. intros E. apply N2Z.inj in E.
  pose proof (Byte.of_to_N a) as Ha. rewrite E, Byte.of_to_N in Ha. congruence.
Qed.

Lemma byte_val_zero b : byte_val b = 0 <-> b = x00.
Proof.
  split; [|intros ->; reflexivity].
  intros E. apply byte_val_inj. exact E.
Qed.

Lemma byte_eqb_refl b : Byte.eqb b b = true.
Proof. apply Byte.byte_dec_lb. reflexivity. Qed.

Lemma byte_eqb_neq a b : a <> b -> Byte.eqb a b = false.
Proof.
  intros Hne. destruct (Byte.eqb a b) eqn:E; [|reflexivity].
  apply Byte.byte_dec_bl in E. contradiction.
Qed.

(** [strncmp] answers 0 exactly when the two strings, cut at [n] bytes and
    at their first NUL, are the same. *)
Lemma strncmp_zero n : forall s1 s2,
  (strncmp s1 s2 n =? 0)
  = eqb_bytes (c_string (firstn n s1)) (c_string (firstn n s2)).
Proof.
  induction n as [|n IH]; intros s1 s2; [reflexivity|].
  cbn [strncmp]. cbv zeta.
  destruct s1 as [|a t1], s2 as [|b t2]; cbn [hd tl firstn c_string].
  - reflexivity.
  - destruct (Z.eqb_spec (byte_val x00) (byte_val b)) as [E|E]; cbn [negb].
    + apply byte_val_inj in E. subst b. reflexivity.
    + rewrite (byte_eqb_neq b x00) by congruence. cbn [eqb_bytes].
      apply Z.eqb_neq. lia.
  - destruct (Z.eqb_spec (byte_val a) (byte_val x00)) as [E|E]; cbn [negb].
    + apply byte_val_inj in E. subst a. reflexivity.
    + rewrite (byte_eqb_neq a x00) by congruence. cbn [eqb_bytes].
      apply Z.eqb_neq. lia.
  - destruct (Z.eqb_spec (byte_val a) (byte_val b)) as [E|E]; cbn [negb].
    + apply byte_val_inj in E. subst b.
      destruct (Z.eqb_spec (byte_val a) 0) as [E0|E0].
      * apply byte_val_zero in E0. subst a. reflexivity.
      * rewrite (byte_eqb_neq a x00) by (intros ->; apply E0; reflexivity).
        cbn [eqb_bytes]. rewrite byte_eqb_refl. cbn [andb]. apply IH.
    + replace (byte_val a - byte_val b =? 0) with false
        by (symmetry; apply Z.eqb_neq; lia).
      assert (Hab : a <> b) by congruence.
      destruct (Byte.eqb a x00) eqn:Ea, (Byte.eqb b x00) eqn:Eb; cbn [eqb_bytes].
      * apply Byte.byte_dec_bl in Ea, Eb. congruence.
      * reflexivity.
      * reflexivity.
      * rewrite (byte_eqb_neq a b Hab). reflexivity.
Qed.

(** ** Check 7: the marks in [in_use] *)

Lemma for_loop_inv_partial {S R} (I : Z -> S -> Z -> Prop) (Q : R -> Prop)
    (body : Z -> S -> IO (ctl S R)) n i s pos :
  I i s pos ->
  (forall j s p, i <= j < i + Z.of_nat n -> I j s p ->
     match body j s p with
     | Ok (Next s', p') => I (j + 1) s' p'
     | Ok (Return r, _) => Q r
     | _ => True
     end) ->
  match for_loop n i s body pos with
  | Ok (Next s', p') => I (i + Z.of_nat n) s' p'
  | Ok (Return r, _) => Q r
  | _ => True
  end.
Proof.
  revert i s pos. induction n as [|n IH]; intros i s pos HI Hbody.
  - simpl. replace (i + Z.of_nat 0) with i by lia. exact HI.
  - cbn [for_loop]. unfold bind.
    specialize (Hbody i s pos ltac:(lia) HI) as Hb.
    destruct (body i s pos) as [[[s'|r] p']| | |]; try exact Logic.I.
    + replace (i + Z.of_nat (Datatypes.S n)) with (i + 1 + Z.of_nat n) by lia.
      apply IH; [exact Hb|].
      intros j s0 p0 Hj. apply Hbody. lia.
    + exact Hb.
Qed.

Ltac loop_inv_partial Inv Post :=
  match goal with
  | |- context [for_loop ?n0 ?i0 ?s0 ?b0 ?pos0] =>
      let HL := fresh "HL" in
      cut (match for_loop n0 i0 s0 b0 pos0 with
           | Ok (Next s', p') => Inv (i0 + Z.of_nat n0) s' p'
           | Ok (Return r, _) => Post r
           | _ => True
           end);
      [ intros HL;
        destruct (for_loop n0 i0 s0 b0 pos0) as [[[?st|?r] ?p]| | |];
        cbv beta in HL
      | apply (for_loop_inv_partial Inv Post); cbv beta;
        [ | intros ?j ?st ?p ?Hj ?HI ] ]
  end.

Lemma marked_insert u a b :
  marked u b -> marked (<[Z.to_nat a := 1]> u) b.
Proof.
  intros (v & Hv & Hnz). unfold marked.
  destruct (Nat.eq_dec (Z.to_nat a) (Z.to_nat b)) as [E|E].
  - exists 1. split; [|lia]. rewrite E. apply list_lookup_insert_eq.
    apply lookup_lt_Some in Hv. exact Hv.
  - exists v. split; [|exact Hnz]. rewrite list_lookup_insert_ne by exact E.
    exact Hv.
Qed.

Lemma marked_insert_self u a :
  (Z.to_nat a < length u)%nat -> marked (<[Z.to_nat a := 1]> u) a.
Proof.
  intros Hlt. exists 1. split; [|lia]. apply list_lookup_insert_eq. exact Hlt.
Qed.

(** What check 7 leaves in [in_use] when it passes: the marks that were
    there, and a mark for every non-zero direct or indirect pointer. *)
Lemma check_7_marks nd u u' pos pos' :
  error_check_7 nd u pos = Ok ((0, u'), pos') ->
  length u' = length u
  /\ (forall b, marked u b -> marked u' b)
  /\ (forall j, 0 <= j <= NDIRECT -> addr nd j <> 0 -> marked u' (addr nd j)).
Proof.
  unfold error_check_7, bind.
  loop_inv_partial
    (fun i s (p : Z) =>
       length s = length u
       /\ (forall b, marked u b -> marked s b)
       /\ (forall j, 0 <= j < i -> addr nd j <> 0 -> marked s (addr nd j)))
    (fun r : Z * list Z => fst r = 1).
  - intros E. inversion E. subst. destruct HL as (Hl & Hm & Hn).
    split; [exact Hl|]. split; [exact Hm|].
    intros j Hj. apply Hn. unfold NDIRECT in *. lia.
  - intros E. inversion E. subst. cbn in HL. discriminate HL.
  - discriminate.
  - discriminate.
  - discriminate.
  - split; [reflexivity|]. split; [auto|]. intros j Hj. lia.
  - destruct HI as (Hl & Hm & Hn).
    destruct (Z.eqb_spec (addr nd j) 0) as [E|E]; cbn [negb].
    + cbn. split; [exact Hl|]. split; [exact Hm|].
      intros k Hk Hnz. apply Hn; [|exact Hnz].
      destruct (Z.eq_dec k j) as [->|?]; [contradiction|lia].
    + destruct (st !! Z.to_nat (addr nd j)) as [v|] eqn:Ev; [|exact I].
      destruct (Z.eqb_spec v 0) as [Ez|Ez]; cbn [negb]; [|reflexivity].
      cbn. rewrite length_insert. split; [exact Hl|].
      split; [intros b Hb; apply marked_insert, Hm, Hb|].
      intros k Hk Hnz. destruct (Z.eq_dec k j) as [->|?].
      * apply marked_insert_self. apply lookup_lt_Some in Ev. exact Ev.
      * apply marked_insert, Hn; [lia|exact Hnz].
Qed.

(** Check 7 stops at a pointer that is already marked. *)
Lemma check_7_hits nd u b j pos :
  0 <= j <= NDIRECT -> addr nd j = b -> b <> 0 -> marked u b ->
  (forall i, 0 <= i <= NDIRECT -> addr nd i <> 0 ->
             (Z.to_nat (addr nd i) < length u)%nat) ->
  exists u', eval (error_check_7 nd u) pos = Ok (1, u').
Proof.
  intros Hj Hb Hnz Hm Hin. unfold error_check_7, eval, bind.
  loop_inv
    (fun i s (p : Z) => i <= j /\ length s = length u /\ marked s b)
    (fun r : Z * list Z => fst r = 1).
  - destruct HL as (Hle & _). unfold NDIRECT in *. lia.
  - destruct r as [r1 u']. cbn in HL. subst r1. exists u'. reflexivity.
  - split; [lia|]. split; [reflexivity|exact Hm].
  - destruct HI as (Hle & Hl & Hmk).
    assert (Hj' : 0 <= j0 <= NDIRECT) by lia.
    destruct (Z.eqb_spec (addr nd j0) 0) as [E|E]; cbn [negb].
    + cbn. split; [|split; assumption].
      destruct (Z.eq_dec j0 j) as [->|?]; [congruence|lia].
    + pose proof (Hin j0 Hj' E) as Hlt. rewrite <- Hl in Hlt.
      destruct (lookup_lt_is_Some_2 st _ Hlt) as [v Ev]. rewrite Ev.
      destruct (Z.eqb_spec v 0) as [Ez|Ez]; cbn [negb]; [|reflexivity].
      cbn. rewrite length_insert. subst v.
      assert (Hne : Z.to_nat (addr nd j0) <> Z.to_nat b).
      { intros Heq. destruct Hmk as (w & Hw & Hwnz). rewrite <- Heq, Ev in Hw.
        congruence. }
      split; [|split; [exact Hl|apply marked_insert, Hmk]].
      destruct (Z.eq_dec j0 j) as [->|?]; [congruence|lia].
Qed.


(** ** Reading the image *)

Lemma u32_small x : 0 <= x < 2 ^ 32 -> u32 x = x.
Proof. intros Hx. unfold u32. apply Z.mod_small. exact Hx. Qed.

Section Properties.
Context `{fs_header}.
Variable img : image.
Variable sb : superblock.

Lemma read_ok n pos :
  0 <= pos -> pos + n <= img_len img ->
  read img n pos = Ok (peek img pos n, pos + n).
Proof.
  intros H0 H1. unfold read.
  destruct (Z.leb_spec 0 pos); [|lia].
  destruct (Z.leb_spec (pos + n) (img_len img)); [|lia].
  reflexivity.
Qed.

Lemma read_uint_ok pos :
  0 <= pos -> pos + sizeof_uint <= img_len img ->
  read_uint img pos = Ok (le_val (peek img pos sizeof_uint), pos + sizeof_uint).
Proof. intros H0 H1. unfold read_uint, bind. rewrite read_ok by assumption. reflexivity. Qed.

Lemma read_dinode_ok pos :
  0 <= pos -> pos + sizeof_dinode <= img_len img ->
  read_dinode img pos = Ok (load_dinode (peek img pos sizeof_dinode), pos + sizeof_dinode).
Proof. intros H0 H1. unfold read_dinode, bind. rewrite read_ok by assumption. reflexivity. Qed.

Lemma read_dirent_ok pos :
  0 <= pos -> pos + sizeof_dirent <= img_len img ->
  read_dirent img pos = Ok (load_dirent (peek img pos sizeof_dirent), pos + sizeof_dirent).
Proof. intros H0 H1. unfold read_dirent, bind. rewrite read_ok by assumption. reflexivity. Qed.

(** The inode table starts where the 32-bit product says. *)
Lemma inode_table_off :
  well_sized img sb -> 0 < ninodes sb ->
  u32 (inodestart sb * BSIZE) = inodestart sb * BSIZE.
Proof.
  intros (Hlen & _ & _ & _ & Hi & _ & Htab) Hn.
  apply u32_small. pose proof BSIZE_min. pose proof sizeof_dinode_pos. nia.
Qed.

Lemma read_inode n :
  well_sized img sb -> 0 <= n < ninodes sb ->
  read_dinode img (u32 (inodestart sb * BSIZE) + n * sizeof_dinode)
  = Ok (inode_at img sb n,
        inodestart sb * BSIZE + n * sizeof_dinode + sizeof_dinode).
Proof.
  intros Hws Hn. rewrite inode_table_off by (assumption || lia).
  destruct Hws as (Hlen & _ & _ & _ & Hi & _ & Htab).
  pose proof BSIZE_min. pose proof sizeof_dinode_pos.
  rewrite read_dinode_ok by nia. reflexivity.
Qed.

(** The first steps of the loop body of [main]: the inode is loaded. *)
Lemma scan_inode_loads fuel n in_use r :
  well_sized img sb -> 0 <= n < ninodes sb ->
  yields (inode_checks img sb fuel n (inode_at img sb n) in_use) r ->
  yields (scan_inode img sb fuel n in_use) r.
Proof.
  intros Hws Hn Hy pos. unfold scan_inode. rewrite eval_lseek.
  replace (sizeof_dinode * n) with (n * sizeof_dinode) by lia.
  rewrite (eval_bind_ok _ _ _ _ _ (read_inode n Hws Hn)). apply Hy.
Qed.

Lemma yields_check_pass {B} msg (k : unit -> IO B) r :
  yields (k tt) r -> yields (bind (check 0 msg) k) r.
Proof. intros Hk. rewrite check_pass. apply yields_ret_bind, Hk. Qed.

Lemma yields_check_stop {B} c msg (k : unit -> IO B) :
  c <> 0 -> yields (bind (check c msg) k) (Exited 1 msg).
Proof.
  intros Hc pos. apply eval_bind_exited. unfold eval.
  rewrite check_stop by assumption. reflexivity.
Qed.

Lemma yields_check_fail c msg : c <> 0 -> yields (check c msg) (Exited 1 msg).
Proof.
  intros Hc pos. unfold eval. rewrite check_stop by assumption. reflexivity.
Qed.

Lemma yields_ret {A} (a : A) : yields (ret a) (Ok a).
Proof. intros pos. reflexivity. Qed.

(** C9: a free inode passes check 1, and the loop body of [main] does
    nothing else with it: no address, bitmap or duplication check, no
    directory or file check; the array [in_use] comes back as it was and
    the run goes on to the next inode. *)
Theorem free_inode_skipped fuel n in_use :
  well_sized img sb -> 0 <= n < ninodes sb ->
  type (inode_at img sb n) = 0 ->
  error_check_1 (inode_at img sb n) = 0
  /\ yields (scan_inode img sb fuel n in_use) (Ok in_use).
Proof.
  intros Hws Hn Hfree.
  assert (H1 : error_check_1 (inode_at img sb n) = 0).
  { unfold error_check_1. rewrite Hfree. reflexivity. }
  split; [exact H1|].
  apply scan_inode_loads; [assumption..|].
  unfold inode_checks. rewrite H1, Hfree. apply yields_check_pass, yields_ret.
Qed.

(** ** Check 2: the address range *)

(** The bound the code computes in [unsigned int], with its round-up step,
    is the first block after the bitmap. *)
Lemma bitmap_end_code :
  well_sized img sb ->
  (if size sb mod (8 * BSIZE) !=? 0
   then u32 (u32 (bmapstart sb + size sb / (8 * BSIZE)) + 1)
   else u32 (bmapstart sb + size sb / (8 * BSIZE))) = bitmap_end sb
  /\ u32 (size sb - 1) = size sb - 1.
Proof.
  intros (Hlen & Hs & Hsl & Hb & _).
  pose proof BSIZE_min as HB.
  unfold bitmap_end.
  assert (H8 : 0 < 8 * BSIZE) by lia.
  pose proof (Z.div_mod (size sb) (8 * BSIZE) (Z.neq_sym _ _ (Z.lt_neq _ _ H8))) as Hdm.
  pose proof (Z.mod_pos_bound (size sb) (8 * BSIZE) H8) as Hmb.
  set (q := size sb / (8 * BSIZE)) in *.
  set (r := size sb mod (8 * BSIZE)) in *.
  assert (Hq : 0 <= q) by nia.
  assert (Hq2 : 8 * q <= size sb) by nia.
  assert (Hsz : size sb * 4 <= 2 ^ 32) by nia.
  split; [|apply u32_small; lia].
  destruct (Z.eqb_spec r 0) as [Hr|Hr]; cbn [negb].
  - rewrite u32_small by lia.
    replace (size sb + 8 * BSIZE - 1) with (q * (8 * BSIZE) + (8 * BSIZE - 1)) by lia.
    rewrite Z.div_add_l by lia. rewrite Z.div_small by lia. lia.
  - rewrite (u32_small (bmapstart sb + q)) by lia. rewrite u32_small by lia.
    replace (size sb + 8 * BSIZE - 1) with ((q + 1) * (8 * BSIZE) + (r - 1)) by lia.
    rewrite Z.div_add_l by lia. rewrite Z.div_small by lia. lia.
Qed.

(** [bitmap_end] is [bmapstart] plus the ceiling of [size / (8 * BSIZE)]:
    the least number of blocks whose bits cover all blocks. *)
Lemma bitmap_end_ceiling :
  0 <= size sb ->
  let q := bitmap_end sb - bmapstart sb in
  size sb <= q * (8 * BSIZE) /\ (q - 1) * (8 * BSIZE) < size sb.
Proof.
  intros Hs. cbv zeta. unfold bitmap_end. pose proof BSIZE_min as HB.
  assert (H8 : 0 < 8 * BSIZE) by lia.
  set (x := size sb + 8 * BSIZE - 1).
  pose proof (Z.div_mod x (8 * BSIZE) (Z.neq_sym _ _ (Z.lt_neq _ _ H8))) as Hdm.
  pose proof (Z.mod_pos_bound x (8 * BSIZE) H8) as Hmb.
  replace (bmapstart sb + x / (8 * BSIZE) - bmapstart sb) with (x / (8 * BSIZE)) by lia.
  subst x. nia.
Qed.

Lemma ok_addr_dec a : ok_addr sb a \/ ~ ok_addr sb a.
Proof. unfold ok_addr, in_data_area. lia. Qed.

Lemma not_ok_addr a : ~ ok_addr sb a <-> a <> 0 /\ out_of_range sb a.
Proof. unfold ok_addr, in_data_area, out_of_range. lia. Qed.

Lemma bad_test a :
  (a !=? 0) && ((a <? bitmap_end sb) || (a >? size sb - 1)) = true
  <-> ~ ok_addr sb a.
Proof.
  unfold ok_addr, in_data_area.
  destruct (Z.eqb_spec a 0), (Z.ltb_spec a (bitmap_end sb)),
    (Z.gtb_spec a (size sb - 1)); cbn; split; intros; try discriminate;
    try reflexivity; lia.
Qed.

Lemma in_direct_addrs nd k :
  0 <= k < NDIRECT -> In (addr nd k) (direct_addrs nd).
Proof.
  intros Hk. unfold direct_addrs. apply in_map.
  apply list_elem_of_In, elem_of_seqZ. lia.
Qed.

Lemma in_inode_addrs nd k :
  0 <= k <= NDIRECT -> In (addr nd k) (inode_addrs img nd).
Proof.
  intros Hk. unfold inode_addrs. apply in_or_app.
  destruct (Z.eq_dec k NDIRECT) as [->|Hne].
  - right. left. reflexivity.
  - left. apply in_direct_addrs. lia.
Qed.

Lemma in_inode_addrs_inv nd a :
  In a (inode_addrs img nd) ->
  (exists k, 0 <= k <= NDIRECT /\ a = addr nd k)
  \/ (addr nd NDIRECT <> 0
      /\ exists k, 0 <= k < NINDIRECT /\ a = block_uint img (addr nd NDIRECT) k).
Proof.
  unfold inode_addrs, direct_addrs, indirect_addrs. intros Hin.
  apply in_app_or in Hin. destruct Hin as [Hin|[Hin|Hin]].
  - apply in_map_iff in Hin. destruct Hin as (k & <- & Hk).
    apply list_elem_of_In, elem_of_seqZ in Hk. left. exists k. split; [lia|reflexivity].
  - left. exists NDIRECT. split; [unfold NDIRECT; lia|congruence].
  - destruct (Z.eqb_spec (addr nd NDIRECT) 0) as [E|E]; [destruct Hin|].
    apply in_map_iff in Hin. destruct Hin as (k & <- & Hk).
    apply list_elem_of_In, elem_of_seqZ in Hk. right. split; [exact E|].
    exists k. split; [lia|reflexivity].
Qed.

Lemma bitmap_end_nonneg : well_sized img sb -> 0 <= bitmap_end sb.
Proof.
  intros (_ & Hs & _ & Hb & _). unfold bitmap_end.
  pose proof BSIZE_min.
  assert (0 <= (size sb + 8 * BSIZE - 1) / (8 * BSIZE)) by (apply Z.div_pos; lia).
  lia.
Qed.

Lemma data_block_in_image a :
  well_sized img sb -> in_data_area sb a ->
  0 <= a /\ (a + 1) * BSIZE <= img_len img /\ u32 (a * BSIZE) = a * BSIZE.
Proof.
  intros Hws [Ha1 Ha2]. pose proof (bitmap_end_nonneg Hws).
  destruct Hws as (Hlen & Hs & Hsl & _). pose proof BSIZE_min.
  split; [lia|]. split; [nia|]. apply u32_small. nia.
Qed.

Lemma NINDIRECT_fits : 0 <= NINDIRECT /\ NINDIRECT * sizeof_uint <= BSIZE.
Proof.
  unfold NINDIRECT, sizeof_uint. pose proof BSIZE_min.
  pose proof (Z.mul_div_le BSIZE 4).
  assert (0 <= BSIZE / 4) by (apply Z.div_pos; lia). lia.
Qed.

Lemma eval_after {S R} (m : IO (ctl S R)) (k : S -> IO R) pos :
  eval (after m k) pos =
  match m pos with
  | Ok (Next s, p') => eval (k s) p'
  | Ok (Return r, _) => Ok r
  | Exited st e => Exited st e
  | Fault => Fault
  | OutOfFuel => OutOfFuel
  end.
Proof.
  unfold eval, after, bind. destruct (m pos) as [[[s|r] p]| | |]; reflexivity.
Qed.

Lemma lseek_bind {A} off (m : IO A) pos : (lseek off ;;; m) pos = m off.
Proof. reflexivity. Qed.

(** Check 2 answers 1 when some address is bad, 0 when none is; under the
    size conditions its reads stay inside the image. *)
Lemma check_2_cases nd pos :
  well_sized img sb ->
  (eval (error_check_2 img sb nd) pos = Ok 1 /\ bad_address img sb nd)
  \/ (eval (error_check_2 img sb nd) pos = Ok 0 /\ ~ bad_address img sb nd).
Proof.
  intros Hws. destruct (bitmap_end_code Hws) as [Ebe Efe].
  unfold error_check_2. cbv zeta. rewrite Ebe, Efe.
  rewrite eval_after.
  loop_inv
    (fun j (_ : unit) (p : Z) => forall k, 0 <= k < j -> ok_addr sb (addr nd k))
    (fun r => r = 1 /\ bad_address img sb nd).
  - (* the direct pointers and the indirect pointer are fine *)
    assert (Hdir : forall k, 0 <= k <= NDIRECT -> ok_addr sb (addr nd k)).
    { intros k Hk. apply HL. unfold NDIRECT in *. lia. }
    clear HL. rewrite eval_after.
    destruct (Z.eqb_spec (addr nd NDIRECT) 0) as [E0|E0]; cbn [negb].
    + right. split; [reflexivity|].
      intros (a & Hin & Hnz & Hbad).
      assert (Hn : ~ ok_addr sb a) by (apply not_ok_addr; auto). apply Hn.
      apply in_inode_addrs_inv in Hin. destruct Hin as [(k & Hk & ->)|[Hne _]].
      * apply Hdir, Hk.
      * contradiction.
    + destruct (Hdir NDIRECT ltac:(unfold NDIRECT; lia)) as [?|Hin]; [contradiction|].
      destruct (data_block_in_image _ Hws Hin) as (Ha0 & Ha1 & Hu).
      rewrite Hu, lseek_bind.
      loop_inv
        (fun j (_ : unit) (p : Z) =>
           p = addr nd NDIRECT * BSIZE + j * sizeof_uint
           /\ forall k, 0 <= k < j -> ok_addr sb (block_uint img (addr nd NDIRECT) k))
        (fun r => r = 1 /\ bad_address img sb nd).
      * right. split; [reflexivity|].
        destruct HL as [_ HL].
        intros (a & Hin' & Hnz & Hbad).
        assert (Hn : ~ ok_addr sb a) by (apply not_ok_addr; auto). apply Hn.
        apply in_inode_addrs_inv in Hin'.
        destruct Hin' as [(k & Hk & ->)|[_ (k & Hk & ->)]].
        -- apply Hdir, Hk.
        -- apply HL. pose proof NINDIRECT_fits. lia.
      * left. destruct HL as [-> HL]. split; [reflexivity|exact HL].
      * split; [lia|]. intros k Hk. lia.
      * destruct HI as [-> HI]. pose proof NINDIRECT_fits as [Hn0 Hn1].
        unfold bind. rewrite read_uint_ok by (unfold sizeof_uint in *; nia).
        fold (block_uint img (addr nd NDIRECT) j).
        match goal with |- context [if ?t then _ else _] => destruct t eqn:Et end.
        -- apply bad_test, not_ok_addr in Et. cbn. split; [reflexivity|].
           exists (block_uint img (addr nd NDIRECT) j).
           split; [|exact Et].
           unfold inode_addrs, indirect_addrs.
           apply in_or_app. right. right.
           destruct (Z.eqb_spec (addr nd NDIRECT) 0); [contradiction|].
           apply in_map. apply list_elem_of_In, elem_of_seqZ. lia.
        -- cbn. split; [unfold sizeof_uint; lia|].
           intros k Hk. destruct (Z.eq_dec k j) as [->|Hne]; [|apply HI; lia].
           destruct (ok_addr_dec (block_uint img (addr nd NDIRECT) j)) as [?|Hn]; [assumption|].
           apply bad_test in Hn. congruence.
  - left. destruct HL as [-> HL]. split; [reflexivity|exact HL].
  - intros k Hk. lia.
  - match goal with |- context [if ?t then _ else _] => destruct t eqn:Et end.
    + apply bad_test, not_ok_addr in Et. cbn. split; [reflexivity|].
      exists (addr nd j). split; [apply in_inode_addrs; unfold NDIRECT in *; lia|].
      exact Et.
    + cbn. intros k Hk. destruct (Z.eq_dec k j) as [->|Hne]; [|apply HI; lia].
      destruct (ok_addr_dec (addr nd j)) as [?|Hn]; [assumption|].
      apply bad_test in Hn. congruence.
Qed.


(** ** The driver *)

Lemma scan_inodes_app fuel n m first u pos :
  scan_inodes img sb fuel (n + m) first u pos =
  (u' <- scan_inodes img sb fuel n first u ;;
   scan_inodes img sb fuel m (first + Z.of_nat n) u') pos.
Proof.
  revert first u pos. induction n as [|n IH]; intros first u pos.
  - cbn [Nat.add scan_inodes]. replace (first + Z.of_nat 0) with first by lia.
    reflexivity.
  - cbn [Nat.add scan_inodes].
    unfold bind. destruct (scan_inode img sb fuel first u pos) as [[u1 p1]| | |];
      try reflexivity.
    rewrite IH. unfold bind.
    replace (first + 1 + Z.of_nat n) with (first + Z.of_nat (Datatypes.S n)) by lia.
    reflexivity.
Qed.

Lemma read_superblock_ok pos :
  0 <= pos -> pos + sizeof_superblock <= img_len img ->
  read_superblock img pos
  = Ok (load_superblock (peek img pos sizeof_superblock), pos + sizeof_superblock).
Proof.
  intros H0 H1. unfold read_superblock, bind. rewrite read_ok by assumption.
  reflexivity.
Qed.

(** A run that comes to inode [n] ends as the loop body ends there, if that
    body ends the process. *)
Lemma run_stops_at fuel n u st msg :
  loads img sb -> scanned_to img sb fuel n u ->
  yields (scan_inode img sb fuel n u) (Exited st msg) ->
  xcheck fuel 2 (Some img) = Exited st msg.
Proof.
  intros [Hlen Hsb] (H3 & Hn & Hscan) Hstop.
  unfold xcheck, main. cbn [Z.eqb Pos.eqb negb].
  rewrite eval_lseek. pose proof BSIZE_min as HB.
  assert (Hr : read_superblock img (BSIZE * 1)
               = Ok (sb, BSIZE * 1 + sizeof_superblock)).
  { rewrite read_superblock_ok by lia.
    replace (BSIZE * 1) with BSIZE by lia. rewrite <- Hsb. reflexivity. }
  rewrite (eval_bind_ok _ _ _ _ _ Hr).
  eapply eval_bind_yields; [apply H3|].
  rewrite check_pass. apply yields_ret_bind.
  intros pos. apply eval_bind_exited.
  replace (Z.to_nat (ninodes sb))
    with (Z.to_nat n + Datatypes.S (Z.to_nat (ninodes sb - n - 1)))%nat by lia.
  unfold eval. rewrite scan_inodes_app.
  change (eval (u' <- scan_inodes img sb fuel (Z.to_nat n) 0 (replicate (Z.to_nat (size sb)) 0) ;;
                scan_inodes img sb fuel (Datatypes.S (Z.to_nat (ninodes sb - n - 1)))
                  (0 + Z.of_nat (Z.to_nat n)) u') pos = Exited st msg).
  eapply eval_bind_yields; [apply Hscan|].
  cbn [scan_inodes]. intros pos'. apply eval_bind_exited.
  replace (0 + Z.of_nat (Z.to_nat n)) with n by lia. apply Hstop.
Qed.

(** C1: check 2 reports a violation exactly when some non-zero address among
    the 12 direct pointers of the inode, its indirect pointer and the
    NINDIRECT pointers stored in its indirect block lies below [bitmap_end]
    or above [size - 1], where [bitmap_end] is [bmapstart] plus the ceiling
    of [size / (8 * BSIZE)]; it answers 0 otherwise; and on a violation in
    a non-free inode the run ends with status 1 and the diagnostic
    [bad indirect address in inode]. *)
Theorem address_range_check nd :
  well_sized img sb ->
  (yields (error_check_2 img sb nd) (Ok 1) <-> bad_address img sb nd)
  /\ (yields (error_check_2 img sb nd) (Ok 0) <-> ~ bad_address img sb nd)
  /\ (forall fuel n u,
        loads img sb -> scanned_to img sb fuel n u ->
        nd = inode_at img sb n -> type nd <> 0 -> error_check_1 nd = 0 ->
        bad_address img sb nd ->
        xcheck fuel 2 (Some img)
        = Exited 1 ("ERROR: bad indirect address in inode" ++ nl)).
Proof.
  intros Hws.
  assert (H1 : yields (error_check_2 img sb nd) (Ok 1) <-> bad_address img sb nd).
  { split.
    - intros Hy. destruct (check_2_cases nd 0 Hws) as [[_ Hb]|[E _]]; [exact Hb|].
      rewrite (Hy 0) in E. discriminate.
    - intros Hb pos. destruct (check_2_cases nd pos Hws) as [[E _]|[_ Hn]];
        [exact E|contradiction]. }
  split; [exact H1|]. split.
  - split.
    + intros Hy Hb. apply H1 in Hb. specialize (Hb 0).
      rewrite (Hy 0) in Hb. discriminate.
    + intros Hn pos. destruct (check_2_cases nd pos Hws) as [[_ Hb]|[E _]];
        [contradiction|exact E].
  - intros fuel n u Hl Hsc -> Hty Hc1 Hb.
    apply (run_stops_at fuel n u); [assumption..|].
    apply scan_inode_loads; [exact Hws|apply Hsc|].
    unfold inode_checks. rewrite Hc1. apply yields_check_pass.
    destruct (Z.eqb_spec (type (inode_at img sb n)) 0) as [?|_]; [contradiction|].
    cbn [negb]. eapply yields_bind; [apply H1, Hb|].
    apply yields_check_stop. discriminate.
Qed.


(** ** Check 4: the shape of a directory *)

Lemma strncmp_named s e :
  (length (list_byte_of_string s) <= Z.to_nat DIRSIZ)%nat ->
  c_string (list_byte_of_string s) = list_byte_of_string s ->
  (strncmp (name e) (list_byte_of_string s) (Z.to_nat DIRSIZ) =? 0) = named s e.
Proof.
  intros Hlen Hnul. rewrite strncmp_zero. unfold named.
  rewrite (firstn_all2 (list_byte_of_string s)) by exact Hlen.
  rewrite Hnul. reflexivity.
Qed.

Lemma strncmp_dot e : (strncmp (name e) dot (Z.to_nat DIRSIZ) =? 0) = named "." e.
Proof.
  apply strncmp_named; [|reflexivity].
  pose proof DIRSIZ_min. cbn. lia.
Qed.

Lemma strncmp_dotdot e :
  (strncmp (name e) dotdot (Z.to_nat DIRSIZ) =? 0) = named ".." e.
Proof.
  apply strncmp_named; [|reflexivity].
  pose proof DIRSIZ_min. cbn. lia.
Qed.

Lemma count_app {A} (p : A -> bool) l1 l2 :
  count p (l1 ++ l2) = count p l1 + count p l2.
Proof. unfold count. rewrite List.filter_app, length_app. lia. Qed.

Lemma count_single {A} (p : A -> bool) x : count p [x] = if p x then 1 else 0.
Proof. unfold count. cbn. destruct (p x); reflexivity. Qed.

Lemma shape_matches_app d l1 l2 :
  shape_matches d (l1 ++ l2) = shape_matches d l1 + shape_matches d l2.
Proof. unfold shape_matches. rewrite !count_app. lia. Qed.

Lemma shape_matches_single d e :
  shape_matches d [e]
  = (if named "." e && (inum e =? d) then 1 else 0)
    + (if named ".." e then 1 else 0).
Proof. unfold shape_matches. rewrite !count_single. reflexivity. Qed.

Lemma seqZ_snoc j : 0 <= j -> seqZ 0 (j + 1) = seqZ 0 j ++ [j].
Proof.
  intros Hj. rewrite seqZ_app by lia. reflexivity.
Qed.

Lemma nonzero_app l1 l2 : nonzero (l1 ++ l2) = nonzero l1 ++ nonzero l2.
Proof. apply List.filter_app. Qed.

Lemma nonzero_single a : nonzero [a] = if a !=? 0 then [a] else [].
Proof. reflexivity. Qed.

Lemma block_in_image_facts a :
  img_len img <= 2 ^ 32 -> block_in_image img a = true ->
  0 <= a /\ (a + 1) * BSIZE <= img_len img /\ u32 (a * BSIZE) = a * BSIZE.
Proof.
  intros Hlen Hb. unfold block_in_image in Hb.
  apply andb_true_iff in Hb. destruct Hb as [H0 H1].
  apply Z.leb_le in H0, H1. pose proof BSIZE_min.
  split; [lia|]. split; [lia|]. apply u32_small. nia.
Qed.

Lemma NDIRENT_fits : 0 <= NDIRENT /\ NDIRENT * sizeof_dirent <= BSIZE.
Proof.
  unfold NDIRENT. pose proof BSIZE_min. pose proof sizeof_dirent_pos as Hs.
  pose proof (Z.mul_div_le BSIZE sizeof_dirent Hs).
  assert (0 <= BSIZE / sizeof_dirent) by (apply Z.div_pos; lia). lia.
Qed.

Lemma direct_block_in_image nd j :
  direct_in_image img nd = true -> 0 <= j < NDIRECT -> addr nd j <> 0 ->
  block_in_image img (addr nd j) = true.
Proof.
  intros Hd Hj Hnz. unfold direct_in_image in Hd.
  rewrite forallb_forall in Hd. apply Hd.
  unfold nonzero. apply filter_In. split.
  - unfold direct_addrs. apply in_map. apply list_elem_of_In, elem_of_seqZ. lia.
  - apply negb_true_iff, Z.eqb_neq. exact Hnz.
Qed.

Lemma check_4_value nd d :
  img_len img <= 2 ^ 32 -> direct_in_image img nd = true ->
  yields (error_check_4 img nd d)
    (Ok (if shape_matches d (direct_entries img nd) =? 2 then 0 else 1)).
Proof.
  intros Hlen Hdir pos. unfold error_check_4. rewrite eval_after.
  loop_inv
    (fun j chk (p : Z) =>
       chk = shape_matches d
               (flat_map (block_entries img) (nonzero (map (addr nd) (seqZ 0 j)))))
    (fun r : Z => False).
  - subst st. replace (0 + Z.of_nat (Z.to_nat NDIRECT)) with NDIRECT by (unfold NDIRECT; lia).
    fold (direct_addrs nd). fold (direct_entries img nd).
    destruct (Z.eqb_spec (shape_matches d (direct_entries img nd)) 2); reflexivity.
  - reflexivity.
  - assert (Hj' : 0 <= j < NDIRECT) by (unfold NDIRECT in *; lia).
    rewrite seqZ_snoc, map_app, nonzero_app, flat_map_app, shape_matches_app by lia.
    cbn [map]. rewrite nonzero_single.
    destruct (Z.eqb_spec (addr nd j) 0) as [E|E]; cbn [negb].
    + cbn [flat_map]. change (shape_matches d []) with 0. rewrite Z.add_0_r. exact HI.
    + cbn [flat_map]. rewrite app_nil_r.
      pose proof (direct_block_in_image nd j Hdir Hj' E) as Hb.
      destruct (block_in_image_facts _ Hlen Hb) as (Ha0 & Ha1 & Hu).
      rewrite lseek_bind, Hu.
      loop_inv
        (fun k chk (p : Z) =>
           p = addr nd j * BSIZE + k * sizeof_dirent
           /\ chk = st + shape_matches d (map (block_dirent img (addr nd j)) (seqZ 0 k)))
        (fun r : Z => False).
      * destruct HL as [_ ->]. rewrite HI. unfold block_entries.
        replace (0 + Z.of_nat (Z.to_nat (BSIZE / sizeof_dirent))) with NDIRENT
          by (pose proof NDIRENT_fits; unfold NDIRENT in *; lia).
        reflexivity.
      * split; [lia|]. rewrite seqZ_nil by lia. change (shape_matches d (map _ [])) with 0. lia.
      * destruct HI0 as [-> ->]. pose proof NDIRENT_fits as [Hn0 Hn1].
        unfold NDIRENT in *. pose proof sizeof_dirent_pos.
        unfold bind. rewrite read_dirent_ok by nia.
        fold (block_dirent img (addr nd j) j0).
        cbn -[dot dotdot]. split; [lia|].
        rewrite seqZ_snoc, map_app, shape_matches_app by lia.
        cbn [map]. rewrite shape_matches_single.
        rewrite strncmp_dot, strncmp_dotdot.
        destruct (named "." _ && _), (named ".." _); lia.
Qed.


(** Once checks 1, 2, 5, 7 and 8 pass, the loop body goes on with the checks
    of a directory or of a file. *)
Lemma inode_checks_kind fuel n nd u u' r :
  address_checks_pass img sb nd u u' -> type nd <> 0 ->
  yields ((if type nd =? T_DIR then directory_checks img sb fuel n nd else ret tt) ;;;
          (if type nd =? T_FILE then file_checks img sb n nd else ret tt) ;;;
          ret u') r ->
  yields (inode_checks img sb fuel n nd u) r.
Proof.
  intros (H1 & H2 & H5 & u1 & H7 & H8) Hty Hk.
  unfold inode_checks. rewrite H1. apply yields_check_pass.
  destruct (Z.eqb_spec (type nd) 0) as [?|_]; [contradiction|]. cbn [negb].
  eapply yields_bind; [exact H2|]. apply yields_check_pass.
  eapply yields_bind; [exact H5|]. apply yields_check_pass.
  eapply yields_bind; [exact H7|]. cbv beta iota. apply yields_check_pass.
  eapply yields_bind; [exact H8|]. cbv beta iota. apply yields_check_pass.
  exact Hk.
Qed.

Lemma yields_bind_exited {A B} (m : IO A) (k : A -> IO B) st e :
  yields m (Exited st e) -> yields (bind m k) (Exited st e).
Proof. intros Hm pos. apply eval_bind_exited, Hm. Qed.

Lemma yields_inj {A} (m : IO A) r1 r2 : yields m r1 -> yields m r2 -> r1 = r2.
Proof. intros H1 H2. rewrite <- (H1 0), <- (H2 0). reflexivity. Qed.

(** C7, as amended: for a directory inode [d], check 4 passes exactly when
    the records of the direct blocks of [d] hold 2 matches in all, counting
    the entries named [.] whose inum is [d] and the entries named [..] with
    any inum; the blocks listed in the indirect block are not scanned.  Any
    other total ends the run with [directory not properly formatted]. *)
Theorem directory_shape_check nd d :
  img_len img <= 2 ^ 32 -> direct_in_image img nd = true ->
  (yields (error_check_4 img nd d) (Ok 0)
   <-> shape_matches d (direct_entries img nd) = 2)
  /\ (yields (error_check_4 img nd d) (Ok 1)
      <-> shape_matches d (direct_entries img nd) <> 2)
  /\ (forall fuel u u',
        well_sized img sb -> loads img sb -> scanned_to img sb fuel d u ->
        nd = inode_at img sb d -> type nd = T_DIR ->
        address_checks_pass img sb nd u u' ->
        shape_matches d (direct_entries img nd) <> 2 ->
        xcheck fuel 2 (Some img)
        = Exited 1 ("ERROR: directory not properly formatted" ++ nl)).
Proof.
  intros Hlen Hdir. pose proof (check_4_value nd d Hlen Hdir) as Hv.
  assert (H01 : (yields (error_check_4 img nd d) (Ok 0)
                 <-> shape_matches d (direct_entries img nd) = 2)
                /\ (yields (error_check_4 img nd d) (Ok 1)
                    <-> shape_matches d (direct_entries img nd) <> 2)).
  { revert Hv.
    destruct (Z.eqb_spec (shape_matches d (direct_entries img nd)) 2) as [E|E];
      intros Hv; (split; split; intros Hy); try assumption; try contradiction.
    - pose proof (yields_inj _ _ _ Hv Hy) as Hc. inversion Hc.
    - pose proof (yields_inj _ _ _ Hv Hy) as Hc. inversion Hc. }
  destruct H01 as [H0 H1].
  split; [exact H0|split; [exact H1|]].
  - intros fuel u u' Hws Hl Hsc -> Hty Hpass Hne.
    apply (run_stops_at fuel d u); [assumption..|].
    apply scan_inode_loads; [exact Hws|apply Hsc|].
    apply (inode_checks_kind fuel d _ u u'); [exact Hpass| |].
    { rewrite Hty. apply T_DIR_used. }
    rewrite Hty, Z.eqb_refl.
    apply yields_bind_exited. unfold directory_checks.
    eapply yields_bind; [apply H1, Hne|].
    apply yields_check_stop. discriminate.
Qed.


(** ** Check 3: the root directory *)

Lemma in_direct_entries nd e :
  In e (direct_entries img nd) <->
  exists j k, 0 <= j < NDIRECT /\ addr nd j <> 0 /\ 0 <= k < NDIRENT
              /\ e = block_dirent img (addr nd j) k.
Proof.
  unfold direct_entries, nonzero, direct_addrs, block_entries.
  rewrite in_flat_map. split.
  - intros (a & Ha & He). apply filter_In in Ha. destruct Ha as [Ha Hnz].
    apply in_map_iff in Ha. destruct Ha as (j & <- & Hj).
    apply list_elem_of_In, elem_of_seqZ in Hj.
    apply in_map_iff in He. destruct He as (k & <- & Hk).
    apply list_elem_of_In, elem_of_seqZ in Hk.
    apply negb_true_iff, Z.eqb_neq in Hnz.
    exists j, k. repeat split; try lia; exact Hnz.
  - intros (j & k & Hj & Hnz & Hk & ->). exists (addr nd j). split.
    + apply filter_In. split.
      * apply in_map. apply list_elem_of_In, elem_of_seqZ. lia.
      * apply negb_true_iff, Z.eqb_neq. exact Hnz.
    + apply in_map. apply list_elem_of_In, elem_of_seqZ. lia.
Qed.

Lemma root_parent_test e :
  (inum e !=? 0) && ((strncmp (name e) dotdot (Z.to_nat DIRSIZ) =? 0) && (inum e =? 1))
  = is_root_parent e.
Proof.
  rewrite strncmp_dotdot. unfold is_root_parent.
  destruct (Z.eqb_spec (inum e) 1) as [->|?].
  - cbn. rewrite andb_true_r. reflexivity.
  - rewrite andb_false_r. rewrite andb_false_r. reflexivity.
Qed.

Lemma check_3_cases pos :
  well_sized img sb -> 1 < ninodes sb ->
  (type (inode_at img sb 1) = T_DIR -> direct_in_image img (inode_at img sb 1) = true) ->
  (eval (error_check_3 img sb) pos = Ok 0
   /\ type (inode_at img sb 1) = T_DIR
   /\ exists e, In e (direct_entries img (inode_at img sb 1)) /\ is_root_parent e = true)
  \/ (eval (error_check_3 img sb) pos = Ok 1
      /\ (type (inode_at img sb 1) <> T_DIR
          \/ forall e, In e (direct_entries img (inode_at img sb 1)) ->
                       is_root_parent e = false)).
Proof.
  intros Hws Hn Hdir. unfold error_check_3. rewrite eval_lseek.
  pose proof (read_inode 1 Hws ltac:(lia)) as Hr.
  replace (1 * sizeof_dinode) with sizeof_dinode in Hr by lia.
  rewrite (eval_bind_ok _ _ _ _ _ Hr). clear Hr.
  set (root := inode_at img sb 1) in *.
  destruct (Z.eqb_spec (type root) T_DIR) as [Hty|Hty]; cbn [negb].
  2:{ right. split; [reflexivity|]. left. exact Hty. }
  specialize (Hdir Hty). destruct Hws as (Hlen & _).
  rewrite eval_after.
  loop_inv
    (fun j (_ : unit) (p : Z) =>
       forall j' k, 0 <= j' < j -> addr root j' <> 0 -> 0 <= k < NDIRENT ->
                    is_root_parent (block_dirent img (addr root j') k) = false)
    (fun r => r = 0
              /\ exists e, In e (direct_entries img root) /\ is_root_parent e = true).
  - right. split; [reflexivity|]. right. intros e He.
    apply in_direct_entries in He. destruct He as (j & k & Hj & Hnz & Hk & ->).
    apply HL; [unfold NDIRECT in *; lia|assumption..].
  - left. destruct HL as [-> HL]. split; [reflexivity|]. split; assumption.
  - intros j' k Hj'. lia.
  - assert (Hj' : 0 <= j < NDIRECT) by (unfold NDIRECT in *; lia).
    destruct (Z.eqb_spec (addr root j) 0) as [E|E]; cbn [negb].
    + cbn. intros j' k Hj'' Hnz Hk. apply HI; [|assumption..].
      destruct (Z.eq_dec j' j) as [->|?]; [contradiction|lia].
    + pose proof (direct_block_in_image root j Hdir Hj' E) as Hb.
      destruct (block_in_image_facts _ Hlen Hb) as (Ha0 & Ha1 & Hu).
      rewrite lseek_bind, Hu.
      loop_inv
        (fun k (_ : unit) (p : Z) =>
           p = addr root j * BSIZE + k * sizeof_dirent
           /\ forall k', 0 <= k' < k ->
                is_root_parent (block_dirent img (addr root j) k') = false)
        (fun r => r = 0
              /\ exists e, In e (direct_entries img root) /\ is_root_parent e = true).
      * destruct HL as [_ HL]. intros j' k Hj'' Hnz Hk.
        destruct (Z.eq_dec j' j) as [->|?].
        -- apply HL. unfold NDIRENT in *. pose proof (NDIRENT_fits). unfold NDIRENT in *. lia.
        -- apply HI; [lia|assumption..].
      * exact HL.
      * split; [lia|]. intros k' Hk'. lia.
      * destruct HI0 as [-> HI0]. pose proof NDIRENT_fits as [Hn0 Hn1].
        unfold NDIRENT in *. pose proof sizeof_dirent_pos.
        unfold bind. rewrite read_dirent_ok by nia.
        fold (block_dirent img (addr root j) j0).
        rewrite root_parent_test.
        destruct (is_root_parent (block_dirent img (addr root j) j0)) eqn:Em.
        -- cbn. split; [reflexivity|]. eexists. split; [|exact Em].
           apply in_direct_entries. exists j, j0.
           unfold NDIRENT. repeat split; try lia; exact E.
        -- cbn. split; [lia|]. intros k' Hk'.
           destruct (Z.eq_dec k' j0) as [->|?]; [exact Em|apply HI0; lia].
Qed.

(** C5: the root check runs first.  When inode 1 is not a directory, or no
    entry of the root that check 3 reads (the records of its direct blocks)
    is named [..] and leads to inode 1, check 3 answers 1 and the run ends
    at once with status 1 and [root directory does not exist]: what follows
    the root check in [main], the loop over the inodes with its checks 1, 2,
    4, 5 and 7 to 12 and the bitmap sweep, is not run, whatever it is. *)
Theorem root_check_first :
  well_sized img sb -> loads img sb -> 1 < ninodes sb ->
  (type (inode_at img sb 1) <> T_DIR
   \/ (direct_in_image img (inode_at img sb 1) = true
       /\ forall e, In e (direct_entries img (inode_at img sb 1)) ->
                    is_root_parent e = false)) ->
  yields (error_check_3 img sb) (Ok 1)
  /\ (forall rest : IO Z,
        yields (r <- error_check_3 img sb ;;
                check r ("ERROR: root directory does not exist" ++ nl) ;;;
                rest)
               (Exited 1 ("ERROR: root directory does not exist" ++ nl)))
  /\ (forall fuel,
        xcheck fuel 2 (Some img)
        = Exited 1 ("ERROR: root directory does not exist" ++ nl)).
Proof.
  intros Hws Hl Hn Hroot.
  assert (H3 : yields (error_check_3 img sb) (Ok 1)).
  { intros pos.
    destruct (check_3_cases pos Hws Hn) as [(_ & Hty & e & He & Hm)|[E _]].
    - destruct Hroot as [?|[Hd _]]; [contradiction|intros _; exact Hd].
    - destruct Hroot as [?|[_ Hno]]; [contradiction|].
      rewrite (Hno e He) in Hm. discriminate Hm.
    - exact E. }
  assert (Hrest : forall rest : IO Z,
            yields (r <- error_check_3 img sb ;;
                    check r ("ERROR: root directory does not exist" ++ nl) ;;;
                    rest)
                   (Exited 1 ("ERROR: root directory does not exist" ++ nl))).
  { intros rest. eapply yields_bind; [exact H3|].
    apply yields_check_stop. discriminate. }
  split; [exact H3|]. split; [exact Hrest|].
  intros fuel. destruct Hl as [Hlen Hsb].
  unfold xcheck, main. cbn [Z.eqb Pos.eqb negb].
  rewrite eval_lseek. pose proof BSIZE_min as HB.
  assert (Hr : read_superblock img (BSIZE * 1)
               = Ok (sb, BSIZE * 1 + sizeof_superblock)).
  { rewrite read_superblock_ok by lia.
    replace (BSIZE * 1) with BSIZE by lia. rewrite <- Hsb. reflexivity. }
  rewrite (eval_bind_ok _ _ _ _ _ Hr). apply Hrest.
Qed.


(** ** Checks 11 and 12: counting the names of an inode *)

Lemma u32_succ x : u32 (u32 x + 1) = u32 (x + 1).
Proof. unfold u32. apply Z.add_mod_idemp_l. lia. Qed.

Lemma count_nonneg {A} (p : A -> bool) l : 0 <= count p l.
Proof. unfold count. lia. Qed.

Lemma count_nil {A} (p : A -> bool) : count p [] = 0.
Proof. reflexivity. Qed.


(** The entries of one block that refer to [d] are added to the counter. *)
Lemma count_block_value d a X pos :
  img_len img <= 2 ^ 32 -> block_in_image img a = true ->
  match count_block img d a (u32 X) pos with
  | Ok (Next c, _) => c = u32 (X + count (refers d) (block_entries img a))
  | _ => False
  end.
Proof.
  intros Hlen Hb. destruct (block_in_image_facts a Hlen Hb) as (Ha0 & Ha1 & Hu).
  unfold count_block.
  loop_inv
    (fun k c (p : Z) =>
       c = u32 (X + count (refers d) (map (block_dirent img a) (seqZ 0 k))))
    (fun r : Z => False).
  - subst st. unfold block_entries.
    replace (0 + Z.of_nat (Z.to_nat (BSIZE / sizeof_dirent))) with NDIRENT
      by (pose proof NDIRENT_fits; unfold NDIRENT in *; lia).
    reflexivity.
  - rewrite seqZ_nil by lia. cbn [map]. rewrite count_nil, Z.add_0_r. reflexivity.
  - subst st. pose proof NDIRENT_fits as [Hn0 Hn1].
    unfold NDIRENT in *. pose proof sizeof_dirent_pos.
    rewrite lseek_bind, Hu. unfold bind. rewrite read_dirent_ok by nia.
    fold (block_dirent img a j).
    rewrite seqZ_snoc, map_app, count_app by lia. cbn [map].
    rewrite count_single.
    change (inum (block_dirent img a j) =? d) with (refers d (block_dirent img a j)).
    destruct (refers d (block_dirent img a j)); cbn.
    + rewrite u32_succ. f_equal. lia.
    + f_equal. lia.
Qed.

Lemma bind_ok {A B} (m : IO A) (k : A -> IO B) pos a pos' :
  m pos = Ok (a, pos') -> bind m k pos = k a pos'.
Proof. intros E. unfold bind. rewrite E. reflexivity. Qed.

Lemma dir_in_image_facts nd :
  dir_in_image img nd = true ->
  direct_in_image img nd = true
  /\ (addr nd NDIRECT <> 0 ->
      block_in_image img (addr nd NDIRECT) = true
      /\ forall k, 0 <= k < NINDIRECT -> block_uint img (addr nd NDIRECT) k <> 0 ->
                   block_in_image img (block_uint img (addr nd NDIRECT) k) = true).
Proof.
  unfold dir_in_image. intros Hd. apply andb_true_iff in Hd. destruct Hd as [Hd Hi].
  split; [exact Hd|]. intros Hnz.
  apply orb_true_iff in Hi. destruct Hi as [Hi|Hi]; [apply Z.eqb_eq in Hi; contradiction|].
  apply andb_true_iff in Hi. destruct Hi as [Hb Hall]. split; [exact Hb|].
  intros k Hk Hknz. rewrite forallb_forall in Hall. apply Hall.
  unfold nonzero, indirect_addrs. apply filter_In. split.
  - destruct (Z.eqb_spec (addr nd NDIRECT) 0); [contradiction|].
    apply in_map. apply list_elem_of_In, elem_of_seqZ. lia.
  - apply negb_true_iff, Z.eqb_neq. exact Hknz.
Qed.

Lemma dirs_in_image_at n :
  dirs_in_image img sb = true -> 0 <= n < ninodes sb -> is_dir img sb n = true ->
  dir_in_image img (inode_at img sb n) = true.
Proof.
  unfold dirs_in_image. intros Hall Hn Hd. rewrite forallb_forall in Hall.
  apply Hall. unfold directories. apply filter_In. split; [|exact Hd].
  apply list_elem_of_In, elem_of_seqZ. lia.
Qed.

(** The entries of one directory that refer to [d] are added to the counter. *)
Lemma count_inode_value d nd X pos :
  img_len img <= 2 ^ 32 -> dir_in_image img nd = true ->
  match
    (c <- for_loop (Z.to_nat NDIRECT) 0 (u32 X) (fun j cnt =>
        if addr nd j !=? 0
        then count_block img d (addr nd j) cnt
        else ret (Next cnt)) ;;
      match c with
      | Next cnt =>
          if addr nd NDIRECT !=? 0 then
            for_loop (Z.to_nat NINDIRECT) 0 cnt (fun j cnt =>
              lseek (u32 (addr nd NDIRECT * BSIZE) + j * sizeof_uint) ;;;
              a <- read_uint img ;;
              if a !=? 0
              then count_block img d a cnt
              else ret (Next cnt))
          else ret (Next cnt)
      | Return r => ret (Return r)
      end) pos
  with
  | Ok (Next c, _) => c = u32 (X + count (refers d) (dir_entries img nd))
  | _ => False
  end.
Proof.
  intros Hlen Hd. destruct (dir_in_image_facts nd Hd) as [Hdir Hind].
  unfold bind at 1.
  loop_inv
    (fun j c (p : Z) =>
       c = u32 (X + count (refers d)
                      (flat_map (block_entries img) (nonzero (map (addr nd) (seqZ 0 j))))))
    (fun r : Z => False).
  - replace (0 + Z.of_nat (Z.to_nat NDIRECT)) with NDIRECT in HL by (unfold NDIRECT; lia).
    fold (direct_addrs nd) in HL. fold (direct_entries img nd) in HL.
    destruct (Z.eqb_spec (addr nd NDIRECT) 0) as [E|E]; cbn [negb].
    + cbn. subst st. unfold dir_entries, indirect_entries, indirect_addrs.
      rewrite (proj2 (Z.eqb_eq _ _) E). cbn [nonzero List.filter flat_map].
      rewrite app_nil_r. reflexivity.
    + destruct (Hind E) as [Hib Hall].
      destruct (block_in_image_facts _ Hlen Hib) as (Ha0 & Ha1 & Hu).
      set (ia := addr nd NDIRECT) in *.
      loop_inv
        (fun j c (p : Z) =>
           c = u32 (X + count (refers d) (direct_entries img nd)
                    + count (refers d)
                        (flat_map (block_entries img)
                           (nonzero (map (block_uint img ia) (seqZ 0 j))))))
        (fun r : Z => False).
      * subst st0. unfold dir_entries, indirect_entries, indirect_addrs. fold ia.
        destruct (Z.eqb_spec ia 0); [contradiction|].
        replace (0 + Z.of_nat (Z.to_nat NINDIRECT)) with NINDIRECT
          by (pose proof NINDIRECT_fits; lia).
        rewrite count_app. f_equal. lia.
      * rewrite seqZ_nil by lia. cbn [map nonzero List.filter flat_map].
        rewrite count_nil, Z.add_0_r. exact HL.
      * subst st0. pose proof NINDIRECT_fits as [Hn0 Hn1].
        rewrite lseek_bind, Hu.
        assert (Hrd : exists p', read_uint img (ia * BSIZE + j * sizeof_uint)
                                 = Ok (block_uint img ia j, p')).
        { eexists. rewrite read_uint_ok by (unfold sizeof_uint in *; nia).
          reflexivity. }
        destruct Hrd as [p' Hrd]. rewrite (bind_ok _ _ _ _ _ Hrd).
        rewrite seqZ_snoc, map_app, nonzero_app, flat_map_app, count_app by lia.
        cbn [map]. rewrite nonzero_single.
        destruct (Z.eqb_spec (block_uint img ia j) 0) as [E0|E0]; cbn [negb].
        -- cbn [flat_map]. rewrite count_nil. cbn. f_equal. lia.
        -- cbn [flat_map]. rewrite app_nil_r.
           match goal with |- context [count_block img d ?a (u32 ?Y) ?p] =>
             pose proof (count_block_value d a Y p Hlen
                           (Hall j ltac:(lia) E0)) as Hc;
             destruct (count_block img d a (u32 Y) p) as [[[c|r] q]| | |];
             try contradiction
           end.
           subst c. f_equal. lia.
  - rewrite seqZ_nil by lia. cbn [map nonzero List.filter flat_map].
    rewrite count_nil, Z.add_0_r. reflexivity.
  - subst st. assert (Hj' : 0 <= j < NDIRECT) by (unfold NDIRECT in *; lia).
    rewrite seqZ_snoc, map_app, nonzero_app, flat_map_app, count_app by lia.
    cbn [map]. rewrite nonzero_single.
    destruct (Z.eqb_spec (addr nd j) 0) as [E|E]; cbn [negb].
    + cbn [flat_map]. rewrite count_nil. cbn. f_equal. lia.
    + cbn [flat_map]. rewrite app_nil_r.
      match goal with |- context [count_block img d ?a (u32 ?Y) ?p] =>
        pose proof (count_block_value d a Y p Hlen
                      (direct_block_in_image nd j Hdir Hj' E)) as Hc;
        destruct (count_block img d a (u32 Y) p) as [[[c|r] q]| | |];
        try contradiction
      end.
      subst c. f_equal. lia.
Qed.

(** Checks 11 and 12 count the directory entries, system-wide, that refer
    to the inode, in the [unsigned int] counter. *)
Lemma count_refs_value d pos :
  well_sized img sb -> dirs_in_image img sb = true ->
  match count_refs img sb d pos with
  | Ok (Next c, _) => c = u32 (refcount img sb d)
  | _ => False
  end.
Proof.
  intros Hws Hdirs. unfold count_refs.
  loop_inv
    (fun i c (p : Z) =>
       c = u32 (count (refers d)
                  (flat_map (fun n => dir_entries img (inode_at img sb n))
                     (List.filter (is_dir img sb) (seqZ 0 i)))))
    (fun r : Z => False).
  - subst st. unfold refcount, all_entries, directories.
    replace (0 + Z.of_nat (Z.to_nat (ninodes sb))) with (ninodes sb)
      by (destruct Hws as (_ & _ & _ & _ & _ & Hn & _); lia).
    reflexivity.
  - rewrite seqZ_nil by lia. reflexivity.
  - subst st. assert (Hj' : 0 <= j < ninodes sb) by lia.
    rewrite lseek_bind. rewrite (bind_ok _ _ _ _ _ (read_inode j Hws Hj')).
    rewrite seqZ_snoc, List.filter_app, flat_map_app, count_app by lia.
    cbn [List.filter]. 
    pose proof (dirs_in_image_at j Hdirs Hj') as Hd. unfold is_dir in *.
    destruct (type (inode_at img sb j) =? T_DIR).
    + cbn [flat_map]. rewrite app_nil_r.
      apply count_inode_value; [apply Hws|apply Hd; reflexivity].
    + cbn [flat_map]. rewrite count_nil, Z.add_0_r. reflexivity.
Qed.

Lemma refcount_nonneg d : 0 <= refcount img sb d.
Proof. apply count_nonneg. Qed.

Lemma check_11_value nd d :
  well_sized img sb -> dirs_in_image img sb = true ->
  refcount img sb d < 2 ^ 31 -> - 2 ^ 15 <= nlink nd < 2 ^ 15 ->
  yields (error_check_11 img sb nd d)
    (Ok (if refcount img sb d =? nlink nd then 0 else 1)).
Proof.
  intros Hws Hdirs Hc Hl pos. unfold error_check_11. rewrite eval_after.
  pose proof (count_refs_value d pos Hws Hdirs) as Hv.
  destruct (count_refs img sb d pos) as [[[c|r] p]| | |]; try contradiction.
  subst c. pose proof (refcount_nonneg d) as H0.
  rewrite (u32_small (refcount img sb d)) by lia.
  destruct (Z.eqb_spec (refcount img sb d) (nlink nd)) as [E|E].
  - rewrite <- E. rewrite (u32_small (refcount img sb d)) by lia.
    rewrite Z.eqb_refl. reflexivity.
  - destruct (Z.eqb_spec (refcount img sb d) (u32 (nlink nd))) as [E'|E'];
      [|reflexivity].
    exfalso. destruct (Z.le_gt_cases 0 (nlink nd)) as [Hp|Hn].
    + rewrite u32_small in E' by lia. contradiction.
    + unfold u32 in E'.
      replace (nlink nd) with (nlink nd + 2 ^ 32 + (-1) * 2 ^ 32) in E' by lia.
      rewrite Z.mod_add in E' by lia. rewrite Z.mod_small in E' by lia. lia.
Qed.

Lemma check_12_value nd d :
  well_sized img sb -> dirs_in_image img sb = true ->
  refcount img sb d < 2 ^ 32 ->
  yields (error_check_12 img sb nd d)
    (Ok (if refcount img sb d =? 1 then 0 else 1)).
Proof.
  intros Hws Hdirs Hc pos. unfold error_check_12. rewrite eval_after.
  pose proof (count_refs_value d pos Hws Hdirs) as Hv.
  destruct (count_refs img sb d pos) as [[[c|r] p]| | |]; try contradiction.
  subst c. pose proof (refcount_nonneg d) as H0.
  rewrite (u32_small (refcount img sb d)) by lia.
  destruct (Z.eqb_spec (refcount img sb d) 1); reflexivity.
Qed.

(** A check that answers 0 or 1 by a test answers each exactly when the test
    says so. *)
Lemma yields_by_test (m : IO Z) (b : bool) :
  yields m (Ok (if b then 0 else 1)) ->
  (yields m (Ok 0) <-> b = true) /\ (yields m (Ok 1) <-> b = false).
Proof.
  intros Hv. destruct b; (split; split; intros Hy); try assumption;
    try reflexivity.
  - pose proof (yields_inj _ _ _ Hv Hy) as Hc. inversion Hc.
  - discriminate Hy.
  - pose proof (yields_inj _ _ _ Hv Hy) as Hc. inversion Hc.
  - discriminate Hy.
Qed.

(** C8: for an inode of type File, check 11 passes exactly when the number of
    directory entries system-wide whose inum is the number of the inode,
    counted over every record of the direct and indirect data blocks of
    every directory inode, equals the stored link count; when the two
    differ the run ends with [bad reference count for file]. *)
Theorem link_count_check nd d :
  well_sized img sb -> dirs_in_image img sb = true ->
  refcount img sb d < 2 ^ 31 -> - 2 ^ 15 <= nlink nd < 2 ^ 15 ->
  (yields (error_check_11 img sb nd d) (Ok 0) <-> refcount img sb d = nlink nd)
  /\ (yields (error_check_11 img sb nd d) (Ok 1) <-> refcount img sb d <> nlink nd)
  /\ (forall fuel u u',
        loads img sb -> scanned_to img sb fuel d u ->
        nd = inode_at img sb d -> type nd = T_FILE ->
        address_checks_pass img sb nd u u' ->
        refcount img sb d <> nlink nd ->
        xcheck fuel 2 (Some img)
        = Exited 1 ("ERROR: bad reference count for file" ++ nl)).
Proof.
  intros Hws Hdirs Hc Hl.
  destruct (yields_by_test _ _ (check_11_value nd d Hws Hdirs Hc Hl)) as [H0 H1].
  rewrite Z.eqb_eq in H0. rewrite Z.eqb_neq in H1.
  split; [exact H0|]. split; [exact H1|].
  intros fuel u u' Hlo Hsc -> Hty Hpass Hne.
  apply (run_stops_at fuel d u); [assumption..|].
  apply scan_inode_loads; [exact Hws|apply Hsc|].
  apply (inode_checks_kind fuel d _ u u'); [exact Hpass| |].
  { rewrite Hty. apply T_FILE_used. }
  rewrite Hty, Z.eqb_refl.
  destruct (Z.eqb_spec T_FILE T_DIR) as [E|_];
    [symmetry in E; destruct (T_DIR_FILE E)|].
  apply yields_ret_bind. apply yields_bind_exited. unfold file_checks.
  eapply yields_bind; [apply H1, Hne|].
  apply yields_check_fail. discriminate.
Qed.

(** Check 12 answers 0 exactly when the number of directory entries
    system-wide whose inum is [d], summed over every record of the direct
    and indirect data blocks of every directory inode, is 1, and 1 exactly
    when it is not.  In a run that comes to check 12 at the directory [d],
    that is once checks 1, 2, 5, 7, 8 and 4 passed on it and check 9
    returned 0, a number other than 1 ends the run with
    [directory appears more than once in file system]. *)
Theorem entry_count_check nd d :
  well_sized img sb -> dirs_in_image img sb = true ->
  refcount img sb d < 2 ^ 32 ->
  (yields (error_check_12 img sb nd d) (Ok 0) <-> refcount img sb d = 1)
  /\ (yields (error_check_12 img sb nd d) (Ok 1) <-> refcount img sb d <> 1)
  /\ (forall fuel u u',
        loads img sb -> scanned_to img sb fuel d u ->
        nd = inode_at img sb d -> type nd = T_DIR -> d <> 1 ->
        address_checks_pass img sb nd u u' ->
        yields (error_check_4 img nd d) (Ok 0) ->
        yields (error_check_9 img sb fuel d) (Ok 0) ->
        refcount img sb d <> 1 ->
        xcheck fuel 2 (Some img)
        = Exited 1 ("ERROR: directory appears more than once in file system" ++ nl)).
Proof.
  intros Hws Hdirs Hc.
  destruct (yields_by_test _ _ (check_12_value nd d Hws Hdirs Hc)) as [H0 H1].
  rewrite Z.eqb_eq in H0. rewrite Z.eqb_neq in H1.
  split; [exact H0|]. split; [exact H1|].
  intros fuel u u' Hlo Hsc -> Hty Hd1 Hpass H4 H9 Hne.
  apply (run_stops_at fuel d u); [assumption..|].
  apply scan_inode_loads; [exact Hws|apply Hsc|].
  apply (inode_checks_kind fuel d _ u u'); [exact Hpass| |].
  { rewrite Hty. apply T_DIR_used. }
  rewrite Hty, Z.eqb_refl.
  apply yields_bind_exited. unfold directory_checks.
  eapply yields_bind; [exact H4|]. apply yields_check_pass.
  destruct (Z.eqb_spec d 1) as [?|_]; [contradiction|]. cbn [negb].
  apply yields_bind_exited.
  eapply yields_bind; [exact H9|]. apply yields_check_pass.
  eapply yields_bind; [apply H1, Hne|].
  apply yields_check_fail. discriminate.
Qed.


(** ** Checks 7 and 8 in the scan *)

(** Check 8 keeps the marks that were there. *)
Lemma check_8_frame nd u r u' pos pos' :
  error_check_8 img nd u pos = Ok ((r, u'), pos') ->
  length u' = length u /\ (forall b, marked u b -> marked u' b).
Proof.
  unfold error_check_8.
  destruct (addr nd NDIRECT !=? 0).
  2:{ intros E. inversion E. subst. split; [reflexivity|auto]. }
  unfold bind at 1.
  loop_inv_partial
    (fun (i : Z) s (p : Z) =>
       length s = length u /\ (forall b, marked u b -> marked s b))
    (fun r : Z * list Z =>
       length (snd r) = length u /\ (forall b, marked u b -> marked (snd r) b)).
  - intros E. inversion E. subst. exact HL.
  - intros E. inversion E. subst. exact HL.
  - discriminate.
  - discriminate.
  - discriminate.
  - split; [reflexivity|auto].
  - destruct HI as (Hl & Hm). rewrite lseek_bind. unfold bind at 1.
    destruct (read_uint img _) as [[a q]| | |]; try exact Logic.I.
    destruct (a !=? 0); [|cbn; split; assumption].
    destruct (st !! Z.to_nat a) as [v|] eqn:Ev; [|exact Logic.I].
    destruct (v =? 1); cbn; [split; assumption|].
    rewrite length_insert. split; [exact Hl|].
    intros b Hb. apply marked_insert, Hm, Hb.
Qed.

Lemma check_ok_inv {B} c msg (k : unit -> IO B) pos b :
  eval (bind (check c msg) k) pos = Ok b -> c = 0 /\ eval (k tt) pos = Ok b.
Proof.
  intros E. unfold check in E. destruct (Z.eqb_spec c 0) as [->|Hne]; cbn [negb] in E.
  - split; [reflexivity|exact E].
  - discriminate E.
Qed.

(** An inode whose checks all pass: a free inode leaves [in_use] alone, an
    inode in use goes through checks 7 and 8. *)
Lemma inode_checks_inv fuel n nd u u' pos :
  eval (inode_checks img sb fuel n nd u) pos = Ok u' ->
  (type nd = 0 /\ u' = u)
  \/ (type nd <> 0
      /\ exists u1 p1 p1' r8 p2 p2',
           error_check_7 nd u p1 = Ok ((0, u1), p1')
           /\ error_check_8 img nd u1 p2 = Ok ((r8, u'), p2')).
Proof.
  unfold inode_checks. intros E.
  apply check_ok_inv in E. destruct E as [_ E].
  destruct (Z.eqb_spec (type nd) 0) as [Hty|Hty]; cbn [negb] in E.
  - left. inversion E. split; [assumption|reflexivity].
  - right. split; [exact Hty|].
    apply eval_bind_inv in E. destruct E as (r2 & q2 & _ & E).
    apply check_ok_inv in E. destruct E as [_ E].
    apply eval_bind_inv in E. destruct E as (r5 & q5 & _ & E).
    apply check_ok_inv in E. destruct E as [_ E].
    apply eval_bind_inv in E. destruct E as ([r7 u1] & q7 & E7 & E).
    apply check_ok_inv in E. destruct E as [-> E].
    apply eval_bind_inv in E. destruct E as ([r8 u2] & q8 & E8 & E).
    apply check_ok_inv in E. destruct E as [_ E].
    apply eval_bind_inv in E. destruct E as (? & qd & _ & E).
    apply eval_bind_inv in E. destruct E as (? & qf & _ & E).
    inversion E. subst u2.
    exists u1, q5, q7, r8, q7, q8. split; assumption.
Qed.

(** The marks of a scan only grow, and every inode in use that the scan
    passes leaves its direct and indirect pointers marked. *)
Lemma scan_inodes_marks fuel n : forall first u u' pos,
  well_sized img sb -> 0 <= first -> first + Z.of_nat n <= ninodes sb ->
  eval (scan_inodes img sb fuel n first u) pos = Ok u' ->
  length u' = length u
  /\ (forall b, marked u b -> marked u' b)
  /\ (forall i j, first <= i < first + Z.of_nat n ->
        type (inode_at img sb i) <> 0 -> 0 <= j <= NDIRECT ->
        addr (inode_at img sb i) j <> 0 ->
        marked u' (addr (inode_at img sb i) j)).
Proof.
  induction n as [|n IH]; intros first u u' pos Hws Hf Hn E.
  - inversion E. subst. split; [reflexivity|]. split; [auto|]. intros i j Hi. lia.
  - cbn [scan_inodes] in E.
    apply eval_bind_inv in E. destruct E as (u1 & p1 & E1 & E).
    apply IH in E; [|assumption|lia|lia]. destruct E as (Hl & Hm & Hmk).
    assert (E1' : eval (inode_checks img sb fuel first (inode_at img sb first) u)
                    (inodestart sb * BSIZE + first * sizeof_dinode + sizeof_dinode)
                  = Ok u1).
    { unfold scan_inode in E1. rewrite lseek_bind in E1.
      replace (sizeof_dinode * first) with (first * sizeof_dinode) in E1 by lia.
      rewrite (bind_ok _ _ _ _ _ (read_inode first Hws ltac:(lia))) in E1.
      unfold eval. rewrite E1. reflexivity. }
    apply inode_checks_inv in E1'.
    destruct E1' as [[Hty ->]|(Hty & w & q1 & q1' & r8 & q2 & q2' & E7 & E8)].
    + split; [exact Hl|]. split; [exact Hm|].
      intros i j Hi Hti Hj Hnz. apply Hmk; try assumption.
      destruct (Z.eq_dec i first) as [->|?]; [contradiction|lia].
    + apply check_7_marks in E7. destruct E7 as (Hl7 & Hm7 & Hn7).
      apply check_8_frame in E8. destruct E8 as (Hl8 & Hm8).
      split; [congruence|]. split; [auto|].
      intros i j Hi Hti Hj Hnz.
      destruct (Z.eq_dec i first) as [->|?].
      * apply Hm, Hm8, Hn7; assumption.
      * apply Hmk; try assumption. lia.
Qed.

(** When check 2 passes, the pointers of the inode index the array
    [in_use]. *)
Lemma checked_addrs_index nd (u : list Z) :
  well_sized img sb -> yields (error_check_2 img sb nd) (Ok 0) ->
  length u = Z.to_nat (size sb) ->
  forall i, 0 <= i <= NDIRECT -> addr nd i <> 0 ->
            (Z.to_nat (addr nd i) < length u)%nat.
Proof.
  intros Hws H2 Hl i Hi Hnz.
  destruct (check_2_cases nd 0 Hws) as [[E _]|[_ Hok]].
  { rewrite (H2 0) in E. discriminate E. }
  destruct (ok_addr_dec (addr nd i)) as [[?|[Hlo Hhi]]|Hbad]; [contradiction| |].
  - pose proof (bitmap_end_nonneg Hws). rewrite Hl. lia.
  - exfalso. apply Hok. exists (addr nd i). split; [apply in_inode_addrs, Hi|].
    apply not_ok_addr, Hbad.
Qed.

(** C6: two distinct inodes in use, numbers [i1 < i2], that list the same
    non-zero block [b] among their direct pointers and indirect pointer.
    When the run comes to inode [i2] and checks 1, 2 and 5 pass there,
    [in_use] already holds the mark that check 7 left for [b] at inode [i1];
    check 7 answers 1 at inode [i2] and the run ends with
    [direct address used more than once]. *)
Theorem shared_block_check fuel i1 i2 j1 j2 b u :
  well_sized img sb -> loads img sb -> scanned_to img sb fuel i2 u ->
  0 <= i1 < i2 ->
  type (inode_at img sb i1) <> 0 -> type (inode_at img sb i2) <> 0 ->
  0 <= j1 <= NDIRECT -> 0 <= j2 <= NDIRECT ->
  addr (inode_at img sb i1) j1 = b -> addr (inode_at img sb i2) j2 = b ->
  b <> 0 ->
  error_check_1 (inode_at img sb i2) = 0 ->
  yields (error_check_2 img sb (inode_at img sb i2)) (Ok 0) ->
  yields (error_check_5 img sb (inode_at img sb i2)) (Ok 0) ->
  marked u b
  /\ (forall pos, exists u',
        eval (error_check_7 (inode_at img sb i2) u) pos = Ok (1, u'))
  /\ yields (scan_inode img sb fuel i2 u)
       (Exited 1 ("ERROR: direct address used more than once" ++ nl))
  /\ xcheck fuel 2 (Some img)
     = Exited 1 ("ERROR: direct address used more than once" ++ nl).
Proof.
  intros Hws Hlo Hsc Hi Ht1 Ht2 Hj1 Hj2 Ha1 Ha2 Hb H1 H2 H5.
  pose proof Hsc as (_ & Hn & Hscan).
  destruct (scan_inodes_marks fuel (Z.to_nat i2) 0 (in_use_0 sb) u 0 Hws
              ltac:(lia) ltac:(lia) (Hscan 0)) as (Hl & _ & Hmk).
  assert (Hm : marked u b).
  { rewrite <- Ha1. apply Hmk; try assumption; [lia|congruence]. }
  assert (Hlen : length u = Z.to_nat (size sb)).
  { rewrite Hl. unfold in_use_0. apply length_replicate. }
  pose proof (checked_addrs_index _ u Hws H2 Hlen) as Hidx.
  assert (H7 : forall pos, exists u',
             eval (error_check_7 (inode_at img sb i2) u) pos = Ok (1, u')).
  { intros pos. apply (check_7_hits _ u b j2); assumption. }
  assert (Hstop : yields (scan_inode img sb fuel i2 u)
                    (Exited 1 ("ERROR: direct address used more than once" ++ nl))).
  { apply scan_inode_loads; [exact Hws|exact Hn|].
    unfold inode_checks. rewrite H1. apply yields_check_pass.
    destruct (Z.eqb_spec (type (inode_at img sb i2)) 0) as [?|_]; [contradiction|].
    cbn [negb]. eapply yields_bind; [exact H2|]. apply yields_check_pass.
    eapply yields_bind; [exact H5|]. apply yields_check_pass.
    intros pos. destruct (H7 pos) as [u' E7].
    destruct (eval_ok_inv _ _ _ E7) as [pos' E7'].
    rewrite (eval_bind_ok _ _ _ _ _ E7'). cbv beta iota.
    apply eval_bind_exited. unfold eval. rewrite check_stop by discriminate.
    reflexivity. }
  split; [exact Hm|]. split; [exact H7|]. split; [exact Hstop|].
  apply (run_stops_at fuel i2 u); assumption.
Qed.


(** ** Check 9: the search for a parent *)

(** The direct-block loop of check 9 never moves off the first pointer: it
    returns 0 on its first pass or not at all. *)
Lemma check_9_direct_inv fuel d tmp : forall i pos c pos',
  img_len img <= 2 ^ 32 -> direct_in_image img tmp = true ->
  check_9_direct img fuel d tmp i 0 pos = Ok (c, pos') ->
  c = Return 0 /\ addr tmp 0 <> 0 /\ inum (block_dirent img (addr tmp 0) 0) = d.
Proof.
  induction fuel as [|fuel IH]; intros i pos c pos' Hlen Hdir E; [discriminate E|].
  cbn [check_9_direct] in E. change (0 <? NDIRECT) with true in E. cbv iota in E.
  destruct (Z.eqb_spec (addr tmp 0) 0) as [E0|E0]; cbn [negb] in E.
  - unfold bind, ret in E. eapply IH; eassumption.
  - pose proof (direct_block_in_image tmp 0 Hdir ltac:(unfold NDIRECT; lia) E0) as Hb.
    destruct (block_in_image_facts _ Hlen Hb) as (Ha0 & Ha1 & Hu).
    unfold bind at 1 in E. rewrite lseek_bind, Hu in E.
    unfold bind at 1 in E. unfold read_dirent, bind, read in E.
    destruct ((0 <=? addr tmp 0 * BSIZE)
              && (addr tmp 0 * BSIZE + sizeof_dirent <=? img_len img)) eqn:Er;
      [|discriminate E].
    unfold ret in E.
    assert (Hd : load_dirent (peek img (addr tmp 0 * BSIZE) sizeof_dirent)
                 = block_dirent img (addr tmp 0) 0).
    { unfold block_dirent. do 2 f_equal. lia. }
    rewrite Hd in E.
    destruct (Z.eqb_spec (inum (block_dirent img (addr tmp 0) 0)) d) as [Em|Em].
    + inversion E. auto.
    + eapply IH; eassumption.
Qed.

(** The direct-block loop spins when the first record of the first block
    does not refer to the inode, or there is no first block. *)
Lemma check_9_direct_spins d tmp : forall fuel i pos,
  img_len img <= 2 ^ 32 -> direct_in_image img tmp = true ->
  sizeof_dirent <= BSIZE ->
  addr tmp 0 = 0 \/ inum (block_dirent img (addr tmp 0) 0) <> d ->
  check_9_direct img fuel d tmp i 0 pos = OutOfFuel.
Proof.
  induction fuel as [|fuel IH]; intros i pos Hlen Hdir Hsz Hno; [reflexivity|].
  cbn [check_9_direct]. change (0 <? NDIRECT) with true. cbv iota.
  destruct (Z.eqb_spec (addr tmp 0) 0) as [E0|E0]; cbn [negb].
  - unfold bind, ret. apply IH; assumption.
  - destruct Hno as [?|Hno]; [contradiction|].
    pose proof (direct_block_in_image tmp 0 Hdir ltac:(unfold NDIRECT; lia) E0) as Hb.
    destruct (block_in_image_facts _ Hlen Hb) as (Ha0 & Ha1 & Hu).
    pose proof BSIZE_min.
    unfold bind at 1. rewrite lseek_bind, Hu.
    unfold bind at 1. rewrite read_dirent_ok by nia.
    replace (peek img (addr tmp 0 * BSIZE) sizeof_dirent)
      with (peek img (addr tmp 0 * BSIZE + 0 * sizeof_dirent) sizeof_dirent)
      by (f_equal; lia).
    fold (block_dirent img (addr tmp 0) 0).
    destruct (Z.eqb_spec (inum (block_dirent img (addr tmp 0) 0)) d) as [Em|Em];
      [contradiction|].
    unfold ret. apply IH; [assumption..|right; exact Hno].
Qed.

Lemma inode_index_fits i :
  well_sized img sb -> 0 <= i < ninodes sb -> u32 (i + 1) = i + 1.
Proof.
  intros (_ & _ & _ & _ & _ & Hn2 & _) Hn.
  apply u32_small. lia.
Qed.

(** When check 9 finds the inode, the first candidate directory after [i]
    names it in the first record of its first direct block. *)
Lemma check_9_scan_found d : forall fuel i pos,
  well_sized img sb -> dirs_in_image img sb = true -> 0 <= i ->
  eval (check_9_scan img sb fuel d i) pos = Ok 0 ->
  exists p, i <= p < ninodes sb /\ candidate img sb d p = true
    /\ (forall q, i <= q < p -> candidate img sb d q = false)
    /\ addr (inode_at img sb p) 0 <> 0
    /\ inum (block_dirent img (addr (inode_at img sb p) 0) 0) = d.
Proof.
  induction fuel as [|fuel IH]; intros i pos Hws Hdirs Hi E; [discriminate E|].
  cbn [check_9_scan] in E.
  destruct (Z.ltb_spec i (ninodes sb)) as [Hlt|Hge]; [|discriminate E].
  rewrite eval_lseek in E.
  rewrite (eval_bind_ok _ _ _ _ _ (read_inode i Hws ltac:(lia))) in E.
  rewrite eval_after in E.
  change ((type (inode_at img sb i) =? T_DIR) && (d !=? i) && (i !=? 1))
    with (candidate img sb d i) in E.
  destruct (candidate img sb d i) eqn:Ec.
  - unfold bind at 1 in E.
    destruct (check_9_direct img fuel d (inode_at img sb i) i 0 _)
      as [[c q]| | |] eqn:Ed; try discriminate E.
    assert (Hdir : is_dir img sb i = true).
    { unfold candidate in Ec. apply andb_true_iff in Ec. destruct Ec as [Ec _].
      apply andb_true_iff in Ec. apply Ec. }
    pose proof (dirs_in_image_at i Hdirs ltac:(lia) Hdir) as Hin.
    apply dir_in_image_facts in Hin. destruct Hin as [Hin _].
    apply check_9_direct_inv in Ed; [|apply Hws|exact Hin].
    destruct Ed as (-> & Hnz & Hm).
    exists i. split; [lia|]. split; [exact Ec|]. split; [intros q' Hq; lia|].
    split; assumption.
  - unfold ret in E. rewrite (inode_index_fits i Hws ltac:(lia)) in E.
    apply IH in E; [|assumption|assumption|lia].
    destruct E as (p & Hp & Hc & Hfirst & Hrest).
    exists p. split; [lia|]. split; [exact Hc|]. split; [|exact Hrest].
    intros q Hq. destruct (Z.eq_dec q i) as [->|?]; [exact Ec|apply Hfirst; lia].
Qed.

(** Check 9 spins at the first candidate directory whose first record does
    not refer to the inode. *)
Lemma check_9_scan_spins d p : forall fuel i pos,
  well_sized img sb -> dirs_in_image img sb = true -> sizeof_dirent <= BSIZE ->
  0 <= i <= p -> p < ninodes sb -> candidate img sb d p = true ->
  (forall q, i <= q < p -> candidate img sb d q = false) ->
  addr (inode_at img sb p) 0 = 0
  \/ inum (block_dirent img (addr (inode_at img sb p) 0) 0) <> d ->
  eval (check_9_scan img sb fuel d i) pos = OutOfFuel.
Proof.
  induction fuel as [|fuel IH]; intros i pos Hws Hdirs Hsz Hi Hp Hc Hfirst Hno;
    [reflexivity|].
  cbn [check_9_scan].
  destruct (Z.ltb_spec i (ninodes sb)) as [Hlt|Hge]; [|lia].
  rewrite eval_lseek.
  rewrite (eval_bind_ok _ _ _ _ _ (read_inode i Hws ltac:(lia))).
  rewrite eval_after.
  change ((type (inode_at img sb i) =? T_DIR) && (d !=? i) && (i !=? 1))
    with (candidate img sb d i).
  destruct (Z.eq_dec i p) as [->|Hne].
  - rewrite Hc. unfold bind at 1.
    assert (Hdir : is_dir img sb p = true).
    { unfold candidate in Hc. apply andb_true_iff in Hc. destruct Hc as [Hc _].
      apply andb_true_iff in Hc. apply Hc. }
    pose proof (dirs_in_image_at p Hdirs ltac:(lia) Hdir) as Hin.
    apply dir_in_image_facts in Hin. destruct Hin as [Hin _].
    rewrite check_9_direct_spins; [reflexivity|apply Hws|assumption..].
  - rewrite (Hfirst i ltac:(lia)). unfold ret.
    rewrite (inode_index_fits i Hws ltac:(lia)).
    apply IH; try assumption; [lia|]. intros q Hq. apply Hfirst. lia.
Qed.

(** With no candidate directory left, check 9 answers 1. *)
Lemma check_9_scan_none d : forall fuel i pos,
  well_sized img sb -> 0 <= i ->
  (Z.to_nat (ninodes sb - i) < fuel)%nat ->
  (forall q, i <= q < ninodes sb -> candidate img sb d q = false) ->
  eval (check_9_scan img sb fuel d i) pos = Ok 1.
Proof.
  induction fuel as [|fuel IH]; intros i pos Hws Hi Hfuel Hnone; [lia|].
  cbn [check_9_scan].
  destruct (Z.ltb_spec i (ninodes sb)) as [Hlt|Hge]; [|reflexivity].
  rewrite eval_lseek.
  rewrite (eval_bind_ok _ _ _ _ _ (read_inode i Hws ltac:(lia))).
  rewrite eval_after.
  change ((type (inode_at img sb i) =? T_DIR) && (d !=? i) && (i !=? 1))
    with (candidate img sb d i).
  rewrite (Hnone i ltac:(lia)). unfold ret.
  rewrite (inode_index_fits i Hws ltac:(lia)).
  apply IH; [assumption|lia|lia|]. intros q Hq. apply Hnone. lia.
Qed.

(** One pass of the direct-block loop returns 0, stops on a failed read, or
    goes on with the counter [i] of the outer loop advanced and its own
    counter [j] where it was. *)
Lemma check_9_direct_step fuel d tmp i j pos :
  j < NDIRECT ->
  (exists q, check_9_direct img (Datatypes.S fuel) d tmp i j pos
             = check_9_direct img fuel d tmp (u32 (i + 1)) j q)
  \/ (exists q, check_9_direct img (Datatypes.S fuel) d tmp i j pos
                = Ok (Return 0, q))
  \/ check_9_direct img (Datatypes.S fuel) d tmp i j pos = Fault.
Proof.
  intros Hj. cbn [check_9_direct].
  destruct (Z.ltb_spec j NDIRECT) as [_|?]; [|lia].
  destruct (addr tmp j !=? 0).
  - unfold bind, lseek, read_dirent, bind, read, ret.
    destruct ((0 <=? u32 (addr tmp j * BSIZE))
              && (u32 (addr tmp j * BSIZE) + sizeof_dirent <=? img_len img)).
    + destruct (inum (load_dirent (peek img (u32 (addr tmp j * BSIZE)) sizeof_dirent))
                =? d).
      * right. left. eexists. reflexivity.
      * left. eexists. reflexivity.
    + right. right. reflexivity.
  - left. exists pos. reflexivity.
Qed.

(** C3: check 9 reports the directory inode [d] as found only when [d] is
    the inum of the first record of a referenced data block of a candidate
    parent directory (a directory other than [d] and the root): the records
    after the first of a block are never read.  The block is the first direct
    block of the first candidate: a pass of the direct-block loop advances
    the counter of the loop over the inodes and not its own, so the
    candidates after the first are never examined. *)
Theorem reachability_first_record fuel d pos :
  well_sized img sb -> dirs_in_image img sb = true ->
  eval (error_check_9 img sb fuel d) pos = Ok 0 ->
  (exists p a,
     0 <= p < ninodes sb /\ is_dir img sb p = true /\ p <> d /\ p <> 1
     /\ In a (nonzero (direct_addrs (inode_at img sb p)))
     /\ inum (block_dirent img a 0) = d
     /\ a = addr (inode_at img sb p) 0
     /\ forall q, 0 <= q < p -> candidate img sb d q = false)
  /\ (forall fuel' tmp i j pos', j < NDIRECT ->
        (exists q, check_9_direct img (Datatypes.S fuel') d tmp i j pos'
                   = check_9_direct img fuel' d tmp (u32 (i + 1)) j q)
        \/ (exists q, check_9_direct img (Datatypes.S fuel') d tmp i j pos'
                      = Ok (Return 0, q))
        \/ check_9_direct img (Datatypes.S fuel') d tmp i j pos' = Fault).
Proof.
  intros Hws Hdirs E. split; [|intros; apply check_9_direct_step; assumption].
  apply check_9_scan_found in E; [|assumption|assumption|lia].
  destruct E as (p & Hp & Hc & Hfirst & Hnz & Hm).
  unfold candidate in Hc. apply andb_true_iff in Hc. destruct Hc as [Hc H1].
  apply andb_true_iff in Hc. destruct Hc as [Hdir Hd].
  apply negb_true_iff, Z.eqb_neq in H1, Hd.
  exists p, (addr (inode_at img sb p) 0).
  split; [exact Hp|]. split; [exact Hdir|]. split; [congruence|].
  split; [exact H1|]. split.
  { unfold nonzero. apply filter_In. split.
    - apply in_direct_addrs. unfold NDIRECT. lia.
    - apply negb_true_iff, Z.eqb_neq. exact Hnz. }
  split; [exact Hm|]. split; [reflexivity|exact Hfirst].
Qed.

Lemma yields_bind_out_of_fuel {A B} (m : IO A) (k : A -> IO B) :
  yields m OutOfFuel -> yields (bind m k) OutOfFuel.
Proof. intros Hm pos. apply eval_bind_out_of_fuel, Hm. Qed.

(** A run that comes to inode [n] never answers if the loop body does not
    answer there. *)
Lemma run_spins_at fuel n u :
  loads img sb -> scanned_to img sb fuel n u ->
  yields (scan_inode img sb fuel n u) OutOfFuel ->
  xcheck fuel 2 (Some img) = OutOfFuel.
Proof.
  intros [Hlen Hsb] (H3 & Hn & Hscan) Hstop.
  unfold xcheck, main. cbn [Z.eqb Pos.eqb negb].
  rewrite eval_lseek. pose proof BSIZE_min as HB.
  assert (Hr : read_superblock img (BSIZE * 1)
               = Ok (sb, BSIZE * 1 + sizeof_superblock)).
  { rewrite read_superblock_ok by lia.
    replace (BSIZE * 1) with BSIZE by lia. rewrite <- Hsb. reflexivity. }
  rewrite (eval_bind_ok _ _ _ _ _ Hr).
  eapply eval_bind_yields; [apply H3|].
  rewrite check_pass. apply yields_ret_bind.
  intros pos. apply eval_bind_out_of_fuel.
  replace (Z.to_nat (ninodes sb))
    with (Z.to_nat n + Datatypes.S (Z.to_nat (ninodes sb - n - 1)))%nat by lia.
  unfold eval. rewrite scan_inodes_app.
  change (eval (u' <- scan_inodes img sb fuel (Z.to_nat n) 0 (replicate (Z.to_nat (size sb)) 0) ;;
                scan_inodes img sb fuel (Datatypes.S (Z.to_nat (ninodes sb - n - 1)))
                  (0 + Z.of_nat (Z.to_nat n)) u') pos = OutOfFuel).
  eapply eval_bind_yields; [apply Hscan|].
  cbn [scan_inodes]. intros pos'. apply eval_bind_out_of_fuel.
  replace (0 + Z.of_nat (Z.to_nat n)) with n by lia. apply Hstop.
Qed.

(** At a directory inode other than the root whose checks 1, 2, 5, 7, 8 and
    4 pass, the run never answers if check 9 does not. *)
Lemma run_spins_in_check_9 fuel d u u' :
  well_sized img sb -> loads img sb -> scanned_to img sb fuel d u ->
  type (inode_at img sb d) = T_DIR -> d <> 1 ->
  address_checks_pass img sb (inode_at img sb d) u u' ->
  yields (error_check_4 img (inode_at img sb d) d) (Ok 0) ->
  yields (error_check_9 img sb fuel d) OutOfFuel ->
  xcheck fuel 2 (Some img) = OutOfFuel.
Proof.
  intros Hws Hlo Hsc Hty Hd1 Hpass H4 H9.
  apply (run_spins_at fuel d u); [assumption..|].
  apply scan_inode_loads; [exact Hws|apply Hsc|].
  apply (inode_checks_kind fuel d _ u u'); [exact Hpass| |].
  { rewrite Hty. apply T_DIR_used. }
  rewrite Hty, Z.eqb_refl.
  apply yields_bind_out_of_fuel. unfold directory_checks.
  eapply yields_bind; [exact H4|]. apply yields_check_pass.
  destruct (Z.eqb_spec d 1) as [?|_]; [contradiction|]. cbn [negb].
  apply yields_bind_out_of_fuel. apply yields_bind_out_of_fuel. exact H9.
Qed.

(** With no directory but the root and [d] in the inode table, check 9
    answers 1 for [d] whatever the root holds, and the run ends with
    [inode marked use but not found in a directory]. *)
Lemma lone_directory_reported fuel d u u' :
  well_sized img sb -> loads img sb -> scanned_to img sb fuel d u ->
  type (inode_at img sb d) = T_DIR -> d <> 1 ->
  address_checks_pass img sb (inode_at img sb d) u u' ->
  yields (error_check_4 img (inode_at img sb d) d) (Ok 0) ->
  (forall q, 0 <= q < ninodes sb -> candidate img sb d q = false) ->
  (Z.to_nat (ninodes sb) < fuel)%nat ->
  yields (error_check_9 img sb fuel d) (Ok 1)
  /\ xcheck fuel 2 (Some img)
     = Exited 1 ("ERROR: inode marked use but not found in a directory" ++ nl).
Proof.
  intros Hws Hlo Hsc Hty Hd1 Hpass H4 Hnone Hfuel.
  assert (H9 : yields (error_check_9 img sb fuel d) (Ok 1)).
  { intros pos. unfold error_check_9.
    apply check_9_scan_none; [assumption|lia| |assumption].
    replace (ninodes sb - 0) with (ninodes sb) by lia. exact Hfuel. }
  split; [exact H9|].
  apply (run_stops_at fuel d u); [assumption..|].
  apply scan_inode_loads; [exact Hws|apply Hsc|].
  apply (inode_checks_kind fuel d _ u u'); [exact Hpass| |].
  { rewrite Hty. apply T_DIR_used. }
  rewrite Hty, Z.eqb_refl.
  apply yields_bind_exited. unfold directory_checks.
  eapply yields_bind; [exact H4|]. apply yields_check_pass.
  destruct (Z.eqb_spec d 1) as [?|_]; [contradiction|]. cbn [negb].
  apply yields_bind_exited.
  eapply yields_bind; [exact H9|].
  apply yields_check_stop. discriminate.
Qed.

(** ** Check 6: what the sweep compares *)

(** The test [(bits >> offset) % 2 != 0] reads bit [offset] of the byte. *)
Lemma shifted_bit b o :
  0 <= o -> (Z.shiftr b o mod 2 !=? 0) = Z.testbit b o.
Proof.
  intros Ho. rewrite <- Z.bit0_mod. rewrite Z.shiftr_spec by lia.
  replace (0 + o) with o by lia. destruct (Z.testbit b o); reflexivity.
Qed.

(** Reading one byte inside the image. *)
Lemma read_uchar_ok pos :
  0 <= pos -> pos + 1 <= img_len img ->
  read_uchar img pos = Ok (byte_val (img_byte img pos), pos + 1).
Proof.
  intros H0 H1. unfold read_uchar, bind, sizeof_uchar.
  rewrite read_ok by assumption. unfold ret, peek.
  change (seqZ 0 1) with [0]. cbn [map le_val].
  replace (pos + 0) with pos by lia. do 2 f_equal. lia.
Qed.

(** The sweep over an array [u] in which every set bit it reads has an
    entry, on an image that holds the bytes it reads. *)
Section Sweep.
Variable u : list Z.
Hypothesis Hb : 0 <= bmapstart sb /\ bmapstart sb + 1 <= size sb.
Hypothesis Hsize : size sb + 8 <= 2 ^ 32.
Hypothesis Hstart : 0 <= sweep_start sb < 2 ^ 32.
Hypothesis Hread : sweep_start sb + sweep_bytes sb <= img_len img.
Hypothesis Hidx : forall k,
  0 <= k < 8 * sweep_bytes sb -> swept_bit img sb k = true ->
  (Z.to_nat (bmapstart sb + 1 + k) < length u)%nat.

(** The sweep's outer loop runs [sweep_bytes] times. *)
Lemma sweep_bytes_spec m :
  0 <= m -> (bmapstart sb + 1 + 8 * m < size sb <-> m < sweep_bytes sb).
Proof.
  intros Hm. unfold sweep_bytes.
  set (x := size sb - (bmapstart sb + 1)).
  pose proof (Z.div_mod (x + 7) 8 ltac:(lia)) as Hdm.
  pose proof (Z.mod_pos_bound (x + 7) 8 ltac:(lia)) as Hmb.
  subst x. lia.
Qed.

(** From its [m]-th byte on, with no violation among the bits before, the
    sweep answers 1 at a violation and 0 when there is none. *)
Lemma check_6_sweep_cases : forall fuel m pos,
  0 <= m <= sweep_bytes sb -> (Z.to_nat (sweep_bytes sb - m) < fuel)%nat ->
  pos = sweep_start sb + m ->
  (forall k, 0 <= k < 8 * m -> ~ sweep_violation img sb u k) ->
  (eval (check_6_sweep img sb fuel u (bmapstart sb + 1 + 8 * m)
           (bmapstart sb + 1 + 8 * m)) pos = Ok 1
   /\ exists k, 0 <= k < 8 * sweep_bytes sb /\ sweep_violation img sb u k)
  \/ (eval (check_6_sweep img sb fuel u (bmapstart sb + 1 + 8 * m)
              (bmapstart sb + 1 + 8 * m)) pos = Ok 0
      /\ forall k, 0 <= k < 8 * sweep_bytes sb -> ~ sweep_violation img sb u k).
Proof.
  induction fuel as [|fuel IH]; intros m pos Hm Hfuel -> Hnone; [lia|].
  cbn [check_6_sweep].
  destruct (Z.ltb_spec (bmapstart sb + 1 + 8 * m) (size sb)) as [Hlt|Hge].
  2:{ right. split; [reflexivity|]. intros k Hk. apply Hnone.
      assert (~ m < sweep_bytes sb) by (rewrite <- sweep_bytes_spec by lia; lia).
      lia. }
  assert (Hm' : m < sweep_bytes sb) by (apply sweep_bytes_spec; lia).
  assert (Hp0 : 0 <= sweep_start sb + m) by lia.
  assert (Hp1 : sweep_start sb + m + 1 <= img_len img) by lia.
  rewrite (eval_bind_ok _ _ _ _ _ (read_uchar_ok _ Hp0 Hp1)).
  rewrite eval_after.
  set (bits := byte_val (img_byte img (sweep_start sb + m))).
  loop_inv
    (fun o cnt (p : Z) =>
       p = sweep_start sb + m + 1 /\ cnt = bmapstart sb + 1 + 8 * m + o
       /\ forall k, 0 <= k < 8 * m + o -> ~ sweep_violation img sb u k)
    (fun r => r = 1
              /\ exists k, 0 <= k < 8 * sweep_bytes sb /\ sweep_violation img sb u k).
  - destruct HL as (-> & -> & Hnone').
    replace (u32 (bmapstart sb + 1 + 8 * m + 8)) with (bmapstart sb + 1 + 8 * (m + 1))
      by (rewrite u32_small by lia; lia).
    replace (bmapstart sb + 1 + 8 * m + (0 + Z.of_nat 8))
      with (bmapstart sb + 1 + 8 * (m + 1)) by lia.
    apply IH; [lia|lia|lia|].
    intros k Hk. apply Hnone'. lia.
  - left. destruct HL as [-> HL]. split; [reflexivity|exact HL].
  - split; [reflexivity|]. split; [lia|]. intros k Hk. apply Hnone. lia.
  - destruct HI as (-> & -> & Hnone').
    assert (Hj' : 0 <= j < 8) by lia.
    assert (Hk8 : (8 * m + j) / 8 = m /\ (8 * m + j) mod 8 = j).
    { split.
      - rewrite Z.add_comm, Z.mul_comm, Z.div_add by lia.
        rewrite Z.div_small by lia. lia.
      - rewrite Z.add_comm, Z.mul_comm, Z.mod_add by lia.
        apply Z.mod_small. lia. }
    destruct Hk8 as [Hq Hr].
    assert (Hbit : (Z.shiftr bits j mod 2 !=? 0) = swept_bit img sb (8 * m + j)).
    { rewrite shifted_bit by lia. unfold swept_bit. rewrite Hq, Hr. reflexivity. }
    rewrite Hbit.
    assert (Hnext : u32 (bmapstart sb + 1 + 8 * m + j + 1)
                    = bmapstart sb + 1 + 8 * m + (j + 1)).
    { rewrite u32_small by lia. lia. }
    assert (Hext : forall v : Prop, (~ sweep_violation img sb u (8 * m + j)) ->
              forall k, 0 <= k < 8 * m + (j + 1) -> ~ sweep_violation img sb u k).
    { intros _ Hv k Hk. destruct (Z.eq_dec k (8 * m + j)) as [->|?];
        [exact Hv|apply Hnone'; lia]. }
    destruct (swept_bit img sb (8 * m + j)) eqn:Es.
    + pose proof (Hidx (8 * m + j) ltac:(lia) Es) as Hlt'.
      replace (bmapstart sb + 1 + (8 * m + j)) with (bmapstart sb + 1 + 8 * m + j)
        in Hlt' by lia.
      destruct (lookup_lt_is_Some_2 u _ Hlt') as [v Ev]. rewrite Ev.
      destruct (Z.eqb_spec v 0) as [->|Hv].
      * cbn. split; [reflexivity|]. exists (8 * m + j). split; [lia|].
        split; [exact Es|].
        replace (bmapstart sb + 1 + (8 * m + j)) with (bmapstart sb + 1 + 8 * m + j)
          by lia. exact Ev.
      * cbn. rewrite Hnext. split; [reflexivity|]. split; [reflexivity|].
        apply (Hext True). intros [_ Hz].
        replace (bmapstart sb + 1 + (8 * m + j)) with (bmapstart sb + 1 + 8 * m + j)
          in Hz by lia. congruence.
    + cbn. rewrite Hnext. split; [reflexivity|]. split; [reflexivity|].
      apply (Hext True). intros [Hs _]. congruence.
Qed.

(** Check 6 from its seek on. *)
Lemma check_6_cases fuel pos :
  (Z.to_nat (sweep_bytes sb) < fuel)%nat ->
  (eval (error_check_6 img sb fuel u) pos = Ok 1
   /\ exists k, 0 <= k < 8 * sweep_bytes sb /\ sweep_violation img sb u k)
  \/ (eval (error_check_6 img sb fuel u) pos = Ok 0
      /\ forall k, 0 <= k < 8 * sweep_bytes sb -> ~ sweep_violation img sb u k).
Proof.
  intros Hfuel. unfold error_check_6. rewrite eval_lseek.
  fold (sweep_start sb). rewrite !u32_small by lia.
  assert (Hn : 0 <= sweep_bytes sb).
  { unfold sweep_bytes. apply Z.div_pos; lia. }
  replace (bmapstart sb + 1) with (bmapstart sb + 1 + 8 * 0) by lia.
  apply check_6_sweep_cases; [lia|rewrite Z.sub_0_r; exact Hfuel|lia|].
  intros k Hk. lia.
Qed.

(** Check 6 in general: it answers 1 exactly when some bit the sweep reads
    is set while the entry of [in_use] the sweep holds it against is 0. *)
Lemma bitmap_sweep_check fuel :
  (Z.to_nat (sweep_bytes sb) < fuel)%nat ->
  (yields (error_check_6 img sb fuel u) (Ok 1)
   <-> exists k, 0 <= k < 8 * sweep_bytes sb /\ sweep_violation img sb u k)
  /\ (yields (error_check_6 img sb fuel u) (Ok 0)
      <-> forall k, 0 <= k < 8 * sweep_bytes sb -> ~ sweep_violation img sb u k).
Proof.
  intros Hfuel. split; split.
  - intros Hy. destruct (check_6_cases fuel 0 Hfuel) as [[_ Hx]|[E _]];
      [exact Hx|]. rewrite (Hy 0) in E. discriminate E.
  - intros Hx pos. destruct (check_6_cases fuel pos Hfuel) as [[E _]|[_ Hn]];
      [exact E|]. destruct Hx as (k & Hk & Hv). destruct (Hn k Hk Hv).
  - intros Hy. destruct (check_6_cases fuel 0 Hfuel) as [[E _]|[_ Hn]];
      [|exact Hn]. rewrite (Hy 0) in E. discriminate E.
  - intros Hn pos. destruct (check_6_cases fuel pos Hfuel) as [[_ Hx]|[E _]];
      [|exact E]. destruct Hx as (k & Hk & Hv). destruct (Hn k Hk Hv).
Qed.
End Sweep.

(** The bit the sweep reads [k]-th is the bitmap's bit of block
    [8 * (size / 8 - nblocks / 8) + k]. *)
Lemma swept_bit_block k :
  swept_bit img sb k = bitmap_bit img sb (8 * (size sb / 8 - nblocks sb / 8) + k).
Proof.
  unfold swept_bit, bitmap_bit, sweep_start. f_equal.
  - do 2 f_equal.
    rewrite (Z.add_comm (8 * _)), (Z.mul_comm 8), Z.div_add by lia. lia.
  - rewrite (Z.add_comm (8 * _)), (Z.mul_comm 8), Z.mod_add by lia. reflexivity.
Qed.

End Properties.

(** ** Check 1: the type of an inode *)

Section Types.
Context `{fs_header}.
Variable img : image.
Variable sb : superblock.

Lemma check_1_value nd :
  (error_check_1 nd = 0 /\ valid_type nd)
  \/ (error_check_1 nd = 1 /\ ~ valid_type nd).
Proof.
  unfold error_check_1, valid_type.
  destruct (Z.eqb_spec (type nd) 0), (Z.eqb_spec (type nd) T_DEV),
    (Z.eqb_spec (type nd) T_DIR), (Z.eqb_spec (type nd) T_FILE); cbn;
    first [left; split; [reflexivity|tauto] | right; split; [reflexivity|tauto]].
Qed.

(** Check 1 answers 1 exactly for an inode whose type is none of 0, T_DEV,
    T_DIR and T_FILE.  When the run comes to such an inode it ends with
    [bad inode], before any other check of the inode. *)
Theorem bad_inode_check nd :
  (error_check_1 nd = 1 <-> ~ valid_type nd)
  /\ (error_check_1 nd = 0 <-> valid_type nd)
  /\ (forall fuel n u,
        well_sized img sb -> loads img sb -> scanned_to img sb fuel n u ->
        nd = inode_at img sb n -> ~ valid_type nd ->
        xcheck fuel 2 (Some img) = Exited 1 ("ERROR: bad inode" ++ nl)).
Proof.
  assert (H1 : error_check_1 nd = 1 <-> ~ valid_type nd).
  { destruct (check_1_value nd) as [[E Hv]|[E Hv]]; rewrite E; split; intros Hx;
      try discriminate Hx; try reflexivity; tauto. }
  split; [exact H1|]. split.
  - destruct (check_1_value nd) as [[E Hv]|[E Hv]]; rewrite E; split; intros Hx;
      try discriminate Hx; try reflexivity; tauto.
  - intros fuel n u Hws Hlo Hsc -> Hbad.
    apply (run_stops_at img sb fuel n u); [assumption..|].
    apply scan_inode_loads; [exact Hws|apply Hsc|].
    unfold inode_checks. apply H1 in Hbad. rewrite Hbad.
    apply yields_check_stop. discriminate.
Qed.

(** Check 3 answers 0 exactly when inode 1 is a directory and some record
    of its direct blocks is named [..] and leads to inode 1; it answers 1
    otherwise.  The blocks listed in the indirect block of the root are not
    read. *)
Theorem root_check_passes :
  well_sized img sb -> 1 < ninodes sb ->
  (type (inode_at img sb 1) = T_DIR ->
   direct_in_image img (inode_at img sb 1) = true) ->
  (yields (error_check_3 img sb) (Ok 0)
   <-> type (inode_at img sb 1) = T_DIR
       /\ exists e, In e (direct_entries img (inode_at img sb 1))
                    /\ is_root_parent e = true)
  /\ (yields (error_check_3 img sb) (Ok 1)
      <-> ~ (type (inode_at img sb 1) = T_DIR
             /\ exists e, In e (direct_entries img (inode_at img sb 1))
                          /\ is_root_parent e = true)).
Proof.
  intros Hws Hn Hdir.
  assert (Hcases : forall pos,
    (eval (error_check_3 img sb) pos = Ok 0
     /\ (type (inode_at img sb 1) = T_DIR
         /\ exists e, In e (direct_entries img (inode_at img sb 1))
                      /\ is_root_parent e = true))
    \/ (eval (error_check_3 img sb) pos = Ok 1
        /\ ~ (type (inode_at img sb 1) = T_DIR
              /\ exists e, In e (direct_entries img (inode_at img sb 1))
                           /\ is_root_parent e = true))).
  { intros pos.
    destruct (check_3_cases img sb pos Hws Hn Hdir) as [(E & Hty & He)|[E Hno]].
    - left. split; [exact E|]. split; assumption.
    - right. split; [exact E|]. intros (Hty & e & He & Hm).
      destruct Hno as [Hno|Hno]; [contradiction|].
      rewrite (Hno e He) in Hm. discriminate Hm. }
  split; split.
  - intros Hy. destruct (Hcases 0) as [[_ Hx]|[E _]]; [exact Hx|].
    rewrite (Hy 0) in E. discriminate E.
  - intros Hx pos. destruct (Hcases pos) as [[E _]|[_ Hn']]; [exact E|].
    contradiction.
  - intros Hy. destruct (Hcases 0) as [[E _]|[_ Hx]]; [|exact Hx].
    rewrite (Hy 0) in E. discriminate E.
  - intros Hx pos. destruct (Hcases pos) as [[_ Hn']|[E _]]; [|exact E].
    contradiction.
Qed.

End Types.
(** ** Check 5: the bitmap bits of the blocks of an inode *)

Lemma byte_val_range b : 0 <= byte_val b < 256.
Proof.
  unfold byte_val. pose proof (Byte.to_N_bounded b) as Hb.
  change 256 with (Z.of_N 256). lia.
Qed.

(** The low bits of an integer read from the image are those of its first
    byte. *)
Lemma le_val_low_bit b bs s :
  0 <= s < 8 -> Z.testbit (le_val (b :: bs)) s = Z.testbit (byte_val b) s.
Proof.
  intros Hs. cbn [le_val]. pose proof (byte_val_range b) as Hb.
  rewrite <- (Z.mod_pow2_bits_low (byte_val b + 256 * le_val bs) 8 s) by lia.
  f_equal. change (2 ^ 8) with 256.
  rewrite Z.mul_comm, Z.mod_add by lia. apply Z.mod_small. exact Hb.
Qed.

(** The test [((usebit >> shift_amt) & 1) == 0]. *)
Lemma land_shiftr_bit v s :
  0 <= s -> (Z.land (Z.shiftr v s) 1 =? 0) = negb (Z.testbit v s).
Proof.
  intros Hs. change 1 with (Z.ones 1) at 1. rewrite Z.land_ones by lia.
  change (2 ^ 1) with 2. rewrite <- Z.bit0_mod, Z.shiftr_spec by lia.
  replace (0 + s) with s by lia. destruct (Z.testbit v s); reflexivity.
Qed.

Section Bitmap.
Context `{fs_header}.
Variable img : image.
Variable sb : superblock.

(** The [unsigned int] that check 5 reads for block [a] lies inside the
    image, after the bitmap byte of the block. *)
Lemma bitmap_byte_in_image a :
  well_sized img sb -> in_data_area sb a ->
  0 <= bmapstart sb * BSIZE + a / 8
  /\ bmapstart sb * BSIZE + a / 8 + sizeof_uint <= img_len img
  /\ u32 (bmapstart sb * BSIZE + a / 8) = bmapstart sb * BSIZE + a / 8.
Proof.
  intros Hws [Ha1 Ha2]. pose proof (bitmap_end_nonneg img sb Hws) as Hbe.
  destruct Hws as (Hlen & Hs & Hsl & Hb & _). pose proof BSIZE_min as HB.
  destruct (bitmap_end_ceiling sb ltac:(lia)) as [Hq _]. cbv zeta in Hq.
  assert (Hd0 : 0 <= a / 8) by (apply Z.div_pos; lia).
  assert (Hd1 : a / 8 < (bitmap_end sb - bmapstart sb) * BSIZE).
  { apply Z.div_lt_upper_bound; lia. }
  unfold sizeof_uint.
  assert (Hp : bmapstart sb * BSIZE + a / 8 < bitmap_end sb * BSIZE) by lia.
  assert (Hp' : bitmap_end sb * BSIZE <= (size sb - 1) * BSIZE) by nia.
  split; [nia|]. split; [nia|]. apply u32_small. nia.
Qed.

(** What check 5 makes of the bytes it reads for a block. *)
Lemma bitmap_test a :
  0 <= a ->
  (Z.land (Z.shiftr (le_val (peek img (bmapstart sb * BSIZE + a / 8) sizeof_uint))
             (a mod 8)) 1 =? 0)
  = negb (bitmap_bit img sb a).
Proof.
  intros Ha. pose proof (Z.mod_pos_bound a 8 ltac:(lia)) as Hm.
  rewrite land_shiftr_bit by lia. f_equal.
  unfold peek, sizeof_uint. change (seqZ 0 4) with [0; 1; 2; 3]. cbn [map].
  rewrite le_val_low_bit by lia. unfold bitmap_bit.
  rewrite Z.add_0_r. reflexivity.
Qed.

Lemma ok_addrs nd :
  ~ bad_address img sb nd -> forall a, In a (inode_addrs img nd) -> ok_addr sb a.
Proof.
  intros Hok a Hin. destruct (ok_addr_dec sb a) as [?|Hbad]; [assumption|].
  exfalso. apply Hok. exists a. split; [exact Hin|]. apply not_ok_addr, Hbad.
Qed.

Lemma in_indirect_addrs nd k :
  addr nd NDIRECT <> 0 -> 0 <= k < NINDIRECT ->
  In (block_uint img (addr nd NDIRECT) k) (inode_addrs img nd).
Proof.
  intros Hnz Hk. unfold inode_addrs, indirect_addrs.
  apply in_or_app. right. right.
  destruct (Z.eqb_spec (addr nd NDIRECT) 0); [contradiction|].
  apply in_map. apply list_elem_of_In, elem_of_seqZ. lia.
Qed.

Lemma check_2_passes nd :
  well_sized img sb -> ~ bad_address img sb nd ->
  yields (error_check_2 img sb nd) (Ok 0).
Proof.
  intros Hws Hok pos.
  destruct (check_2_cases img sb nd pos Hws) as [[_ Hb]|[E _]];
    [contradiction|exact E].
Qed.

Lemma check_2_passed nd pos :
  well_sized img sb -> eval (error_check_2 img sb nd) pos = Ok 0 ->
  ~ bad_address img sb nd.
Proof.
  intros Hws E.
  destruct (check_2_cases img sb nd pos Hws) as [[E1 _]|[_ Hok]]; [|exact Hok].
  rewrite E in E1. discriminate E1.
Qed.

(** One step of check 5: the bitmap bit of a block of the data area. *)
Lemma check_5_step a pos :
  well_sized img sb -> in_data_area sb a ->
  (lseek (u32 (bmapstart sb * BSIZE + a / 8)) ;;;
   usebit <- read_uint img ;;
   let shift_amt := a mod 8 in
   let usebit := Z.shiftr usebit shift_amt in
   if Z.land usebit 1 =? 0 then ret (Return 1) else ret (Next tt)) pos
  = Ok (if bitmap_bit img sb a then Next tt else Return 1,
        bmapstart sb * BSIZE + a / 8 + sizeof_uint).
Proof.
  intros Hws Ha. destruct (bitmap_byte_in_image a Hws Ha) as (Hp0 & Hp1 & Hu).
  rewrite lseek_bind, Hu. rewrite (bind_ok _ _ _ _ _ (read_uint_ok img _ Hp0 Hp1)).
  cbv zeta. pose proof (bitmap_end_nonneg img sb Hws). destruct Ha as [Ha _].
  rewrite bitmap_test by lia.
  destruct (bitmap_bit img sb a); reflexivity.
Qed.

(** Check 5 answers 1 when some block of the inode is free in the bitmap,
    0 when none is; the addresses are those check 2 lets pass. *)
Lemma check_5_cases nd pos :
  well_sized img sb -> ~ bad_address img sb nd ->
  (eval (error_check_5 img sb nd) pos = Ok 1 /\ free_in_bitmap img sb nd)
  \/ (eval (error_check_5 img sb nd) pos = Ok 0 /\ ~ free_in_bitmap img sb nd).
Proof.
  intros Hws Hok. pose proof (ok_addrs nd Hok) as Hall.
  unfold error_check_5. rewrite eval_after.
  loop_inv
    (fun j (_ : unit) (p : Z) =>
       forall k, 0 <= k < j -> addr nd k <> 0 -> bitmap_bit img sb (addr nd k) = true)
    (fun r => r = 1 /\ free_in_bitmap img sb nd).
  - assert (Hdir : forall k, 0 <= k <= NDIRECT -> addr nd k <> 0 ->
                             bitmap_bit img sb (addr nd k) = true).
    { intros k Hk. apply HL. unfold NDIRECT in *. lia. }
    clear HL. rewrite eval_after.
    destruct (Z.eqb_spec (addr nd NDIRECT) 0) as [E0|E0]; cbn [negb].
    + right. split; [reflexivity|].
      intros (a & Hin & Hnz & Hfree).
      apply in_inode_addrs_inv in Hin. destruct Hin as [(k & Hk & ->)|[Hne _]].
      * rewrite (Hdir k Hk Hnz) in Hfree. discriminate Hfree.
      * contradiction.
    + destruct (Hall _ (in_inode_addrs img nd NDIRECT ltac:(unfold NDIRECT; lia)))
        as [?|Hin]; [contradiction|].
      destruct (data_block_in_image img sb _ Hws Hin) as (Ha0 & Ha1 & Hu).
      loop_inv
        (fun j (_ : unit) (p : Z) =>
           forall k, 0 <= k < j -> block_uint img (addr nd NDIRECT) k <> 0 ->
                     bitmap_bit img sb (block_uint img (addr nd NDIRECT) k) = true)
        (fun r => r = 1 /\ free_in_bitmap img sb nd).
      * right. split; [reflexivity|].
        intros (a & Hin' & Hnz & Hfree).
        apply in_inode_addrs_inv in Hin'.
        destruct Hin' as [(k & Hk & ->)|[_ (k & Hk & ->)]].
        -- rewrite (Hdir k Hk Hnz) in Hfree. discriminate Hfree.
        -- rewrite HL in Hfree; [discriminate Hfree| |exact Hnz].
           pose proof (NINDIRECT_fits). lia.
      * left. destruct HL as [-> HL]. split; [reflexivity|exact HL].
      * intros k Hk. lia.
      * pose proof NINDIRECT_fits as [Hn0 Hn1].
        assert (Hj' : 0 <= j < NINDIRECT) by lia.
        rewrite lseek_bind, Hu.
        assert (Hr0 : 0 <= addr nd NDIRECT * BSIZE + j * sizeof_uint)
          by (unfold sizeof_uint in *; nia).
        assert (Hr1 : addr nd NDIRECT * BSIZE + j * sizeof_uint + sizeof_uint
                      <= img_len img) by (unfold sizeof_uint in *; nia).
        rewrite (bind_ok _ _ _ _ _ (read_uint_ok img _ Hr0 Hr1)).
        fold (block_uint img (addr nd NDIRECT) j).
        set (a := block_uint img (addr nd NDIRECT) j) in *.
        assert (Hext : bitmap_bit img sb a = true \/ a = 0 ->
                  forall k, 0 <= k < j + 1 ->
                    block_uint img (addr nd NDIRECT) k <> 0 ->
                    bitmap_bit img sb (block_uint img (addr nd NDIRECT) k) = true).
        { intros Hbit k Hk Hnz. destruct (Z.eq_dec k j) as [->|?].
          - destruct Hbit as [Hbit|Hbit]; [exact Hbit|contradiction].
          - apply HI; [lia|exact Hnz]. }
        destruct (Z.eqb_spec a 0) as [Ea|Ea]; cbn [negb].
        -- cbn. apply Hext. right. exact Ea.
        -- destruct (Hall a (in_indirect_addrs nd j E0 Hj')) as [?|Hin'];
             [contradiction|].
           rewrite (check_5_step a _ Hws Hin').
           destruct (bitmap_bit img sb a) eqn:Eb.
           ++ apply Hext. left. reflexivity.
           ++ split; [reflexivity|]. exists a.
              split; [apply in_indirect_addrs; assumption|]. split; assumption.
  - left. destruct HL as [-> HL]. split; [reflexivity|exact HL].
  - intros k Hk. lia.
  - assert (Hj' : 0 <= j <= NDIRECT) by (unfold NDIRECT in *; lia).
    assert (Hext : bitmap_bit img sb (addr nd j) = true \/ addr nd j = 0 ->
              forall k, 0 <= k < j + 1 -> addr nd k <> 0 ->
                        bitmap_bit img sb (addr nd k) = true).
    { intros Hbit k Hk Hnz. destruct (Z.eq_dec k j) as [->|?].
      - destruct Hbit as [Hbit|Hbit]; [exact Hbit|contradiction].
      - apply HI; [lia|exact Hnz]. }
    destruct (Z.eqb_spec (addr nd j) 0) as [E|E]; cbn [negb].
    + cbn. apply Hext. right. exact E.
    + destruct (Hall _ (in_inode_addrs img nd j Hj')) as [?|Hin]; [contradiction|].
      rewrite (check_5_step _ _ Hws Hin).
      destruct (bitmap_bit img sb (addr nd j)) eqn:Eb.
      * apply Hext. left. reflexivity.
      * split; [reflexivity|]. exists (addr nd j).
        split; [apply in_inode_addrs; exact Hj'|]. split; assumption.
Qed.

(** Check 5, for an inode whose addresses check 2 lets pass, answers 1
    exactly when the bitmap bit (byte [a / 8], bit [a % 8]) of some non-zero
    address [a] among the direct pointers, the indirect pointer and the
    pointers stored in the indirect block is 0, and 0 otherwise.  On a
    violation in an inode in use the run ends with
    [address used by inode but marked free in bitmap]. *)
Theorem bitmap_mark_check nd :
  well_sized img sb -> ~ bad_address img sb nd ->
  (yields (error_check_5 img sb nd) (Ok 1) <-> free_in_bitmap img sb nd)
  /\ (yields (error_check_5 img sb nd) (Ok 0) <-> ~ free_in_bitmap img sb nd)
  /\ (forall fuel n u,
        loads img sb -> scanned_to img sb fuel n u ->
        nd = inode_at img sb n -> type nd <> 0 -> error_check_1 nd = 0 ->
        free_in_bitmap img sb nd ->
        xcheck fuel 2 (Some img)
        = Exited 1 ("ERROR: address used by inode but marked free in bitmap" ++ nl)).
Proof.
  intros Hws Hok.
  assert (H1 : yields (error_check_5 img sb nd) (Ok 1) <-> free_in_bitmap img sb nd).
  { split.
    - intros Hy. destruct (check_5_cases nd 0 Hws Hok) as [[_ Hb]|[E _]]; [exact Hb|].
      rewrite (Hy 0) in E. discriminate E.
    - intros Hb pos. destruct (check_5_cases nd pos Hws Hok) as [[E _]|[_ Hn]];
        [exact E|contradiction]. }
  split; [exact H1|]. split.
  - split.
    + intros Hy Hb. apply H1 in Hb. specialize (Hb 0).
      rewrite (Hy 0) in Hb. discriminate Hb.
    + intros Hn pos. destruct (check_5_cases nd pos Hws Hok) as [[_ Hb]|[E _]];
        [contradiction|exact E].
  - intros fuel n u Hl Hsc -> Hty Hc1 Hb.
    apply (run_stops_at img sb fuel n u); [assumption..|].
    apply scan_inode_loads; [exact Hws|apply Hsc|].
    unfold inode_checks. rewrite Hc1. apply yields_check_pass.
    destruct (Z.eqb_spec (type (inode_at img sb n)) 0) as [?|_]; [contradiction|].
    cbn [negb].
    eapply yields_bind; [apply check_2_passes; assumption|].
    apply yields_check_pass.
    eapply yields_bind; [apply H1, Hb|].
    apply yields_check_stop. discriminate.
Qed.

End Bitmap.

(** ** Checks 7 and 8: the blocks recorded in [in_use] *)

Lemma mark_all_app l1 l2 u : mark_all (l1 ++ l2) u = mark_all l2 (mark_all l1 u).
Proof. unfold mark_all. apply fold_left_app. Qed.

Lemma length_mark_all l : forall u, length (mark_all l u) = length u.
Proof.
  induction l as [|a l IH]; intros u; [reflexivity|].
  cbn. change (fold_left _ l ?v) with (mark_all l v).
  rewrite IH. apply length_insert.
Qed.

Lemma mark_all_lookup_other l n : forall u,
  (forall a, In a l -> Z.to_nat a <> n) -> mark_all l u !! n = u !! n.
Proof.
  induction l as [|a l IH]; intros u Hn; [reflexivity|].
  cbn. change (fold_left _ l ?v) with (mark_all l v).
  rewrite IH by (intros b Hb; apply Hn; right; exact Hb).
  apply list_lookup_insert_ne. apply Hn. left. reflexivity.
Qed.

Lemma mark_all_lookup_in l n : forall u,
  In n (map Z.to_nat l) -> (n < length u)%nat -> mark_all l u !! n = Some 1.
Proof.
  induction l as [|b l IH]; intros u Hin Hlt; [destruct Hin|].
  cbn. change (fold_left _ l ?v) with (mark_all l v).
  destruct (in_dec Nat.eq_dec n (map Z.to_nat l)) as [Hl|Hl].
  - apply IH; [exact Hl|]. rewrite length_insert. exact Hlt.
  - destruct Hin as [<-|Hin]; [|contradiction].
    rewrite mark_all_lookup_other.
    + apply list_lookup_insert_eq. exact Hlt.
    + intros c Hc E. apply Hl. rewrite <- E. apply in_map. exact Hc.
Qed.

(** An entry of the marked array is 1 for a block of the list, and what it
    was for any other. *)
Lemma mark_all_lookup l u n v :
  mark_all l u !! n = Some v ->
  (v = 1 /\ exists a, In a l /\ Z.to_nat a = n)
  \/ (u !! n = Some v /\ forall a, In a l -> Z.to_nat a <> n).
Proof.
  intros Hv.
  destruct (in_dec Nat.eq_dec n (map Z.to_nat l)) as [Hm|Hm].
  - apply in_map_iff in Hm. destruct Hm as (a & Ha & Hal). left.
    assert (Hlt : (n < length u)%nat).
    { apply lookup_lt_Some in Hv. rewrite length_mark_all in Hv. exact Hv. }
    rewrite (mark_all_lookup_in l n u) in Hv;
      [|rewrite <- Ha; apply in_map; exact Hal|exact Hlt].
    split; [congruence|]. exists a. split; assumption.
  - right.
    assert (Hno : forall a, In a l -> Z.to_nat a <> n).
    { intros a Ha E. apply Hm. rewrite <- E. apply in_map. exact Ha. }
    split; [|exact Hno]. rewrite mark_all_lookup_other in Hv; assumption.
Qed.

Lemma in_nonzero a l : In a (nonzero l) <-> In a l /\ a <> 0.
Proof.
  unfold nonzero. rewrite filter_In.
  destruct (Z.eqb_spec a 0); cbn; intuition congruence.
Qed.

Lemma in_pointers_prefix nd j a :
  0 <= j -> (In a (map (addr nd) (seqZ 0 j)) <-> exists i, 0 <= i < j /\ addr nd i = a).
Proof.
  intros Hj. rewrite in_map_iff. split.
  - intros (i & Hi & Hin). apply list_elem_of_In, elem_of_seqZ in Hin.
    exists i. split; [lia|exact Hi].
  - intros (i & Hi & Ha). exists i. split; [exact Ha|].
    apply list_elem_of_In, elem_of_seqZ. lia.
Qed.

(** Check 7 on an array that the pointers of the inode index: it answers 1
    at the first pointer that clashes, and otherwise 0 with the blocks of
    the pointers recorded. *)
Lemma check_7_cases nd (u : list Z) pos :
  (forall j, 0 <= j <= NDIRECT -> addr nd j <> 0 ->
     0 < addr nd j < Z.of_nat (length u)) ->
  ((exists u', eval (error_check_7 nd u) pos = Ok (1, u')) /\ pointer_clash nd u)
  \/ (eval (error_check_7 nd u) pos = Ok (0, mark_all (nonzero (pointers nd)) u)
      /\ ~ pointer_clash nd u).
Proof.
  intros Hin. unfold error_check_7, eval, bind.
  loop_inv
    (fun j s (p : Z) =>
       s = mark_all (nonzero (map (addr nd) (seqZ 0 j))) u
       /\ forall k, 0 <= k < j -> addr nd k <> 0 ->
            u !! Z.to_nat (addr nd k) = Some 0
            /\ forall i, 0 <= i < k -> addr nd i <> addr nd k)
    (fun r : Z * list Z => fst r = 1 /\ pointer_clash nd u).
  - right. destruct HL as [-> HL].
    replace (0 + Z.of_nat (Z.to_nat (NDIRECT + 1))) with (NDIRECT + 1) in *
      by (unfold NDIRECT; lia).
    split; [reflexivity|].
    intros (j & Hj & Hnz & Hc). destruct (HL j ltac:(lia) Hnz) as [Hz Hd].
    destruct Hc as [(v & Hv & Hvnz)|(i & Hi & E)].
    + rewrite Hz in Hv. congruence.
    + apply (Hd i Hi). exact E.
  - left. destruct r as [r1 u']. cbn in HL. destruct HL as [-> HL].
    split; [exists u'; reflexivity|exact HL].
  - split; [reflexivity|]. intros k Hk. lia.
  - destruct HI as [-> HI].
    assert (Hj' : 0 <= j <= NDIRECT) by (unfold NDIRECT in *; lia).
    rewrite seqZ_snoc, map_app, nonzero_app by lia. cbn [map].
    rewrite nonzero_single.
    set (P := nonzero (map (addr nd) (seqZ 0 j))) in *.
    destruct (Z.eqb_spec (addr nd j) 0) as [E|E]; cbn [negb].
    + cbn. rewrite app_nil_r. split; [reflexivity|].
      intros k Hk Hnz. apply HI; [|exact Hnz].
      destruct (Z.eq_dec k j) as [->|?]; [contradiction|lia].
    + pose proof (Hin j Hj' E) as Hr.
      assert (Hlt : (Z.to_nat (addr nd j) < length (mark_all P u))%nat)
        by (rewrite length_mark_all; lia).
      destruct (lookup_lt_is_Some_2 _ _ Hlt) as [v Ev]. rewrite Ev.
      destruct (mark_all_lookup _ _ _ _ Ev) as [(-> & a & Ha & Ea)|[Hu Hno]].
      * (* an earlier pointer of the inode *)
        cbn. split; [reflexivity|]. exists j. split; [exact Hj'|].
        split; [exact E|]. right.
        apply in_nonzero in Ha. destruct Ha as [Ha Hanz].
        apply in_pointers_prefix in Ha; [|lia]. destruct Ha as (i & Hi & <-).
        exists i. split; [exact Hi|].
        pose proof (Hin i ltac:(lia) Hanz). lia.
      * destruct (Z.eqb_spec v 0) as [->|Hv]; cbn [negb].
        -- cbn. rewrite mark_all_app. split; [reflexivity|].
           intros k Hk Hnz. destruct (Z.eq_dec k j) as [->|?]; [|apply HI; [lia|exact Hnz]].
           split; [exact Hu|]. intros i Hi Ei.
           destruct (Z.eq_dec (addr nd i) 0) as [E0|E0]; [congruence|].
           apply (Hno (addr nd i)); [|congruence].
           apply in_nonzero. split; [|exact E0].
           apply in_pointers_prefix; [lia|]. exists i. split; [exact Hi|reflexivity].
        -- cbn. split; [reflexivity|]. exists j. split; [exact Hj'|].
           split; [exact E|]. left. exists v. split; assumption.
Qed.
Lemma eval_bind {A B} (m : IO A) (k : A -> IO B) pos :
  eval (bind m k) pos =
  match m pos with
  | Ok (a, p') => eval (k a) p'
  | Exited st e => Exited st e
  | Fault => Fault
  | OutOfFuel => OutOfFuel
  end.
Proof. unfold eval, bind. destruct (m pos) as [[a p]| | |]; reflexivity. Qed.

Section Marks.
Context `{fs_header}.
Variable img : image.
Variable sb : superblock.

(** The blocks of an inode that check 2 lets pass index the array [in_use]
    and lie inside the image. *)
Lemma checked_addr_facts nd (u : list Z) a :
  well_sized img sb -> ~ bad_address img sb nd ->
  length u = Z.to_nat (size sb) ->
  In a (inode_addrs img nd) -> a <> 0 ->
  0 < a < Z.of_nat (length u)
  /\ (a + 1) * BSIZE <= img_len img /\ u32 (a * BSIZE) = a * BSIZE.
Proof.
  intros Hws Hok Hl Hin Hnz.
  destruct (ok_addrs img sb nd Hok a Hin) as [?|Hd]; [contradiction|].
  destruct (data_block_in_image img sb a Hws Hd) as (Ha0 & Ha1 & Hu).
  destruct Hd as [_ Hhi]. destruct Hws as (_ & Hs & _).
  split; [rewrite Hl; lia|]. split; assumption.
Qed.

(** Check 8 on an inode that check 2 lets pass: it answers 1 at the first
    block number of the indirect block that clashes, and otherwise 0 with
    the blocks listed there recorded. *)
Lemma check_8_cases nd (u : list Z) pos :
  well_sized img sb -> ~ bad_address img sb nd ->
  length u = Z.to_nat (size sb) ->
  ((exists u', eval (error_check_8 img nd u) pos = Ok (1, u'))
   /\ indirect_clash img nd u)
  \/ (eval (error_check_8 img nd u) pos
      = Ok (0, mark_all (nonzero (indirect_addrs img nd)) u)
      /\ ~ indirect_clash img nd u).
Proof.
  intros Hws Hok Hl. unfold error_check_8, indirect_addrs.
  destruct (Z.eqb_spec (addr nd NDIRECT) 0) as [E0|E0]; cbn [negb].
  { right. split; [reflexivity|]. intros [Hnz _]. contradiction. }
  pose proof (fun a => checked_addr_facts nd u a Hws Hok Hl) as Hfacts.
  destruct (Hfacts _ (in_inode_addrs img nd NDIRECT ltac:(unfold NDIRECT; lia)) E0)
    as (Hia & Hib & Hu).
  set (ia := addr nd NDIRECT) in *.
  rewrite eval_bind.
  loop_inv
    (fun j s (p : Z) =>
       s = mark_all (nonzero (map (block_uint img ia) (seqZ 0 j))) u
       /\ forall k, 0 <= k < j -> block_uint img ia k <> 0 ->
            u !! Z.to_nat (block_uint img ia k) <> Some 1
            /\ forall i, 0 <= i < k -> block_uint img ia i <> block_uint img ia k)
    (fun r : Z * list Z => fst r = 1 /\ indirect_clash img nd u).
  - right. destruct HL as [-> HL]. pose proof NINDIRECT_fits as [Hn0 _].
    replace (0 + Z.of_nat (Z.to_nat NINDIRECT)) with NINDIRECT in * by lia.
    split; [reflexivity|].
    intros (_ & k & Hk & Hnz & Hc). fold ia in Hnz, Hc.
    destruct (HL k Hk Hnz) as [Hz Hd].
    destruct Hc as [Hv|(i & Hi & E)]; [contradiction|].
    apply (Hd i Hi). exact E.
  - left. destruct r as [r1 u']. cbn in HL. destruct HL as [-> HL].
    split; [exists u'; reflexivity|exact HL].
  - split; [reflexivity|]. intros k Hk. lia.
  - destruct HI as [-> HI]. pose proof NINDIRECT_fits as [Hn0 Hn1].
    assert (Hj' : 0 <= j < NINDIRECT) by lia.
    rewrite lseek_bind, Hu.
    assert (Hr0 : 0 <= ia * BSIZE + j * sizeof_uint)
      by (unfold sizeof_uint in *; nia).
    assert (Hr1 : ia * BSIZE + j * sizeof_uint + sizeof_uint <= img_len img)
      by (unfold sizeof_uint in *; nia).
    rewrite (bind_ok _ _ _ _ _ (read_uint_ok img _ Hr0 Hr1)).
    fold (block_uint img ia j).
    rewrite seqZ_snoc, map_app, nonzero_app by lia. cbn [map].
    rewrite nonzero_single.
    set (P := nonzero (map (block_uint img ia) (seqZ 0 j))) in *.
    set (a := block_uint img ia j) in *.
    destruct (Z.eqb_spec a 0) as [E|E]; cbn [negb].
    + cbn. rewrite app_nil_r. split; [reflexivity|].
      intros k Hk Hnz. apply HI; [|exact Hnz].
      destruct (Z.eq_dec k j) as [->|?]; [contradiction|lia].
    + assert (Hina : In a (inode_addrs img nd))
        by (apply in_indirect_addrs; assumption).
      destruct (Hfacts a Hina E) as (Hr & _).
      assert (Hlt : (Z.to_nat a < length (mark_all P u))%nat)
        by (rewrite length_mark_all; lia).
      destruct (lookup_lt_is_Some_2 _ _ Hlt) as [v Ev]. rewrite Ev.
      assert (Hclash : forall k, 0 <= k < NINDIRECT ->
                block_uint img ia k <> 0 ->
                (u !! Z.to_nat (block_uint img ia k) = Some 1
                 \/ exists i, 0 <= i < k /\ block_uint img ia i = block_uint img ia k) ->
                indirect_clash img nd u).
      { intros k Hk Hnz Hc. split; [exact E0|]. exists k. fold ia.
        split; [exact Hk|]. split; assumption. }
      destruct (mark_all_lookup _ _ _ _ Ev) as [(-> & b & Hb & Eb)|[Hu' Hno]].
      * cbn. split; [reflexivity|]. apply (Hclash j Hj' E). right.
        apply in_nonzero in Hb. destruct Hb as [Hb Hbnz].
        apply in_map_iff in Hb. destruct Hb as (i & Hi & Hin').
        apply list_elem_of_In, elem_of_seqZ in Hin'.
        exists i. split; [lia|]. fold a.
        assert (Hinb : In b (inode_addrs img nd)).
        { rewrite <- Hi. apply in_indirect_addrs; [exact E0|lia]. }
        destruct (Hfacts b Hinb Hbnz) as (Hrb & _). lia.
      * destruct (Z.eqb_spec v 1) as [->|Hv].
        -- cbn. split; [reflexivity|]. apply (Hclash j Hj' E). left. exact Hu'.
        -- cbn. rewrite mark_all_app. split; [reflexivity|].
           intros k Hk Hnz.
           destruct (Z.eq_dec k j) as [->|?]; [|apply HI; [lia|exact Hnz]].
           fold a. split; [rewrite Hu'; congruence|]. intros i Hi Ei.
           apply (Hno (block_uint img ia i)); [|congruence].
           apply in_nonzero. split; [|congruence].
           apply in_map. apply list_elem_of_In, elem_of_seqZ. lia.
Qed.

Lemma checked_pointers_index nd (u : list Z) :
  well_sized img sb -> ~ bad_address img sb nd ->
  length u = Z.to_nat (size sb) ->
  forall j, 0 <= j <= NDIRECT -> addr nd j <> 0 ->
            0 < addr nd j < Z.of_nat (length u).
Proof.
  intros Hws Hok Hl j Hj Hnz.
  apply (checked_addr_facts nd u (addr nd j) Hws Hok Hl); [|exact Hnz].
  apply in_inode_addrs. exact Hj.
Qed.

Lemma check_5_passed nd pos :
  well_sized img sb -> ~ bad_address img sb nd ->
  eval (error_check_5 img sb nd) pos = Ok 0 -> ~ free_in_bitmap img sb nd.
Proof.
  intros Hws Hok E.
  destruct (check_5_cases img sb nd pos Hws Hok) as [[E1 _]|[_ Hn]]; [|exact Hn].
  rewrite E in E1. discriminate E1.
Qed.

Lemma check_7_passed nd (u u' : list Z) pos :
  well_sized img sb -> ~ bad_address img sb nd ->
  length u = Z.to_nat (size sb) ->
  eval (error_check_7 nd u) pos = Ok (0, u') -> ~ pointer_clash nd u.
Proof.
  intros Hws Hok Hl E.
  destruct (check_7_cases nd u pos (checked_pointers_index nd u Hws Hok Hl))
    as [[[u1 E1] _]|[_ Hn]]; [|exact Hn].
  rewrite E in E1. discriminate E1.
Qed.

(** The array [in_use] keeps its length [size] along the scan. *)
Lemma scanned_length fuel n u :
  well_sized img sb -> scanned_to img sb fuel n u ->
  length u = Z.to_nat (size sb).
Proof.
  intros Hws (_ & Hn & Hscan).
  destruct (scan_inodes_marks img sb fuel (Z.to_nat n) 0 (in_use_0 sb) u 0 Hws
              ltac:(lia) ltac:(lia) (Hscan 0)) as (Hl & _).
  rewrite Hl. unfold in_use_0. apply length_replicate.
Qed.

(** The loop body up to check 7, for an inode in use that checks 1, 2 and 5
    let pass. *)
Lemma inode_checks_to_7 fuel n nd u r :
  well_sized img sb -> type nd <> 0 -> error_check_1 nd = 0 ->
  ~ bad_address img sb nd -> ~ free_in_bitmap img sb nd ->
  yields (p <- error_check_7 nd u ;;
          let '(r, in_use) := p in
          check r ("ERROR: direct address used more than once" ++ nl) ;;;
          p <- error_check_8 img nd in_use ;;
          let '(r, in_use) := p in
          check r ("ERROR: indirect address used more than once" ++ nl) ;;;
          (if type nd =? T_DIR
           then directory_checks img sb fuel n nd
           else ret tt) ;;;
          (if type nd =? T_FILE
           then file_checks img sb n nd
           else ret tt) ;;;
          ret in_use) r ->
  yields (inode_checks img sb fuel n nd u) r.
Proof.
  intros Hws Hty H1 Hok Hfree Hk.
  unfold inode_checks. rewrite H1. apply yields_check_pass.
  destruct (Z.eqb_spec (type nd) 0) as [?|_]; [contradiction|]. cbn [negb].
  eapply yields_bind; [apply check_2_passes; assumption|].
  apply yields_check_pass.
  eapply yields_bind.
  { intros pos. destruct (check_5_cases img sb nd pos Hws Hok) as [[_ Hb]|[E _]];
      [contradiction|exact E]. }
  apply yields_check_pass. exact Hk.
Qed.

(** Check 7, on an inode that check 2 lets pass and an array [in_use] of
    [size] entries, answers 1 exactly when some non-zero entry of [addrs]
    (direct pointers and indirect pointer) is recorded in [in_use] already
    or repeats an earlier entry of the same inode; otherwise it answers 0
    and leaves the array with the entries of the pointers set to 1.  On a
    clash the run ends with [direct address used more than once]. *)
Theorem pointer_clash_check nd (u : list Z) :
  well_sized img sb -> ~ bad_address img sb nd ->
  length u = Z.to_nat (size sb) ->
  ((forall pos, exists u', eval (error_check_7 nd u) pos = Ok (1, u'))
   <-> pointer_clash nd u)
  /\ (yields (error_check_7 nd u) (Ok (0, mark_all (nonzero (pointers nd)) u))
      <-> ~ pointer_clash nd u)
  /\ (forall fuel n,
        loads img sb -> scanned_to img sb fuel n u ->
        nd = inode_at img sb n -> type nd <> 0 -> error_check_1 nd = 0 ->
        ~ free_in_bitmap img sb nd -> pointer_clash nd u ->
        xcheck fuel 2 (Some img)
        = Exited 1 ("ERROR: direct address used more than once" ++ nl)).
Proof.
  intros Hws Hok Hl.
  pose proof (checked_pointers_index nd u Hws Hok Hl) as Hin.
  assert (H1 : (forall pos, exists u', eval (error_check_7 nd u) pos = Ok (1, u'))
               <-> pointer_clash nd u).
  { split.
    - intros Hy. destruct (check_7_cases nd u 0 Hin) as [[_ Hc]|[E _]]; [exact Hc|].
      destruct (Hy 0) as [u' E']. rewrite E in E'. discriminate E'.
    - intros Hc pos. destruct (check_7_cases nd u pos Hin) as [[E _]|[_ Hn]];
        [exact E|contradiction]. }
  split; [exact H1|]. split.
  - split.
    + intros Hy Hc. destruct (proj2 H1 Hc 0) as [u' E].
      rewrite (Hy 0) in E. discriminate E.
    + intros Hn pos. destruct (check_7_cases nd u pos Hin) as [[_ Hc]|[E _]];
        [contradiction|exact E].
  - intros fuel n Hlo Hsc -> Hty Hc1 Hfree Hc.
    apply (run_stops_at img sb fuel n u); [assumption..|].
    apply scan_inode_loads; [exact Hws|apply Hsc|].
    apply inode_checks_to_7; try assumption.
    intros pos. destruct (proj2 H1 Hc pos) as [u' E7].
    destruct (eval_ok_inv _ _ _ E7) as [pos' E7'].
    rewrite (eval_bind_ok _ _ _ _ _ E7'). cbv beta iota.
    apply eval_bind_exited. unfold eval. rewrite check_stop by discriminate.
    reflexivity.
Qed.

(** Check 8, on an inode that check 2 lets pass and an array [in_use] of
    [size] entries, answers 0 and leaves the array alone when the inode has
    no indirect block.  When it has one, check 8 answers 1 exactly when some
    non-zero block number stored in the indirect block has the entry 1 in
    [in_use] or repeats an earlier block number of the block; otherwise it
    answers 0 and leaves the entries of the listed blocks set to 1.  On a
    clash, with [in_use] as check 7 of the same inode left it, the run ends
    with [indirect address used more than once]. *)
Theorem indirect_clash_check nd (u : list Z) :
  well_sized img sb -> ~ bad_address img sb nd ->
  length u = Z.to_nat (size sb) ->
  (addr nd NDIRECT = 0 -> yields (error_check_8 img nd u) (Ok (0, u)))
  /\ ((forall pos, exists u', eval (error_check_8 img nd u) pos = Ok (1, u'))
      <-> indirect_clash img nd u)
  /\ (yields (error_check_8 img nd u)
        (Ok (0, mark_all (nonzero (indirect_addrs img nd)) u))
      <-> ~ indirect_clash img nd u)
  /\ (forall fuel n u0,
        loads img sb -> scanned_to img sb fuel n u0 ->
        nd = inode_at img sb n -> type nd <> 0 -> error_check_1 nd = 0 ->
        ~ free_in_bitmap img sb nd -> ~ pointer_clash nd u0 ->
        u = mark_all (nonzero (pointers nd)) u0 ->
        indirect_clash img nd u ->
        xcheck fuel 2 (Some img)
        = Exited 1 ("ERROR: indirect address used more than once" ++ nl)).
Proof.
  intros Hws Hok Hl.
  assert (H1 : (forall pos, exists u', eval (error_check_8 img nd u) pos = Ok (1, u'))
               <-> indirect_clash img nd u).
  { split.
    - intros Hy. destruct (check_8_cases nd u 0 Hws Hok Hl) as [[_ Hc]|[E _]];
        [exact Hc|].
      destruct (Hy 0) as [u' E']. rewrite E in E'. discriminate E'.
    - intros Hc pos. destruct (check_8_cases nd u pos Hws Hok Hl) as [[E _]|[_ Hn]];
        [exact E|contradiction]. }
  split.
  { intros E0 pos. unfold error_check_8. rewrite E0. reflexivity. }
  split; [exact H1|]. split.
  - split.
    + intros Hy Hc. destruct (proj2 H1 Hc 0) as [u' E].
      rewrite (Hy 0) in E. discriminate E.
    + intros Hn pos. destruct (check_8_cases nd u pos Hws Hok Hl) as [[_ Hc]|[E _]];
        [contradiction|exact E].
  - intros fuel n u0 Hlo Hsc -> Hty Hc1 Hfree Hc7 Eu Hc.
    pose proof (scanned_length fuel n u0 Hws Hsc) as Hl0.
    apply (run_stops_at img sb fuel n u0); [assumption..|].
    apply scan_inode_loads; [exact Hws|apply Hsc|].
    apply inode_checks_to_7; try assumption.
    eapply yields_bind.
    { intros pos.
      destruct (check_7_cases (inode_at img sb n) u0 pos
                  (checked_pointers_index _ u0 Hws Hok Hl0)) as [[_ Hx]|[E _]];
        [contradiction|exact E]. }
    cbv beta iota. apply yields_check_pass. rewrite <- Eu.
    intros pos. destruct (proj2 H1 Hc pos) as [u' E8].
    destruct (eval_ok_inv _ _ _ E8) as [pos' E8'].
    rewrite (eval_bind_ok _ _ _ _ _ E8'). cbv beta iota.
    apply eval_bind_exited. unfold eval. rewrite check_stop by discriminate.
    reflexivity.
Qed.

End Marks.

(** ** Check 9: the three outcomes *)

Lemma find_seqZ_first (f : Z -> bool) n : forall m p,
  List.find f (seqZ m (Z.of_nat n)) = Some p ->
  m <= p < m + Z.of_nat n /\ f p = true /\ forall q, m <= q < p -> f q = false.
Proof.
  induction n as [|n IH]; intros m p E.
  - rewrite seqZ_nil in E by lia. discriminate E.
  - rewrite seqZ_cons in E by lia. cbn [List.find] in E.
    destruct (f m) eqn:Em.
    + inversion E. subst p. split; [lia|]. split; [exact Em|]. intros q Hq. lia.
    + replace (Z.pred (Z.of_nat (S n))) with (Z.of_nat n) in E by lia.
      apply IH in E. destruct E as (Hp & Hf & Hfirst).
      split; [lia|]. split; [exact Hf|]. intros q Hq.
      destruct (Z.eq_dec q m) as [->|?]; [exact Em|apply Hfirst; lia].
Qed.

Lemma find_seqZ_none (f : Z -> bool) m n :
  List.find f (seqZ m n) = None -> forall q, m <= q < m + n -> f q = false.
Proof.
  intros E q Hq. apply (find_none f _ E). apply list_elem_of_In, elem_of_seqZ. lia.
Qed.

Section Search.
Context `{fs_header}.
Variable img : image.
Variable sb : superblock.

(** The direct-block loop returns 0 on its first pass when the first record
    of the first block refers to the inode. *)
Lemma check_9_direct_hits d tmp fuel i pos :
  img_len img <= 2 ^ 32 -> direct_in_image img tmp = true ->
  sizeof_dirent <= BSIZE ->
  addr tmp 0 <> 0 -> inum (block_dirent img (addr tmp 0) 0) = d ->
  exists q, check_9_direct img (S fuel) d tmp i 0 pos = Ok (Return 0, q).
Proof.
  intros Hlen Hdir Hsz E0 Hm.
  cbn [check_9_direct]. change (0 <? NDIRECT) with true. cbv iota.
  destruct (Z.eqb_spec (addr tmp 0) 0) as [?|_]; [contradiction|]. cbn [negb].
  pose proof (direct_block_in_image img tmp 0 Hdir ltac:(unfold NDIRECT; lia) E0) as Hb.
  destruct (block_in_image_facts img _ Hlen Hb) as (Ha0 & Ha1 & Hu).
  pose proof BSIZE_min.
  unfold bind at 1. rewrite lseek_bind, Hu.
  unfold bind at 1. rewrite read_dirent_ok by nia.
  replace (peek img (addr tmp 0 * BSIZE) sizeof_dirent)
    with (peek img (addr tmp 0 * BSIZE + 0 * sizeof_dirent) sizeof_dirent)
    by (f_equal; lia).
  fold (block_dirent img (addr tmp 0) 0). rewrite Hm, Z.eqb_refl.
  eexists. reflexivity.
Qed.

(** Check 9 answers 0 at the first candidate directory whose first record
    refers to the inode. *)
Lemma check_9_scan_hits d p : forall fuel i pos,
  well_sized img sb -> dirs_in_image img sb = true -> sizeof_dirent <= BSIZE ->
  0 <= i <= p -> p < ninodes sb -> candidate img sb d p = true ->
  (forall q, i <= q < p -> candidate img sb d q = false) ->
  names_first img sb d p = true ->
  (Z.to_nat (p - i) + 1 < fuel)%nat ->
  eval (check_9_scan img sb fuel d i) pos = Ok 0.
Proof.
  induction fuel as [|fuel IH]; intros i pos Hws Hdirs Hsz Hi Hp Hc Hfirst Hhit Hfuel;
    [lia|].
  cbn [check_9_scan].
  destruct (Z.ltb_spec i (ninodes sb)) as [Hlt|Hge]; [|lia].
  rewrite eval_lseek.
  rewrite (eval_bind_ok _ _ _ _ _ (read_inode img sb i Hws ltac:(lia))).
  rewrite eval_after.
  change ((type (inode_at img sb i) =? T_DIR) && (d !=? i) && (i !=? 1))
    with (candidate img sb d i).
  destruct (Z.eq_dec i p) as [->|Hne].
  - rewrite Hc. unfold bind at 1.
    assert (Hdir : is_dir img sb p = true).
    { unfold candidate in Hc. apply andb_true_iff in Hc. destruct Hc as [Hc _].
      apply andb_true_iff in Hc. apply Hc. }
    pose proof (dirs_in_image_at img sb p Hdirs ltac:(lia) Hdir) as Hin.
    apply dir_in_image_facts in Hin. destruct Hin as [Hin _].
    unfold names_first, refers in Hhit. apply andb_true_iff in Hhit.
    destruct Hhit as [Hnz Hm]. apply negb_true_iff, Z.eqb_neq in Hnz.
    apply Z.eqb_eq in Hm.
    destruct fuel as [|fuel]; [lia|].
    destruct (check_9_direct_hits d (inode_at img sb p) fuel p
                (inodestart sb * BSIZE + p * sizeof_dinode + sizeof_dinode)
                ltac:(apply Hws) Hin Hsz Hnz Hm) as [q Eq].
    rewrite Eq. reflexivity.
  - rewrite (Hfirst i ltac:(lia)). unfold ret.
    rewrite (inode_index_fits img sb i Hws ltac:(lia)).
    apply IH; try assumption; [lia| |lia]. intros q Hq. apply Hfirst. lia.
Qed.

(** Check 9 has three outcomes.  With no directory in the inode table other
    than [d] and the root it answers 1.  Otherwise the first such directory
    decides: check 9 answers 0 when the first record of its first direct
    block refers to [d], and it does not return when that record refers to
    another inode or the directory has no first block: neither the other
    records and blocks of the directory nor the directories after it are
    looked at.  (A run that does not return is one that uses up any amount
    of fuel.) *)
Theorem check_9_outcomes fuel d :
  well_sized img sb -> dirs_in_image img sb = true -> sizeof_dirent <= BSIZE ->
  (Z.to_nat (ninodes sb) < fuel)%nat ->
  yields (error_check_9 img sb fuel d)
    (match first_candidate img sb d with
     | None => Ok 1
     | Some p => if names_first img sb d p then Ok 0 else OutOfFuel
     end).
Proof.
  intros Hws Hdirs Hsz Hfuel pos. unfold error_check_9.
  assert (Hn : 0 <= ninodes sb) by (destruct Hws as (_ & _ & _ & _ & _ & Hn & _); lia).
  destruct (first_candidate img sb d) as [p|] eqn:Ef; unfold first_candidate in Ef.
  - rewrite <- (Z2Nat.id (ninodes sb)) in Ef by lia.
    apply find_seqZ_first in Ef. destruct Ef as (Hp & Hc & Hfirst).
    rewrite Z2Nat.id in Hp by lia.
    destruct (names_first img sb d p) eqn:Eh.
    + apply (check_9_scan_hits d p); try assumption; lia.
    + apply (check_9_scan_spins img sb d p); try assumption; try lia.
      unfold names_first, refers in Eh. apply andb_false_iff in Eh.
      destruct Eh as [Eh|Eh].
      * left. apply negb_false_iff, Z.eqb_eq in Eh. exact Eh.
      * right. apply Z.eqb_neq in Eh. exact Eh.
  - apply check_9_scan_none; [assumption|lia| |].
    + replace (ninodes sb - 0) with (ninodes sb) by lia. exact Hfuel.
    + intros q Hq. apply (find_seqZ_none _ 0 (ninodes sb) Ef). lia.
Qed.

End Search.

(** ** Check 10: the inodes that the entries of a directory lead to *)

Section Names.
Context `{fs_header}.
Variable img : image.
Variable sb : superblock.

Lemma in_block_entries a e :
  In e (block_entries img a) <-> exists k, 0 <= k < NDIRENT /\ e = block_dirent img a k.
Proof.
  unfold block_entries. rewrite in_map_iff. split.
  - intros (k & <- & Hk). apply list_elem_of_In, elem_of_seqZ in Hk.
    exists k. split; [lia|reflexivity].
  - intros (k & Hk & ->). exists k. split; [reflexivity|].
    apply list_elem_of_In, elem_of_seqZ. lia.
Qed.

Lemma in_scanned_entries nd e :
  In e (scanned_entries img nd) <->
  In e (direct_entries img nd)
  \/ (addr nd NDIRECT <> 0
      /\ exists k, 0 <= k < NINDIRECT
           /\ In e (block_entries img (block_uint img (addr nd NDIRECT) k))).
Proof.
  unfold scanned_entries, indirect_addrs. rewrite in_app_iff, in_flat_map.
  destruct (Z.eqb_spec (addr nd NDIRECT) 0) as [E|E].
  - split; [intros [?|(a & [] & _)]; left; assumption|].
    intros [?|[? _]]; [left; assumption|contradiction].
  - split.
    + intros [?|(a & Ha & He)]; [left; assumption|]. right. split; [exact E|].
      apply in_map_iff in Ha. destruct Ha as (k & <- & Hk).
      apply list_elem_of_In, elem_of_seqZ in Hk. exists k. split; [lia|exact He].
    + intros [?|(_ & k & Hk & He)]; [left; assumption|]. right.
      exists (block_uint img (addr nd NDIRECT) k). split; [|exact He].
      apply in_map. apply list_elem_of_In, elem_of_seqZ. lia.
Qed.

Lemma names_in_table_at nd e :
  names_in_table img sb nd = true -> In e (scanned_entries img nd) ->
  inum e <> 0 -> 0 <= inum e < ninodes sb.
Proof.
  unfold names_in_table. rewrite forallb_forall. intros Hall He Hnz.
  specialize (Hall e He). apply orb_true_iff in Hall.
  destruct Hall as [E|E]; [apply Z.eqb_eq in E; contradiction|].
  apply andb_true_iff in E. destruct E as [E0 E1].
  apply Z.leb_le in E0. apply Z.ltb_lt in E1. lia.
Qed.

(** The records of one block, as check 10 goes through them. *)
Lemma check_10_block a pos :
  well_sized img sb ->
  0 <= a -> (a + 1) * BSIZE <= img_len img -> u32 (a * BSIZE) = a * BSIZE ->
  (forall e, In e (block_entries img a) -> inum e <> 0 ->
             0 <= inum e < ninodes sb) ->
  match
    for_loop (Z.to_nat (BSIZE / sizeof_dirent)) 0 tt (fun j _ =>
      lseek (u32 (a * BSIZE) + j * sizeof_dirent) ;;;
      dir_entry <- read_dirent img ;;
      if inum dir_entry !=? 0 then
        lseek (u32 (inodestart sb * BSIZE) + inum dir_entry * sizeof_dinode) ;;;
        tmp_nd <- read_dinode img ;;
        if type tmp_nd =? 0 then ret (Return 1) else ret (Next tt)
      else ret (Next tt)) pos
  with
  | Ok (Next _, _) =>
      forall e, In e (block_entries img a) -> dangling img sb e = false
  | Ok (Return r, _) =>
      r = 1 /\ exists e, In e (block_entries img a) /\ dangling img sb e = true
  | _ => False
  end.
Proof.
  intros Hws Ha0 Ha1 Hu Hnames.
  loop_inv
    (fun k (_ : unit) (p : Z) =>
       forall k', 0 <= k' < k -> dangling img sb (block_dirent img a k') = false)
    (fun r : Z =>
       r = 1 /\ exists e, In e (block_entries img a) /\ dangling img sb e = true).
  - intros e He. apply in_block_entries in He. destruct He as (k & Hk & ->).
    apply HL. pose proof (NDIRENT_fits). unfold NDIRENT in *. lia.
  - exact HL.
  - intros k' Hk'. lia.
  - pose proof NDIRENT_fits as [Hn0 Hn1]. unfold NDIRENT in *.
    pose proof sizeof_dirent_pos.
    assert (Hj' : 0 <= j < BSIZE / sizeof_dirent) by lia.
    rewrite lseek_bind, Hu.
    assert (Hr0 : 0 <= a * BSIZE + j * sizeof_dirent) by nia.
    assert (Hr1 : a * BSIZE + j * sizeof_dirent + sizeof_dirent <= img_len img)
      by nia.
    rewrite (bind_ok _ _ _ _ _ (read_dirent_ok img _ Hr0 Hr1)).
    fold (block_dirent img a j). set (e := block_dirent img a j).
    assert (Hext : dangling img sb e = false ->
              forall k', 0 <= k' < j + 1 ->
                dangling img sb (block_dirent img a k') = false).
    { intros He k' Hk'. destruct (Z.eq_dec k' j) as [->|?];
        [exact He|apply HI; lia]. }
    assert (Hine : In e (block_entries img a)).
    { apply in_block_entries. exists j. split; [exact Hj'|reflexivity]. }
    unfold dangling in *.
    destruct (Z.eqb_spec (inum e) 0) as [E|E]; cbn [negb andb] in *.
    + cbn. apply Hext. reflexivity.
    + pose proof (Hnames e Hine E) as Hin.
      rewrite lseek_bind.
      rewrite (bind_ok _ _ _ _ _ (read_inode img sb (inum e) Hws Hin)).
      destruct (type (inode_at img sb (inum e)) =? 0) eqn:Et.
      * cbn. split; [reflexivity|]. exists e. split; [exact Hine|].
        destruct (Z.eqb_spec (inum e) 0); [contradiction|].
        cbn. exact Et.
      * cbn. apply Hext. reflexivity.
Qed.

(** Check 10 answers 1 when some record it reads is in use and leads to a
    free inode, and 0 when none does. *)
Lemma check_10_cases nd pos :
  well_sized img sb -> dir_in_image img nd = true ->
  names_in_table img sb nd = true ->
  (eval (error_check_10 img sb nd) pos = Ok 1
   /\ exists e, In e (scanned_entries img nd) /\ dangling img sb e = true)
  \/ (eval (error_check_10 img sb nd) pos = Ok 0
      /\ forall e, In e (scanned_entries img nd) -> dangling img sb e = false).
Proof.
  intros Hws Hd Hnames. destruct (dir_in_image_facts img nd Hd) as [Hdir Hind].
  pose proof Hws as (Hlen & Hsz & Hfit & _).
  unfold error_check_10. rewrite eval_after.
  loop_inv
    (fun j (_ : unit) (p : Z) =>
       forall j', 0 <= j' < j -> addr nd j' <> 0 ->
         forall e, In e (block_entries img (addr nd j')) -> dangling img sb e = false)
    (fun r =>
       r = 1 /\ exists e, In e (scanned_entries img nd) /\ dangling img sb e = true).
  - assert (Hdirect : forall e, In e (direct_entries img nd) ->
                                dangling img sb e = false).
    { intros e He. apply in_direct_entries in He.
      destruct He as (j & k & Hj & Hnz & Hk & ->).
      apply (HL j); [unfold NDIRECT in *; lia|exact Hnz|].
      apply in_block_entries. exists k. split; [exact Hk|reflexivity]. }
    clear HL. rewrite eval_after.
    destruct (Z.eqb_spec (addr nd NDIRECT) 0) as [E0|E0]; cbn [negb].
    + right. split; [reflexivity|]. intros e He.
      apply in_scanned_entries in He. destruct He as [He|[? _]];
        [apply Hdirect, He|contradiction].
    + destruct (Hind E0) as [Hib Hall].
      destruct (block_in_image_facts img _ Hlen Hib) as (Hi0 & Hi1 & Hiu).
      set (ia := addr nd NDIRECT) in *.
      loop_inv
        (fun k (_ : unit) (p : Z) =>
           forall k', 0 <= k' < k ->
             forall e, In e (block_entries img (block_uint img ia k')) ->
                       dangling img sb e = false)
        (fun r =>
           r = 1 /\ exists e, In e (scanned_entries img nd)
                              /\ dangling img sb e = true).
      * right. split; [reflexivity|]. intros e He.
        apply in_scanned_entries in He.
        destruct He as [He|(_ & k & Hk & He)]; [apply Hdirect, He|].
        apply (HL k); [pose proof NINDIRECT_fits; lia|exact He].
      * left. destruct HL as [-> HL]. split; [reflexivity|exact HL].
      * intros k' Hk'. lia.
      * pose proof NINDIRECT_fits as [Hn0 Hn1].
        assert (Hj' : 0 <= j < NINDIRECT) by lia.
        rewrite lseek_bind, Hiu.
        assert (Hr0 : 0 <= ia * BSIZE + j * sizeof_uint)
          by (unfold sizeof_uint in *; nia).
        assert (Hr1 : ia * BSIZE + j * sizeof_uint + sizeof_uint <= img_len img)
          by (unfold sizeof_uint in *; nia).
        rewrite (bind_ok _ _ _ _ _ (read_uint_ok img _ Hr0 Hr1)).
        fold (block_uint img ia j). set (a := block_uint img ia j).
        assert (Hblk : 0 <= a /\ (a + 1) * BSIZE <= img_len img
                       /\ u32 (a * BSIZE) = a * BSIZE).
        { destruct (Z.eq_dec a 0) as [Ea|Ea].
          - rewrite Ea. pose proof BSIZE_min. split; [lia|]. split; [nia|].
            reflexivity.
          - apply (block_in_image_facts img a Hlen). apply Hall; assumption. }
        destruct Hblk as (Hb0 & Hb1 & Hbu).
        assert (Hsub : forall e, In e (block_entries img a) ->
                                 In e (scanned_entries img nd)).
        { intros e He. apply in_scanned_entries. right. split; [exact E0|].
          exists j. split; [exact Hj'|exact He]. }
        generalize (check_10_block a (ia * BSIZE + j * sizeof_uint + sizeof_uint)
                      Hws Hb0 Hb1 Hbu
                      (fun e He => names_in_table_at nd e Hnames (Hsub e He))).
        destruct (for_loop _ _ _ _ _) as [[[[]|r] q]| | |]; try contradiction.
        -- intros Hb k' Hk'. destruct (Z.eq_dec k' j) as [->|?];
             [exact Hb|apply HI; lia].
        -- intros (-> & e & He & Hdg). split; [reflexivity|].
           exists e. split; [apply Hsub, He|exact Hdg].
  - left. destruct HL as [-> HL]. split; [reflexivity|exact HL].
  - intros j' Hj'. lia.
  - assert (Hj' : 0 <= j < NDIRECT) by (unfold NDIRECT in *; lia).
    destruct (Z.eqb_spec (addr nd j) 0) as [E|E]; cbn [negb].
    + cbn. intros j' Hj'' Hnz. apply HI; [|exact Hnz].
      destruct (Z.eq_dec j' j) as [->|?]; [contradiction|lia].
    + pose proof (direct_block_in_image img nd j Hdir Hj' E) as Hb.
      destruct (block_in_image_facts img _ Hlen Hb) as (Hb0 & Hb1 & Hbu).
      assert (Hsub : forall e, In e (block_entries img (addr nd j)) ->
                               In e (scanned_entries img nd)).
      { intros e He. apply in_scanned_entries. left.
        apply in_block_entries in He. destruct He as (k & Hk & ->).
        apply in_direct_entries. exists j, k.
        split; [exact Hj'|]. split; [exact E|]. split; [exact Hk|reflexivity]. }
      generalize (check_10_block (addr nd j) p Hws Hb0 Hb1 Hbu
                    (fun e He => names_in_table_at nd e Hnames (Hsub e He))).
      destruct (for_loop _ _ _ _ _) as [[[[]|r] q]| | |]; try contradiction.
      * intros Hblk j' Hj'' Hnz. destruct (Z.eq_dec j' j) as [->|?];
          [exact Hblk|apply HI; [lia|exact Hnz]].
      * intros (-> & e & He & Hdg). split; [reflexivity|].
        exists e. split; [apply Hsub, He|exact Hdg].
Qed.

(** Check 10, on a directory whose blocks lie inside the image and whose
    entries lead into the inode table, answers 1 exactly when some record
    that is in use (inum not 0) leads to an inode of type 0, and 0
    otherwise.  The records are those of the direct blocks and of every
    block number stored in the indirect block: an unused (zero) slot of the
    indirect block makes check 10 read the records of block 0.  On a
    violation the run ends with
    [inode referred to in directory but marked free]. *)
Theorem dangling_name_check nd :
  well_sized img sb -> dir_in_image img nd = true ->
  names_in_table img sb nd = true ->
  (yields (error_check_10 img sb nd) (Ok 1)
   <-> exists e, In e (scanned_entries img nd) /\ dangling img sb e = true)
  /\ (yields (error_check_10 img sb nd) (Ok 0)
      <-> forall e, In e (scanned_entries img nd) -> dangling img sb e = false)
  /\ (forall fuel n u u',
        loads img sb -> scanned_to img sb fuel n u ->
        nd = inode_at img sb n -> type nd = T_DIR ->
        address_checks_pass img sb nd u u' ->
        yields (error_check_4 img nd n) (Ok 0) ->
        (n <> 1 -> yields (error_check_9 img sb fuel n) (Ok 0)
                   /\ yields (error_check_12 img sb nd n) (Ok 0)) ->
        (exists e, In e (scanned_entries img nd) /\ dangling img sb e = true) ->
        xcheck fuel 2 (Some img)
        = Exited 1 ("ERROR: inode referred to in directory but marked free" ++ nl)).
Proof.
  intros Hws Hd Hnames.
  assert (H1 : yields (error_check_10 img sb nd) (Ok 1)
               <-> exists e, In e (scanned_entries img nd)
                             /\ dangling img sb e = true).
  { split.
    - intros Hy. destruct (check_10_cases nd 0 Hws Hd Hnames) as [[_ Hx]|[E _]];
        [exact Hx|]. rewrite (Hy 0) in E. discriminate E.
    - intros (e & He & Hdg) pos.
      destruct (check_10_cases nd pos Hws Hd Hnames) as [[E _]|[_ Hn]];
        [exact E|]. rewrite (Hn e He) in Hdg. discriminate Hdg. }
  split; [exact H1|]. split.
  - split.
    + intros Hy. destruct (check_10_cases nd 0 Hws Hd Hnames) as [[E _]|[_ Hn]];
        [|exact Hn]. rewrite (Hy 0) in E. discriminate E.
    + intros Hn pos.
      destruct (check_10_cases nd pos Hws Hd Hnames) as [[_ (e & He & Hdg)]|[E _]];
        [|exact E]. rewrite (Hn e He) in Hdg. discriminate Hdg.
  - intros fuel n u u' Hlo Hsc -> Hty Hpass H4 H912 Hx.
    apply (run_stops_at img sb fuel n u); [assumption..|].
    apply scan_inode_loads; [exact Hws|apply Hsc|].
    apply (inode_checks_kind img sb fuel n _ u u'); [exact Hpass| |].
    { rewrite Hty. apply T_DIR_used. }
    rewrite Hty, Z.eqb_refl.
    apply yields_bind_exited. unfold directory_checks.
    eapply yields_bind; [exact H4|]. apply yields_check_pass.
    assert (H10 : yields (r <- error_check_10 img sb (inode_at img sb n) ;;
                          check r ("ERROR: inode referred to in directory but marked free" ++ nl))
                    (Exited 1 ("ERROR: inode referred to in directory but marked free" ++ nl))).
    { eapply yields_bind; [apply H1, Hx|]. apply yields_check_fail. discriminate. }
    destruct (Z.eqb_spec n 1) as [E1|E1]; cbn [negb].
    + apply yields_ret_bind. exact H10.
    + destruct (H912 E1) as [H9 H12].
      eapply yields_bind; [|exact H10].
      eapply yields_bind; [exact H9|]. apply yields_check_pass.
      eapply yields_bind; [exact H12|]. rewrite check_pass. apply yields_ret.
Qed.

(** An inode in use that is neither a directory nor a file (a device) goes
    through checks 1, 2, 5, 7 and 8 and no other: once these pass, the loop
    body is done with it, whatever its link count and whether or not a
    directory names it.  A file goes through check 11 besides, and through
    no search for a directory that names it: it passes exactly when its
    link count is the number of entries that lead to it, an unnamed file
    with link count 0 included. *)
Theorem checks_by_type fuel n u u' :
  well_sized img sb -> 0 <= n < ninodes sb ->
  address_checks_pass img sb (inode_at img sb n) u u' ->
  type (inode_at img sb n) <> 0 -> type (inode_at img sb n) <> T_DIR ->
  (type (inode_at img sb n) <> T_FILE ->
   yields (scan_inode img sb fuel n u) (Ok u'))
  /\ (type (inode_at img sb n) = T_FILE ->
      dirs_in_image img sb = true -> refcount img sb n < 2 ^ 31 ->
      - 2 ^ 15 <= nlink (inode_at img sb n) < 2 ^ 15 ->
      (yields (scan_inode img sb fuel n u) (Ok u')
       <-> refcount img sb n = nlink (inode_at img sb n))).
Proof.
  intros Hws Hn Hpass Hty Hnd.
  assert (Hdir : (type (inode_at img sb n) =? T_DIR) = false)
    by (apply Z.eqb_neq; exact Hnd).
  split.
  - intros Hnf. apply scan_inode_loads; [assumption..|].
    apply (inode_checks_kind img sb fuel n _ u u'); [exact Hpass|exact Hty|].
    rewrite Hdir, (proj2 (Z.eqb_neq _ _) Hnf).
    apply yields_ret_bind, yields_ret_bind, yields_ret.
  - intros Hf Hdirs Hc Hl.
    pose proof (check_11_value img sb (inode_at img sb n) n Hws Hdirs Hc Hl) as Hv.
    assert (Hbody : forall r,
              yields ((if type (inode_at img sb n) =? T_DIR
                       then directory_checks img sb fuel n (inode_at img sb n)
                       else ret tt) ;;;
                      (if type (inode_at img sb n) =? T_FILE
                       then file_checks img sb n (inode_at img sb n)
                       else ret tt) ;;;
                      ret u') r ->
              yields (scan_inode img sb fuel n u) r).
    { intros r Hr. apply scan_inode_loads; [assumption..|].
      apply (inode_checks_kind img sb fuel n _ u u'); assumption. }
    rewrite Hdir, Hf, Z.eqb_refl in Hbody.
    destruct (Z.eqb_spec (refcount img sb n) (nlink (inode_at img sb n))) as [E|E].
    + split; [intros _; exact E|]. intros _. apply Hbody.
      apply yields_ret_bind. eapply yields_bind; [|apply yields_ret].
      unfold file_checks. eapply yields_bind; [exact Hv|].
      rewrite check_pass. apply yields_ret.
    + split; [|intros E'; contradiction]. intros Hy. exfalso.
      assert (Hx : yields (scan_inode img sb fuel n u)
                     (Exited 1 ("ERROR: bad reference count for file" ++ nl))).
      { apply Hbody. apply yields_ret_bind. apply yields_bind_exited.
        unfold file_checks. eapply yields_bind; [exact Hv|].
        apply yields_check_fail. discriminate. }
      pose proof (yields_inj _ _ _ Hy Hx) as Hc'. discriminate Hc'.
Qed.

End Names.

(** ** The names of a directory that check 10 let pass *)

Section NamesPassed.
Context `{fs_header}.
Variable img : image.
Variable sb : superblock.

Lemma read_dinode_inv pos nd q :
  read_dinode img pos = Ok (nd, q) ->
  nd = load_dinode (peek img pos sizeof_dinode).
Proof.
  unfold read_dinode, bind, read.
  destruct (_ && _); [|discriminate]. unfold ret. intros E. congruence.
Qed.

(** The records of one block, when check 10 goes on after them: the inode
    of every record in use was read, at its offset from the start of the
    inode table, and is in use. *)
Lemma check_10_block_passed a pos :
  well_sized img sb -> 0 < ninodes sb ->
  0 <= a -> (a + 1) * BSIZE <= img_len img -> u32 (a * BSIZE) = a * BSIZE ->
  match
    for_loop (Z.to_nat (BSIZE / sizeof_dirent)) 0 tt (fun j _ =>
      lseek (u32 (a * BSIZE) + j * sizeof_dirent) ;;;
      dir_entry <- read_dirent img ;;
      if inum dir_entry !=? 0 then
        lseek (u32 (inodestart sb * BSIZE) + inum dir_entry * sizeof_dinode) ;;;
        tmp_nd <- read_dinode img ;;
        if type tmp_nd =? 0 then ret (Return 1) else ret (Next tt)
      else ret (Next tt)) pos
  with
  | Ok (Next _, _) =>
      forall e, In e (block_entries img a) -> dangling img sb e = false
  | Ok (Return r, _) => r = 1
  | _ => True
  end.
Proof.
  intros Hws Hn Ha0 Ha1 Hu.
  loop_inv_partial
    (fun k (_ : unit) (p : Z) =>
       forall k', 0 <= k' < k -> dangling img sb (block_dirent img a k') = false)
    (fun r : Z => r = 1).
  - intros e He. apply in_block_entries in He. destruct He as (k & Hk & ->).
    apply HL. pose proof (NDIRENT_fits). unfold NDIRENT in *. lia.
  - exact HL.
  - exact I.
  - exact I.
  - exact I.
  - intros k' Hk'. lia.
  - pose proof NDIRENT_fits as [Hn0 Hn1]. unfold NDIRENT in *.
    pose proof sizeof_dirent_pos.
    assert (Hj' : 0 <= j < BSIZE / sizeof_dirent) by lia.
    rewrite lseek_bind, Hu.
    assert (Hr0 : 0 <= a * BSIZE + j * sizeof_dirent) by nia.
    assert (Hr1 : a * BSIZE + j * sizeof_dirent + sizeof_dirent <= img_len img)
      by nia.
    rewrite (bind_ok _ _ _ _ _ (read_dirent_ok img _ Hr0 Hr1)).
    fold (block_dirent img a j). set (e := block_dirent img a j).
    assert (Hext : dangling img sb e = false ->
              forall k', 0 <= k' < j + 1 ->
                dangling img sb (block_dirent img a k') = false).
    { intros He k' Hk'. destruct (Z.eq_dec k' j) as [->|?];
        [exact He|apply HI; lia]. }
    unfold dangling in Hext.
    destruct (Z.eqb_spec (inum e) 0) as [E|E]; cbn [negb andb] in *.
    + cbn. apply Hext. reflexivity.
    + rewrite lseek_bind, (inode_table_off img sb Hws Hn).
      unfold bind at 1.
      destruct (read_dinode img _) as [[tmp q]| | |] eqn:Er; try exact I.
      apply read_dinode_inv in Er. fold (inode_at img sb (inum e)) in Er.
      subst tmp.
      destruct (type (inode_at img sb (inum e)) =? 0) eqn:Et.
      * cbn. reflexivity.
      * cbn. apply Hext. reflexivity.
Qed.

(** Check 10 answers 0 only when every record it read that is in use leads
    to an inode in use, whether or not the record leads into the inode
    table. *)
Lemma check_10_passed nd pos :
  well_sized img sb -> 0 < ninodes sb -> dir_in_image img nd = true ->
  eval (error_check_10 img sb nd) pos = Ok 0 ->
  forall e, In e (scanned_entries img nd) -> dangling img sb e = false.
Proof.
  intros Hws Hn Hd. destruct (dir_in_image_facts img nd Hd) as [Hdir Hind].
  pose proof Hws as (Hlen & Hsz & Hfit & _).
  unfold error_check_10. rewrite eval_after.
  loop_inv_partial
    (fun j (_ : unit) (p : Z) =>
       forall j', 0 <= j' < j -> addr nd j' <> 0 ->
         forall e, In e (block_entries img (addr nd j')) -> dangling img sb e = false)
    (fun r : Z => r = 1).
  - assert (Hdirect : forall e, In e (direct_entries img nd) ->
                                dangling img sb e = false).
    { intros e He. apply in_direct_entries in He.
      destruct He as (j & k & Hj & Hnz & Hk & ->).
      apply (HL j); [unfold NDIRECT in *; lia|exact Hnz|].
      apply in_block_entries. exists k. split; [exact Hk|reflexivity]. }
    clear HL. rewrite eval_after.
    destruct (Z.eqb_spec (addr nd NDIRECT) 0) as [E0|E0]; cbn [negb].
    + intros _ e He.
      apply in_scanned_entries in He. destruct He as [He|[? _]];
        [apply Hdirect, He|contradiction].
    + destruct (Hind E0) as [Hib Hall].
      destruct (block_in_image_facts img _ Hlen Hib) as (Hi0 & Hi1 & Hiu).
      set (ia := addr nd NDIRECT) in *.
      loop_inv_partial
        (fun k (_ : unit) (p : Z) =>
           forall k', 0 <= k' < k ->
             forall e, In e (block_entries img (block_uint img ia k')) ->
                       dangling img sb e = false)
        (fun r : Z => r = 1).
      * intros _ e He.
        apply in_scanned_entries in He.
        destruct He as [He|(_ & k & Hk & He)]; [apply Hdirect, He|].
        apply (HL k); [pose proof NINDIRECT_fits; lia|exact He].
      * subst. intros E. discriminate E.
      * intros E. discriminate E.
      * intros E. discriminate E.
      * intros E. discriminate E.
      * intros k' Hk'. lia.
      * pose proof NINDIRECT_fits as [Hn0 Hn1].
        assert (Hj' : 0 <= j < NINDIRECT) by lia.
        rewrite lseek_bind, Hiu.
        assert (Hr0 : 0 <= ia * BSIZE + j * sizeof_uint)
          by (unfold sizeof_uint in *; nia).
        assert (Hr1 : ia * BSIZE + j * sizeof_uint + sizeof_uint <= img_len img)
          by (unfold sizeof_uint in *; nia).
        rewrite (bind_ok _ _ _ _ _ (read_uint_ok img _ Hr0 Hr1)).
        fold (block_uint img ia j). set (a := block_uint img ia j).
        assert (Hblk : 0 <= a /\ (a + 1) * BSIZE <= img_len img
                       /\ u32 (a * BSIZE) = a * BSIZE).
        { destruct (Z.eq_dec a 0) as [Ea|Ea].
          - rewrite Ea. pose proof BSIZE_min. split; [lia|]. split; [nia|].
            reflexivity.
          - apply (block_in_image_facts img a Hlen). apply Hall; assumption. }
        destruct Hblk as (Hb0 & Hb1 & Hbu).
        generalize (check_10_block_passed a
                      (ia * BSIZE + j * sizeof_uint + sizeof_uint)
                      Hws Hn Hb0 Hb1 Hbu).
        destruct (for_loop _ _ _ _ _) as [[[[]|r] q]| | |]; try (intros; exact I).
        -- intros Hb k' Hk'. destruct (Z.eq_dec k' j) as [->|?];
             [exact Hb|apply HI; lia].
        -- intros Hr. exact Hr.
  - subst. intros E. discriminate E.
  - intros E. discriminate E.
  - intros E. discriminate E.
  - intros E. discriminate E.
  - intros j' Hj'. lia.
  - assert (Hj' : 0 <= j < NDIRECT) by (unfold NDIRECT in *; lia).
    destruct (Z.eqb_spec (addr nd j) 0) as [E|E]; cbn [negb].
    + cbn. intros j' Hj'' Hnz. apply HI; [|exact Hnz].
      destruct (Z.eq_dec j' j) as [->|?]; [contradiction|lia].
    + pose proof (direct_block_in_image img nd j Hdir Hj' E) as Hb.
      destruct (block_in_image_facts img _ Hlen Hb) as (Hb0 & Hb1 & Hbu).
      generalize (check_10_block_passed (addr nd j) p Hws Hn Hb0 Hb1 Hbu).
      destruct (for_loop _ _ _ _ _) as [[[[]|r] q]| | |]; try (intros; exact I).
      * intros Hblk j' Hj'' Hnz. destruct (Z.eq_dec j' j) as [->|?];
          [exact Hblk|apply HI; [lia|exact Hnz]].
      * intros Hr. exact Hr.
Qed.

End NamesPassed.

(** ** The diagnostics and the exit status *)

Lemma quiet_ret {A} (a : A) : quiet (ret a).
Proof. intros pos st e. discriminate. Qed.

Lemma quiet_fault {A} : quiet (@fault A).
Proof. intros pos st e. discriminate. Qed.

Lemma quiet_out_of_fuel {A} : quiet (@out_of_fuel A).
Proof. intros pos st e. discriminate. Qed.

Lemma quiet_lseek off : quiet (lseek off).
Proof. intros pos st e. discriminate. Qed.

Lemma quiet_bind {A B} (m : IO A) (k : A -> IO B) :
  quiet m -> (forall a, quiet (k a)) -> quiet (bind m k).
Proof.
  intros Hm Hk pos st e. unfold bind.
  destruct (m pos) as [[a p]| | |] eqn:E; try discriminate.
  - apply Hk.
  - destruct (Hm _ _ _ E).
Qed.

Lemma quiet_for_loop {S R} (body : Z -> S -> IO (ctl S R)) :
  (forall i s, quiet (body i s)) -> forall n i s, quiet (for_loop n i s body).
Proof.
  intros Hb n. induction n as [|n IH]; intros i s; cbn [for_loop].
  - apply quiet_ret.
  - apply quiet_bind; [apply Hb|]. intros [s'|r]; [apply IH|apply quiet_ret].
Qed.

Lemma quiet_after {S R} (m : IO (ctl S R)) (k : S -> IO R) :
  quiet m -> (forall s, quiet (k s)) -> quiet (after m k).
Proof.
  intros Hm Hk. unfold after. apply quiet_bind; [exact Hm|].
  intros [s|r]; [apply Hk|apply quiet_ret].
Qed.

Lemma quiet_read img n : quiet (read img n).
Proof. intros pos st e. unfold read. destruct (_ && _); discriminate. Qed.

Create HintDb quiet.
#[export] Hint Resolve quiet_ret quiet_fault quiet_out_of_fuel quiet_lseek quiet_read
  : quiet.

(** Takes a computation apart down to the calls it is made of. *)
Ltac quiet_step :=
  match goal with
  | |- quiet (bind _ _) => apply quiet_bind; [|intros ?]
  | |- quiet (after _ _) => apply quiet_after; [|intros ?]
  | |- quiet (for_loop _ _ _ _) => apply quiet_for_loop; intros ? ?
  | |- quiet (if ?b then _ else _) => destruct b
  | |- quiet (match ?c with Some _ => _ | None => _ end) => destruct c
  | |- quiet (match ?c with Next _ => _ | Return _ => _ end) => destruct c
  | |- quiet _ => solve [auto with quiet]
  end.

Ltac quiet_all := repeat quiet_step.

Ltac in_messages := unfold messages; cbn [In]; tauto.

Section Quiet.
Context `{fs_header}.
Variable img : image.
Variable sb : superblock.

Lemma quiet_read_uint : quiet (read_uint img).
Proof. unfold read_uint. quiet_all. Qed.

Lemma quiet_read_uchar : quiet (read_uchar img).
Proof. unfold read_uchar. quiet_all. Qed.

Lemma quiet_read_dinode : quiet (read_dinode img).
Proof. unfold read_dinode. quiet_all. Qed.

Lemma quiet_read_dirent : quiet (read_dirent img).
Proof. unfold read_dirent. quiet_all. Qed.

Lemma quiet_read_superblock : quiet (read_superblock img).
Proof. unfold read_superblock. quiet_all. Qed.

#[local] Hint Resolve quiet_read_uint quiet_read_uchar quiet_read_dinode quiet_read_dirent
  quiet_read_superblock : quiet.

Lemma quiet_check_2 nd : quiet (error_check_2 img sb nd).
Proof. unfold error_check_2. cbv zeta. quiet_all. Qed.

Lemma quiet_check_3 : quiet (error_check_3 img sb).
Proof. unfold error_check_3. quiet_all. Qed.

Lemma quiet_check_4 nd n : quiet (error_check_4 img nd n).
Proof. unfold error_check_4. quiet_all. Qed.

Lemma quiet_check_5 nd : quiet (error_check_5 img sb nd).
Proof. unfold error_check_5. quiet_all. Qed.

Lemma quiet_check_6_sweep u : forall fuel i cnt,
  quiet (check_6_sweep img sb fuel u i cnt).
Proof.
  induction fuel as [|fuel IH]; intros i cnt; cbn [check_6_sweep]; quiet_all.
Qed.

Lemma quiet_check_6 fuel u : quiet (error_check_6 img sb fuel u).
Proof.
  unfold error_check_6. quiet_all. cbv zeta. apply quiet_check_6_sweep.
Qed.

Lemma quiet_check_7 nd u : quiet (error_check_7 nd u).
Proof. unfold error_check_7. quiet_all. Qed.

Lemma quiet_check_8 nd u : quiet (error_check_8 img nd u).
Proof. unfold error_check_8. quiet_all. Qed.

Lemma quiet_check_9_direct d tmp : forall fuel i j,
  quiet (check_9_direct img fuel d tmp i j).
Proof.
  induction fuel as [|fuel IH]; intros i j; cbn [check_9_direct]; quiet_all.
Qed.

Lemma quiet_check_9_indirect d tmp : quiet (check_9_indirect img d tmp).
Proof. unfold check_9_indirect. quiet_all. Qed.

Lemma quiet_check_9_scan d : forall fuel i, quiet (check_9_scan img sb fuel d i).
Proof.
  induction fuel as [|fuel IH]; intros i; cbn [check_9_scan]; quiet_all;
    try apply quiet_check_9_direct; try apply quiet_check_9_indirect.
Qed.

Lemma quiet_check_9 fuel d : quiet (error_check_9 img sb fuel d).
Proof. apply quiet_check_9_scan. Qed.

Lemma quiet_check_10 nd : quiet (error_check_10 img sb nd).
Proof. unfold error_check_10. quiet_all. Qed.

Lemma quiet_count_refs d : quiet (count_refs img sb d).
Proof. unfold count_refs, count_block. quiet_all. Qed.

Lemma quiet_check_11 nd d : quiet (error_check_11 img sb nd d).
Proof. unfold error_check_11. quiet_all. apply quiet_count_refs. Qed.

Lemma quiet_check_12 nd d : quiet (error_check_12 img sb nd d).
Proof. unfold error_check_12. quiet_all. apply quiet_count_refs. Qed.

Lemma quiet_exits {A} (m : IO A) msgs : quiet m -> exits_with msgs m.
Proof. intros Hq pos st e E. destruct (Hq _ _ _ E). Qed.

Lemma exits_bind {A B} (m : IO A) (k : A -> IO B) msgs :
  exits_with msgs m -> (forall a, exits_with msgs (k a)) ->
  exits_with msgs (bind m k).
Proof.
  intros Hm Hk pos st e. unfold bind.
  destruct (m pos) as [[a p]| | |] eqn:E; try discriminate.
  - apply Hk.
  - intros E'. inversion E'. subst. apply (Hm _ _ _ E).
Qed.

Lemma exits_check r msg msgs : In msg msgs -> exits_with msgs (check r msg).
Proof.
  intros Hin pos st e. unfold check, die, ret.
  destruct (r !=? 0); intros E; inversion E. subst. split; [reflexivity|exact Hin].
Qed.

(** A check called from [main]: the call is quiet, and its answer decides
    whether the diagnostic is printed. *)
Lemma exits_checked {B} (m : IO Z) msg (k : IO B) :
  quiet m -> In msg messages -> exits_with messages k ->
  exits_with messages (r <- m ;; check r msg ;;; k).
Proof.
  intros Hm Hin Hk. apply exits_bind; [apply quiet_exits, Hm|]. intros r.
  apply exits_bind; [apply exits_check, Hin|]. intros _. exact Hk.
Qed.

Lemma exits_directory_checks fuel n nd :
  exits_with messages (directory_checks img sb fuel n nd).
Proof.
  unfold directory_checks.
  apply exits_checked; [apply quiet_check_4|in_messages|].
  apply exits_bind.
  - destruct (n !=? 1); [|apply quiet_exits, quiet_ret].
    apply exits_checked; [apply quiet_check_9|in_messages|].
    apply exits_bind; [apply quiet_exits, quiet_check_12|]. intros r.
    apply exits_check. in_messages.
  - intros _. apply exits_bind; [apply quiet_exits, quiet_check_10|]. intros r.
    apply exits_check. in_messages.
Qed.

Lemma exits_file_checks n nd : exits_with messages (file_checks img sb n nd).
Proof.
  unfold file_checks.
  apply exits_bind; [apply quiet_exits, quiet_check_11|]. intros r.
  apply exits_check. in_messages.
Qed.

Lemma exits_inode_checks fuel n nd u :
  exits_with messages (inode_checks img sb fuel n nd u).
Proof.
  unfold inode_checks.
  apply exits_bind; [apply exits_check; in_messages|]. intros _.
  destruct (type nd !=? 0); [|apply quiet_exits, quiet_ret].
  apply exits_checked; [apply quiet_check_2|in_messages|].
  apply exits_checked; [apply quiet_check_5|in_messages|].
  apply exits_bind; [apply quiet_exits, quiet_check_7|]. intros [r7 u1].
  apply exits_bind; [apply exits_check; in_messages|]. intros _.
  apply exits_bind; [apply quiet_exits, quiet_check_8|]. intros [r8 u2].
  apply exits_bind; [apply exits_check; in_messages|]. intros _.
  apply exits_bind.
  { destruct (type nd =? T_DIR);
      [apply exits_directory_checks|apply quiet_exits, quiet_ret]. }
  intros _. apply exits_bind.
  { destruct (type nd =? T_FILE);
      [apply exits_file_checks|apply quiet_exits, quiet_ret]. }
  intros _. apply quiet_exits, quiet_ret.
Qed.

Lemma exits_scan_inode fuel n u :
  exits_with messages (scan_inode img sb fuel n u).
Proof.
  unfold scan_inode.
  apply exits_bind; [apply quiet_exits, quiet_lseek|]. intros _.
  apply exits_bind; [apply quiet_exits, quiet_read_dinode|]. intros nd.
  apply exits_inode_checks.
Qed.

Lemma exits_scan_inodes fuel : forall n first u,
  exits_with messages (scan_inodes img sb fuel n first u).
Proof.
  induction n as [|n IH]; intros first u; cbn [scan_inodes].
  - apply quiet_exits, quiet_ret.
  - apply exits_bind; [apply exits_scan_inode|]. intros u'. apply IH.
Qed.

End Quiet.

(** The ways a run ends: with status 0 and nothing printed, or with status
    1 and one of the diagnostics of [main], a single line; [main] never
    falls off its end. *)
Lemma run_exits `{fs_header} fuel argc file :
  match xcheck fuel argc file with
  | Exited st e => (st = 0 /\ e = EmptyString) \/ (st = 1 /\ In e messages)
  | Ok _ => False
  | Fault | OutOfFuel => True
  end.
Proof.
  unfold xcheck, main.
  destruct (argc !=? 2).
  { cbn. right. split; [reflexivity|in_messages]. }
  destruct file as [img|].
  2:{ cbn. right. split; [reflexivity|in_messages]. }
  rewrite eval_lseek, eval_bind.
  destruct (read_superblock img (BSIZE * 1)) as [[sb p]| | |] eqn:Er;
    try exact I.
  2:{ destruct (quiet_read_superblock img _ _ _ Er). }
  rewrite eval_bind.
  destruct (error_check_3 img sb p) as [[r3 p3]| | |] eqn:E3; try exact I.
  2:{ destruct (quiet_check_3 img sb _ _ _ E3). }
  rewrite eval_bind.
  destruct (check r3 _ p3) as [[[] q3]| | |] eqn:Ec3; try exact I.
  2:{ right. apply (exits_check r3 _ messages) in Ec3; [exact Ec3|in_messages]. }
  rewrite eval_bind.
  destruct (scan_inodes img sb fuel _ 0 _ q3) as [[u pu]| | |] eqn:Es;
    try exact I.
  2:{ right. apply (exits_scan_inodes img sb) in Es. exact Es. }
  rewrite eval_bind.
  destruct (error_check_6 img sb fuel u pu) as [[r6 p6]| | |] eqn:E6;
    try exact I.
  2:{ destruct (quiet_check_6 img sb _ _ _ _ _ E6). }
  rewrite eval_bind.
  destruct (check r6 _ p6) as [[[] q6]| | |] eqn:Ec6; try exact I.
  - cbn. left. split; reflexivity.
  - right. apply (exits_check r6 _ messages) in Ec6; [exact Ec6|in_messages].
Qed.

(** ** What a passed scan establishes *)

Lemma eval_of_ok {A} (m : IO A) pos a pos' : m pos = Ok (a, pos') -> eval m pos = Ok a.
Proof. intros E. unfold eval. rewrite E. reflexivity. Qed.

Lemma check_passed r msg pos : eval (check r msg) pos = Ok tt -> r = 0.
Proof.
  unfold check. destruct (Z.eqb_spec r 0) as [->|?]; [reflexivity|discriminate].
Qed.

Lemma find_seqZ_is_first (f : Z -> bool) n : forall m p,
  m <= p < m + Z.of_nat n -> f p = true -> (forall q, m <= q < p -> f q = false) ->
  List.find f (seqZ m (Z.of_nat n)) = Some p.
Proof.
  induction n as [|n IH]; intros m p Hp Hf Hfirst; [lia|].
  rewrite seqZ_cons by lia. cbn [List.find].
  destruct (Z.eq_dec p m) as [->|Hne].
  - rewrite Hf. reflexivity.
  - rewrite (Hfirst m) by lia.
    replace (Z.pred (Z.of_nat (S n))) with (Z.of_nat n) by lia.
    apply IH; [lia|exact Hf|]. intros q Hq. apply Hfirst. lia.
Qed.

Section Passed.
Context `{fs_header}.
Variable img : image.
Variable sb : superblock.

(** The checks of a directory, when the loop body goes on after them. *)
Lemma directory_checks_passed fuel n nd pos pos' :
  directory_checks img sb fuel n nd pos = Ok (tt, pos') ->
  exists p4 p10,
    eval (error_check_4 img nd n) p4 = Ok 0
    /\ eval (error_check_10 img sb nd) p10 = Ok 0
    /\ (n <> 1 -> exists p9 p12,
          eval (error_check_9 img sb fuel n) p9 = Ok 0
          /\ eval (error_check_12 img sb nd n) p12 = Ok 0).
Proof.
  intros E. apply eval_of_ok in E. unfold directory_checks in E.
  apply eval_bind_inv in E. destruct E as (r4 & q4 & E4 & E).
  apply check_ok_inv in E. destruct E as [-> E].
  apply eval_bind_inv in E. destruct E as ([] & q9 & E9 & E).
  apply eval_bind_inv in E. destruct E as (r10 & q10 & E10 & E).
  apply check_passed in E. subst r10.
  exists pos, q9. split; [apply (eval_of_ok _ _ _ _ E4)|].
  split; [apply (eval_of_ok _ _ _ _ E10)|].
  intros Hne. destruct (Z.eqb_spec n 1) as [?|_]; [contradiction|].
  cbn [negb] in E9. apply eval_of_ok in E9.
  apply eval_bind_inv in E9. destruct E9 as (r9 & p9 & E9 & E).
  apply check_ok_inv in E. destruct E as [-> E].
  apply eval_bind_inv in E. destruct E as (r12 & p12 & E12 & E).
  apply check_passed in E. subst r12.
  exists q4, p9. split; [apply (eval_of_ok _ _ _ _ E9)|apply (eval_of_ok _ _ _ _ E12)].
Qed.

Lemma file_checks_passed n nd pos pos' :
  file_checks img sb n nd pos = Ok (tt, pos') ->
  eval (error_check_11 img sb nd n) pos = Ok 0.
Proof.
  intros E. apply eval_of_ok in E. unfold file_checks in E.
  apply eval_bind_inv in E. destruct E as (r & q & E11 & E).
  apply check_passed in E. subst r. apply (eval_of_ok _ _ _ _ E11).
Qed.

(** The loop body, when it goes on to the next inode: every check it made
    answered 0. *)
Lemma inode_checks_passed fuel n nd u u' pos :
  eval (inode_checks img sb fuel n nd u) pos = Ok u' ->
  error_check_1 nd = 0
  /\ ((type nd = 0 /\ u' = u)
      \/ (type nd <> 0
          /\ exists p2 p5 p7 p8 u1,
               eval (error_check_2 img sb nd) p2 = Ok 0
               /\ eval (error_check_5 img sb nd) p5 = Ok 0
               /\ eval (error_check_7 nd u) p7 = Ok (0, u1)
               /\ eval (error_check_8 img nd u1) p8 = Ok (0, u')
               /\ (type nd = T_DIR -> exists p4 p10,
                     eval (error_check_4 img nd n) p4 = Ok 0
                     /\ eval (error_check_10 img sb nd) p10 = Ok 0
                     /\ (n <> 1 -> exists p9 p12,
                           eval (error_check_9 img sb fuel n) p9 = Ok 0
                           /\ eval (error_check_12 img sb nd n) p12 = Ok 0))
               /\ (type nd = T_FILE -> exists p11,
                     eval (error_check_11 img sb nd n) p11 = Ok 0))).
Proof.
  unfold inode_checks. intros E.
  apply check_ok_inv in E. destruct E as [H1 E]. split; [exact H1|].
  destruct (Z.eqb_spec (type nd) 0) as [Hty|Hty]; cbn [negb] in E.
  - left. inversion E. split; [assumption|reflexivity].
  - right. split; [exact Hty|].
    apply eval_bind_inv in E. destruct E as (r2 & q2 & E2 & E).
    apply check_ok_inv in E. destruct E as [-> E].
    apply eval_bind_inv in E. destruct E as (r5 & q5 & E5 & E).
    apply check_ok_inv in E. destruct E as [-> E].
    apply eval_bind_inv in E. destruct E as ([r7 u1] & q7 & E7 & E).
    apply check_ok_inv in E. destruct E as [-> E].
    apply eval_bind_inv in E. destruct E as ([r8 u2] & q8 & E8 & E).
    apply check_ok_inv in E. destruct E as [-> E].
    apply eval_bind_inv in E. destruct E as ([] & qd & Ed & E).
    apply eval_bind_inv in E. destruct E as ([] & qf & Ef & E).
    inversion E. subst u2.
    exists pos, q2, q5, q7, u1.
    split; [apply (eval_of_ok _ _ _ _ E2)|].
    split; [apply (eval_of_ok _ _ _ _ E5)|].
    split; [apply (eval_of_ok _ _ _ _ E7)|].
    split; [apply (eval_of_ok _ _ _ _ E8)|].
    split.
    + intros Hd. rewrite Hd, Z.eqb_refl in Ed.
      apply directory_checks_passed in Ed. exact Ed.
    + intros Hf. rewrite Hf, Z.eqb_refl in Ef.
      apply file_checks_passed in Ef. exists qd. exact Ef.
Qed.

(** A scan that passes went through the loop body at each of its inodes,
    with the array [in_use] that the inodes before it left. *)
Lemma scan_inodes_passed fuel n : forall first u u' pos,
  well_sized img sb -> 0 <= first -> first + Z.of_nat n <= ninodes sb ->
  eval (scan_inodes img sb fuel n first u) pos = Ok u' ->
  forall i, first <= i < first + Z.of_nat n ->
    exists ui ui' p pi,
      eval (scan_inodes img sb fuel (Z.to_nat (i - first)) first u) p = Ok ui
      /\ eval (inode_checks img sb fuel i (inode_at img sb i) ui) pi = Ok ui'.
Proof.
  induction n as [|n IH]; intros first u u' pos Hws Hf Hn E i Hi; [lia|].
  cbn [scan_inodes] in E.
  apply eval_bind_inv in E. destruct E as (u1 & p1 & E1 & E).
  assert (E1' : eval (inode_checks img sb fuel first (inode_at img sb first) u)
                  (inodestart sb * BSIZE + first * sizeof_dinode + sizeof_dinode)
                = Ok u1).
  { unfold scan_inode in E1. rewrite lseek_bind in E1.
    replace (sizeof_dinode * first) with (first * sizeof_dinode) in E1 by lia.
    rewrite (bind_ok _ _ _ _ _ (read_inode img sb first Hws ltac:(lia))) in E1.
    unfold eval. rewrite E1. reflexivity. }
  destruct (Z.eq_dec i first) as [->|Hne].
  - exists u, u1, 0, (inodestart sb * BSIZE + first * sizeof_dinode + sizeof_dinode).
    split; [|exact E1'].
    replace (Z.to_nat (first - first)) with 0%nat by lia. reflexivity.
  - destruct (IH (first + 1) u1 u' p1 Hws ltac:(lia) ltac:(lia) E i ltac:(lia))
      as (ui & ui' & p & pi & Es & Ei).
    exists ui, ui', pos, pi. split; [|exact Ei].
    replace (Z.to_nat (i - first)) with (S (Z.to_nat (i - (first + 1)))) by lia.
    cbn [scan_inodes]. rewrite eval_bind, E1.
    (* the scan after the first inode gives the same from any position *)
    revert Es. clear. intros Es.
    destruct (Z.to_nat (i - (first + 1))) as [|k] eqn:Ek.
    + cbn [scan_inodes] in *. exact Es.
    + cbn [scan_inodes] in *. unfold scan_inode in *.
      rewrite eval_bind in *. rewrite lseek_bind in *. exact Es.
Qed.

End Passed.

(** ** The blocks recorded in [in_use] along the scan *)

Lemma binary_replicate n : binary (replicate n 0).
Proof.
  intros b v E. apply lookup_replicate in E. left. apply E.
Qed.

Lemma binary_mark_all l u : binary u -> binary (mark_all l u).
Proof.
  intros Hu b v E. destruct (mark_all_lookup _ _ _ _ E) as [[-> _]|[E' _]].
  - right. reflexivity.
  - apply (Hu b v E').
Qed.

Lemma NoDup_snoc {A} (l : list A) x : NoDup l -> ~ In x l -> NoDup (l ++ [x]).
Proof.
  intros Hl Hx. apply NoDup_app. split; [exact Hl|]. split.
  - intros y Hy Hy'. apply list_elem_of_In in Hy.
    apply list_elem_of_In in Hy'. destruct Hy' as [<-|[]]. contradiction.
  - apply NoDup_singleton.
Qed.

Lemma NoDup_append {A} (l k : list A) :
  NoDup l -> NoDup k -> (forall x, In x l -> ~ In x k) -> NoDup (l ++ k).
Proof.
  intros Hl Hk Hd. apply NoDup_app. split; [exact Hl|]. split; [|exact Hk].
  intros x Hx Hx'. apply list_elem_of_In in Hx. apply list_elem_of_In in Hx'.
  apply (Hd x Hx Hx').
Qed.

(** A list of values read at the indices [0 .. n - 1] has no repeated
    non-zero value when no non-zero value repeats an earlier one. *)
Lemma NoDup_nonzero_map (f : Z -> Z) n :
  (forall i j, 0 <= i < j -> j < Z.of_nat n -> f j <> 0 -> f i <> f j) ->
  NoDup (nonzero (map f (seqZ 0 (Z.of_nat n)))).
Proof.
  induction n as [|n IH]; intros Hd.
  - rewrite seqZ_nil by lia. apply NoDup_nil. reflexivity.
  - replace (Z.of_nat (S n)) with (Z.of_nat n + 1) by lia.
    rewrite seqZ_snoc, map_app, nonzero_app by lia. cbn [map].
    rewrite nonzero_single.
    assert (IH' : NoDup (nonzero (map f (seqZ 0 (Z.of_nat n))))).
    { apply IH. intros i j Hi Hj. apply Hd; lia. }
    destruct (Z.eqb_spec (f (Z.of_nat n)) 0) as [E|E]; cbn [negb].
    + rewrite app_nil_r. exact IH'.
    + apply NoDup_snoc; [exact IH'|]. intros Hin.
      apply in_nonzero in Hin. destruct Hin as [Hin _].
      apply in_map_iff in Hin. destruct Hin as (i & Hi & Hr).
      apply list_elem_of_In, elem_of_seqZ in Hr.
      apply (Hd i (Z.of_nat n)); [lia|lia|exact E|exact Hi].
Qed.

Section Blocks.
Context `{fs_header}.
Variable img : image.
Variable sb : superblock.

Lemma nonzero_inode_addrs nd :
  nonzero (inode_addrs img nd)
  = nonzero (pointers nd) ++ nonzero (indirect_addrs img nd).
Proof.
  unfold inode_addrs, pointers, direct_addrs.
  rewrite seqZ_snoc by (unfold NDIRECT; lia).
  rewrite map_app, !nonzero_app, <- app_assoc. reflexivity.
Qed.

Lemma in_pointers nd a :
  In a (nonzero (pointers nd))
  <-> exists j, 0 <= j <= NDIRECT /\ addr nd j = a /\ a <> 0.
Proof.
  rewrite in_nonzero. unfold pointers.
  rewrite in_pointers_prefix by (unfold NDIRECT; lia). split.
  - intros [(j & Hj & E) Hnz]. exists j. split; [lia|]. split; assumption.
  - intros (j & Hj & E & Hnz). split; [|exact Hnz]. exists j. split; [lia|exact E].
Qed.

Lemma in_indirect nd a :
  In a (nonzero (indirect_addrs img nd))
  <-> addr nd NDIRECT <> 0
      /\ exists k, 0 <= k < NINDIRECT /\ block_uint img (addr nd NDIRECT) k = a
                   /\ a <> 0.
Proof.
  rewrite in_nonzero. unfold indirect_addrs.
  destruct (Z.eqb_spec (addr nd NDIRECT) 0) as [E|E].
  - split; [intros [[] _]|intros [? _]; contradiction].
  - rewrite in_map_iff. split.
    + intros [(k & Hk & Hin) Hnz]. split; [exact E|].
      apply list_elem_of_In, elem_of_seqZ in Hin.
      exists k. split; [lia|]. split; assumption.
    + intros (_ & k & Hk & Ek & Hnz). split; [|exact Hnz].
      exists k. split; [exact Ek|]. apply list_elem_of_In, elem_of_seqZ. lia.
Qed.

(** The pointers of an inode that passes check 7 are new to [in_use] and
    differ from one another. *)
Lemma no_pointer_clash nd (u : list Z) :
  (forall j, 0 <= j <= NDIRECT -> addr nd j <> 0 ->
     0 < addr nd j < Z.of_nat (length u)) ->
  ~ pointer_clash nd u ->
  NoDup (nonzero (pointers nd))
  /\ forall a, In a (nonzero (pointers nd)) -> u !! Z.to_nat a = Some 0.
Proof.
  intros Hin Hno. split.
  - unfold pointers. replace (NDIRECT + 1) with (Z.of_nat 13) by reflexivity.
    apply NoDup_nonzero_map. intros i j Hi Hj Hnz E. apply Hno.
    exists j. split; [unfold NDIRECT; lia|]. split; [exact Hnz|].
    right. exists i. split; [lia|exact E].
  - intros a Ha. apply in_pointers in Ha. destruct Ha as (j & Hj & <- & Hnz).
    pose proof (Hin j Hj Hnz) as Hr.
    destruct (lookup_lt_is_Some_2 u (Z.to_nat (addr nd j)) ltac:(lia)) as [v Ev].
    rewrite Ev. f_equal. destruct (Z.eq_dec v 0) as [?|Hv]; [assumption|].
    exfalso. apply Hno. exists j. split; [exact Hj|]. split; [exact Hnz|].
    left. exists v. split; assumption.
Qed.

(** The inode that the loop body lets pass: its blocks are new to [in_use],
    differ from one another, and are recorded. *)
Lemma inode_blocks_recorded fuel i (u u' : list Z) pos :
  well_sized img sb -> 0 <= i < ninodes sb ->
  length u = Z.to_nat (size sb) -> binary u ->
  eval (inode_checks img sb fuel i (inode_at img sb i) u) pos = Ok u' ->
  u' = mark_all (inode_blocks img sb i) u
  /\ NoDup (inode_blocks img sb i)
  /\ forall a, In a (inode_blocks img sb i) ->
       0 < a < size sb /\ u !! Z.to_nat a = Some 0.
Proof.
  intros Hws Hi Hl Hbin E. unfold inode_blocks.
  apply inode_checks_passed in E. destruct E as [_ E].
  destruct E as [[Hty ->]|(Hty & p2 & p5 & p7 & p8 & u1 & E2 & _ & E7 & E8 & _)].
  - rewrite Hty. cbn. split; [reflexivity|]. split; [apply NoDup_nil; reflexivity|].
    intros a [].
  - destruct (Z.eqb_spec (type (inode_at img sb i)) 0) as [?|_]; [contradiction|].
    set (nd := inode_at img sb i) in *.
    pose proof (check_2_passed img sb nd p2 Hws E2) as Hok.
    pose proof (checked_pointers_index img sb nd u Hws Hok Hl) as Hin.
    destruct (check_7_cases nd u p7 Hin) as [[[u1' E7'] _]|[E7' Hno7]].
    { rewrite E7 in E7'. discriminate E7'. }
    assert (Eu1 : u1 = mark_all (nonzero (pointers nd)) u) by congruence.
    clear E7'.
    assert (Hl1 : length u1 = Z.to_nat (size sb))
      by (rewrite Eu1, length_mark_all; exact Hl).
    destruct (check_8_cases img sb nd u1 p8 Hws Hok Hl1) as [[[u2 E8'] _]|[E8' Hno8]].
    { rewrite E8 in E8'. discriminate E8'. }
    assert (Eu' : u' = mark_all (nonzero (indirect_addrs img nd)) u1)
      by congruence.
    clear E8'.
    destruct (no_pointer_clash nd u Hin Hno7) as [HndP HzP].
    set (P := nonzero (pointers nd)) in *.
    set (Q := nonzero (indirect_addrs img nd)) in *.
    rewrite nonzero_inode_addrs. fold P Q.
    assert (Hrange : forall a, In a (P ++ Q) -> 0 < a < Z.of_nat (length u)).
    { intros a Ha.
      apply (checked_addr_facts img sb nd u a Hws Hok Hl).
      - assert (Ha' : In a (nonzero (inode_addrs img nd)))
          by (rewrite nonzero_inode_addrs; exact Ha).
        apply in_nonzero in Ha'. apply Ha'.
      - apply in_app_or in Ha. destruct Ha as [Ha|Ha]; apply in_nonzero in Ha;
          apply Ha. }
    assert (HQ : forall a, In a Q ->
              u !! Z.to_nat a = Some 0 /\ ~ In a P).
    { intros a Ha. pose proof (Hrange a ltac:(apply in_or_app; right; exact Ha)) as Hr.
      apply in_indirect in Ha. destruct Ha as (E0 & k & Hk & <- & Hnz).
      set (a := block_uint img (addr nd NDIRECT) k) in *.
      assert (Hlt : (Z.to_nat a < length u1)%nat) by (rewrite Hl1, <- Hl; lia).
      destruct (lookup_lt_is_Some_2 _ _ Hlt) as [v Ev].
      assert (Hv1 : v <> 1).
      { intros ->. apply Hno8. split; [exact E0|]. exists k.
        split; [exact Hk|]. split; [exact Hnz|]. left. exact Ev. }
      rewrite Eu1 in Ev.
      destruct (mark_all_lookup _ _ _ _ Ev) as [[? _]|[Hu Hno]]; [contradiction|].
      split.
      - rewrite Hu. f_equal. destruct (Hbin _ _ Hu); [assumption|contradiction].
      - intros HaP. apply (Hno a HaP). reflexivity. }
    split; [rewrite Eu', Eu1, mark_all_app; reflexivity|]. split.
    + apply NoDup_append; [exact HndP| |].
      * unfold Q, indirect_addrs.
        destruct (Z.eqb_spec (addr nd NDIRECT) 0) as [E0|E0];
          [apply NoDup_nil; reflexivity|].
        pose proof NINDIRECT_fits as [Hn0 _].
        rewrite <- (Z2Nat.id NINDIRECT) by lia.
        apply NoDup_nonzero_map. intros i0 j Hi0 Hj Hnz E. apply Hno8.
        split; [exact E0|]. exists j. split; [lia|]. split; [exact Hnz|].
        right. exists i0. split; [lia|exact E].
      * intros a HaP HaQ. apply (proj2 (HQ a HaQ)). exact HaP.
    + intros a Ha. split; [rewrite <- (Z2Nat.id (size sb)), <- Hl;
                           [apply Hrange, Ha|destruct Hws as (_ & ? & _); lia]|].
      apply in_app_or in Ha. destruct Ha as [Ha|Ha]; [apply HzP, Ha|apply HQ, Ha].
Qed.

Lemma used_blocks_cons first n :
  used_blocks img sb first (Z.of_nat (S n))
  = inode_blocks img sb first ++ used_blocks img sb (first + 1) (Z.of_nat n).
Proof.
  unfold used_blocks. rewrite seqZ_cons by lia. cbn [flat_map].
  replace (Z.pred (Z.of_nat (S n))) with (Z.of_nat n) by lia.
  replace (Z.succ first) with (first + 1) by lia. reflexivity.
Qed.

(** A scan records the blocks of its inodes in use; they are new to
    [in_use] and differ from one another. *)
Lemma scan_blocks fuel n : forall first (u u' : list Z) pos,
  well_sized img sb -> 0 <= first -> first + Z.of_nat n <= ninodes sb ->
  length u = Z.to_nat (size sb) -> binary u ->
  eval (scan_inodes img sb fuel n first u) pos = Ok u' ->
  u' = mark_all (used_blocks img sb first (Z.of_nat n)) u
  /\ NoDup (used_blocks img sb first (Z.of_nat n))
  /\ forall a, In a (used_blocks img sb first (Z.of_nat n)) ->
       0 < a < size sb /\ u !! Z.to_nat a = Some 0.
Proof.
  induction n as [|n IH]; intros first u u' pos Hws Hf Hn Hl Hbin E.
  - inversion E. subst. unfold used_blocks. rewrite seqZ_nil by lia. cbn.
    split; [reflexivity|]. split; [apply NoDup_nil; reflexivity|]. intros a [].
  - cbn [scan_inodes] in E.
    apply eval_bind_inv in E. destruct E as (u1 & p1 & E1 & E).
    assert (E1' : eval (inode_checks img sb fuel first (inode_at img sb first) u)
                    (inodestart sb * BSIZE + first * sizeof_dinode + sizeof_dinode)
                  = Ok u1).
    { unfold scan_inode in E1. rewrite lseek_bind in E1.
      replace (sizeof_dinode * first) with (first * sizeof_dinode) in E1 by lia.
      rewrite (bind_ok _ _ _ _ _ (read_inode img sb first Hws ltac:(lia))) in E1.
      unfold eval. rewrite E1. reflexivity. }
    apply inode_blocks_recorded in E1'; [|assumption|lia|assumption..].
    destruct E1' as (Eu1 & Hnd1 & Hz1).
    assert (Hl1 : length u1 = Z.to_nat (size sb))
      by (rewrite Eu1, length_mark_all; exact Hl).
    assert (Hbin1 : binary u1) by (rewrite Eu1; apply binary_mark_all, Hbin).
    apply IH in E; [|assumption|lia|lia|assumption..].
    destruct E as (Eu' & Hnd & Hz).
    rewrite used_blocks_cons.
    set (B1 := inode_blocks img sb first) in *.
    set (B := used_blocks img sb (first + 1) (Z.of_nat n)) in *.
    assert (HB : forall a, In a B -> u !! Z.to_nat a = Some 0 /\ ~ In a B1).
    { intros a Ha. destruct (Hz a Ha) as [Hr Hu1]. rewrite Eu1 in Hu1.
      destruct (mark_all_lookup _ _ _ _ Hu1) as [[? _]|[Hu Hno]]; [discriminate|].
      split; [exact Hu|]. intros Ha1. apply (Hno a Ha1). reflexivity. }
    split; [rewrite Eu', Eu1, mark_all_app; reflexivity|]. split.
    + apply NoDup_append; [exact Hnd1|exact Hnd|].
      intros a Ha1 Ha. apply (proj2 (HB a Ha)). exact Ha1.
    + intros a Ha. apply in_app_or in Ha. destruct Ha as [Ha|Ha].
      * apply Hz1, Ha.
      * split; [apply Hz, Ha|apply HB, Ha].
Qed.

(** The invariant of the loop of [main] over the inodes: when the loop has
    passed the first [n] inodes, no block is listed twice among the direct
    pointers, the indirect pointers and the indirect blocks of those in
    use, within one inode or across two; every such block lies strictly
    between 0 and [size]; and [in_use] is the array of zeros with the entries
    of exactly these blocks set to 1. *)
Theorem scan_records_blocks fuel n u pos :
  well_sized img sb -> 0 <= n <= ninodes sb ->
  eval (scan_inodes img sb fuel (Z.to_nat n) 0 (in_use_0 sb)) pos = Ok u ->
  NoDup (used_blocks img sb 0 n)
  /\ (forall a, In a (used_blocks img sb 0 n) -> 0 < a < size sb)
  /\ u = mark_all (used_blocks img sb 0 n) (in_use_0 sb).
Proof.
  intros Hws Hn E.
  apply scan_blocks in E; [|assumption|lia|lia| |].
  - rewrite Z2Nat.id in E by lia. destruct E as (Eu & Hnd & Hz).
    split; [exact Hnd|]. split; [|exact Eu]. intros a Ha. apply Hz, Ha.
  - unfold in_use_0. apply length_replicate.
  - apply binary_replicate.
Qed.

End Blocks.

(** ** The end of the run: the sweep of the bitmap *)

Section SweepRun.
Context `{fs_header}.
Variable img : image.
Variable sb : superblock.

Lemma sweep_in_bounds_spec (u : list Z) :
  sweep_in_bounds img sb u = true ->
  forall k, 0 <= k < 8 * sweep_bytes sb -> swept_bit img sb k = true ->
            (Z.to_nat (bmapstart sb + 1 + k) < length u)%nat.
Proof.
  unfold sweep_in_bounds. rewrite forallb_forall. intros Hall k Hk Hs.
  specialize (Hall k ltac:(apply list_elem_of_In, elem_of_seqZ; lia)).
  rewrite Hs in Hall. cbn in Hall. apply Nat.ltb_lt in Hall. exact Hall.
Qed.

Lemma sweep_clean_spec (u : list Z) :
  sweep_clean img sb u = true
  <-> forall k, 0 <= k < 8 * sweep_bytes sb -> ~ sweep_violation img sb u k.
Proof.
  unfold sweep_clean, sweep_violation. rewrite forallb_forall. split.
  - intros Hall k Hk [Hs Hz].
    specialize (Hall k ltac:(apply list_elem_of_In, elem_of_seqZ; lia)).
    rewrite Hs, Hz in Hall. discriminate Hall.
  - intros Hno k Hk. apply list_elem_of_In, elem_of_seqZ in Hk.
    destruct (swept_bit img sb k) eqn:Es; [|reflexivity].
    destruct (u !! Z.to_nat (bmapstart sb + 1 + k)) as [v|] eqn:Ev; [|reflexivity].
    destruct (Z.eqb_spec v 0) as [->|?]; [|reflexivity].
    exfalso. apply (Hno k); [lia|]. split; [exact Es|exact Ev].
Qed.

(** Once the root check and the loop over the inodes have passed, the
    sweep of check 6 decides how the run ends: with status 0 and nothing
    printed when no bit the sweep reads is set while the entry of [in_use]
    it is held against is 0, and with status 1 and
    [bitmap marks block in use but it is not in use] otherwise. *)
Theorem bitmap_sweep_outcome fuel (u : list Z) :
  0 <= bmapstart sb /\ bmapstart sb + 1 <= size sb -> size sb + 8 <= 2 ^ 32 ->
  0 <= sweep_start sb < 2 ^ 32 -> sweep_start sb + sweep_bytes sb <= img_len img ->
  sweep_in_bounds img sb u = true -> (Z.to_nat (sweep_bytes sb) < fuel)%nat ->
  loads img sb -> yields (error_check_3 img sb) (Ok 0) ->
  yields (scan_inodes img sb fuel (Z.to_nat (ninodes sb)) 0 (in_use_0 sb)) (Ok u) ->
  xcheck fuel 2 (Some img)
  = if sweep_clean img sb u
    then Exited 0 EmptyString
    else Exited 1 ("ERROR: bitmap marks block in use but it is not in use" ++ nl).
Proof.
  intros Hb Hsize Hstart Hread Hbounds Hfuel [Hlen Hsb] H3 Hscan.
  pose proof (sweep_in_bounds_spec u Hbounds) as Hidx.
  assert (Hrun : forall r,
            (forall pos, eval (error_check_6 img sb fuel u) pos = Ok r) ->
            xcheck fuel 2 (Some img)
            = if r !=? 0
              then Exited 1 ("ERROR: bitmap marks block in use but it is not in use" ++ nl)
              else Exited 0 EmptyString).
  { intros r H6. unfold xcheck, main. cbn [Z.eqb Pos.eqb negb].
    rewrite eval_lseek. pose proof BSIZE_min as HB.
    assert (Hr : read_superblock img (BSIZE * 1)
                 = Ok (sb, BSIZE * 1 + sizeof_superblock)).
    { rewrite read_superblock_ok by lia.
      replace (BSIZE * 1) with BSIZE by lia. rewrite <- Hsb. reflexivity. }
    rewrite (eval_bind_ok _ _ _ _ _ Hr).
    eapply eval_bind_yields; [apply H3|].
    rewrite check_pass. apply yields_ret_bind.
    eapply yields_bind; [exact Hscan|].
    eapply yields_bind; [exact H6|].
    intros pos. unfold check. destruct (r !=? 0); reflexivity. }
  destruct (sweep_clean img sb u) eqn:Ec.
  - rewrite (Hrun 0); [reflexivity|]. intros pos.
    destruct (check_6_cases img sb u Hb Hsize Hstart Hread Hidx fuel pos Hfuel)
      as [[_ Hx]|[E _]]; [|exact E].
    destruct Hx as (k & Hk & Hv).
    destruct (proj1 (sweep_clean_spec u) Ec k Hk Hv).
  - rewrite (Hrun 1); [reflexivity|]. intros pos.
    destruct (check_6_cases img sb u Hb Hsize Hstart Hread Hidx fuel pos Hfuel)
      as [[E _]|[_ Hn]]; [exact E|].
    rewrite (proj2 (sweep_clean_spec u) Hn) in Ec. discriminate Ec.
Qed.

End SweepRun.

(** ** What status 0 says of the image *)

Section Accepted.
Context `{fs_header}.
Variable img : image.
Variable sb : superblock.

(** A run that ends with status 0 passed the root check, the loop over the
    inodes and the sweep of the bitmap. *)
Lemma run_accepted fuel :
  loads img sb -> xcheck fuel 2 (Some img) = Exited 0 EmptyString ->
  exists p3 pf uf p6,
    eval (error_check_3 img sb) p3 = Ok 0
    /\ eval (scan_inodes img sb fuel (Z.to_nat (ninodes sb)) 0 (in_use_0 sb)) pf
       = Ok uf
    /\ eval (error_check_6 img sb fuel uf) p6 = Ok 0.
Proof.
  intros [Hlen Hsb]. unfold xcheck, main. cbn [Z.eqb Pos.eqb negb].
  rewrite eval_lseek. pose proof BSIZE_min as HB.
  assert (Hr : read_superblock img (BSIZE * 1)
               = Ok (sb, BSIZE * 1 + sizeof_superblock)).
  { rewrite read_superblock_ok by lia.
    replace (BSIZE * 1) with BSIZE by lia. rewrite <- Hsb. reflexivity. }
  rewrite (eval_bind_ok _ _ _ _ _ Hr). rewrite eval_bind.
  destruct (error_check_3 img sb _) as [[r3 p3]| | |] eqn:E3; try discriminate.
  2:{ intros _. destruct (quiet_check_3 img sb _ _ _ E3). }
  rewrite eval_bind.
  destruct (check r3 _ p3) as [[[] q3]| | |] eqn:Ec3; try discriminate.
  2:{ intros E. apply (exits_check r3 _ messages) in Ec3; [|in_messages].
      destruct Ec3 as [Ec3 _]. congruence. }
  rewrite eval_bind. fold (in_use_0 sb).
  destruct (scan_inodes img sb fuel _ 0 _ q3) as [[u pu]| | |] eqn:Es;
    try discriminate.
  2:{ intros E. apply (exits_scan_inodes img sb) in Es. destruct Es as [Es _].
      congruence. }
  rewrite eval_bind.
  destruct (error_check_6 img sb fuel u pu) as [[r6 p6]| | |] eqn:E6;
    try discriminate.
  2:{ intros _. destruct (quiet_check_6 img sb _ _ _ _ _ E6). }
  rewrite eval_bind.
  destruct (check r6 _ p6) as [[[] q6]| | |] eqn:Ec6; try discriminate.
  2:{ intros E. apply (exits_check r6 _ messages) in Ec6; [|in_messages].
      destruct Ec6 as [Ec6 _]. congruence. }
  intros _.
  apply eval_of_ok, check_passed in Ec3. apply eval_of_ok, check_passed in Ec6.
  subst r3 r6.
  exists (BSIZE * 1 + sizeof_superblock), q3, u, pu.
  split; [apply (eval_of_ok _ _ _ _ E3)|].
  split; [apply (eval_of_ok _ _ _ _ Es)|apply (eval_of_ok _ _ _ _ E6)].
Qed.

(** What the checks that answered 0 at inode [n] say of it. *)
Lemma passed_inode_sound fuel n u u' pos :
  well_sized img sb -> dirs_in_image img sb = true -> 0 <= n < ninodes sb ->
  eval (inode_checks img sb fuel n (inode_at img sb n) u) pos = Ok u' ->
  sound_inode img sb n.
Proof.
  intros Hws Hdirs Hn E. unfold sound_inode. cbv zeta.
  set (nd := inode_at img sb n) in *.
  apply inode_checks_passed in E. destruct E as [H1 E].
  split.
  { destruct (check_1_value nd) as [[_ Hv]|[E1 _]]; [exact Hv|].
    rewrite H1 in E1. discriminate E1. }
  destruct E as [[Hty _]|(Hty & p2 & p5 & p7 & p8 & u1 & E2 & E5 & _ & _ & Hd & Hf)].
  { split; [intros ?; contradiction|]. split.
    - intros Hd. pose proof T_DIR_used. congruence.
    - intros Hf. pose proof T_FILE_used. congruence. }
  pose proof (check_2_passed img sb nd p2 Hws E2) as Hok.
  split.
  { intros _. split; [exact Hok|].
    apply (check_5_passed img sb nd p5 Hws Hok E5). }
  split.
  - intros Hdir. destruct (Hd Hdir) as (p4 & p10 & E4 & E10 & H912).
    assert (Hisdir : is_dir img sb n = true)
      by (unfold is_dir; fold nd; rewrite Hdir; apply Z.eqb_refl).
    pose proof (dirs_in_image_at img sb n Hdirs Hn Hisdir) as Hin. fold nd in Hin.
    destruct (dir_in_image_facts img nd Hin) as [Hdirect _].
    split.
    { pose proof (check_4_value img nd n ltac:(apply Hws) Hdirect p4) as Hv.
      rewrite E4 in Hv.
      destruct (Z.eqb_spec (shape_matches n (direct_entries img nd)) 2) as [E|E];
        [exact E|discriminate Hv]. }
    split.
    { intros Hnames.
      destruct (check_10_cases img sb nd p10 Hws Hin Hnames) as [[E _]|[_ Hno]];
        [|exact Hno]. rewrite E10 in E. discriminate E. }
    intros Hne. destruct (H912 Hne) as (p9 & p12 & E9 & E12). split.
    + unfold error_check_12 in E12. rewrite eval_after in E12.
      pose proof (count_refs_value img sb n p12 Hws Hdirs) as Hv.
      destruct (count_refs img sb n p12) as [[[c|r] q]| | |]; try contradiction.
      subst c. destruct (Z.eqb_spec (u32 (refcount img sb n)) 1) as [E|E];
        [exact E|discriminate E12].
    + unfold error_check_9 in E9.
      apply check_9_scan_found in E9; [|assumption|assumption|lia].
      destruct E9 as (p & Hp & Hc & Hfirst & Hnz & Hm).
      exists p. split.
      * unfold first_candidate.
        rewrite <- (Z2Nat.id (ninodes sb)) by lia.
        apply find_seqZ_is_first; [lia|exact Hc|exact Hfirst].
      * unfold names_first, refers. apply andb_true_iff. split.
        -- apply negb_true_iff, Z.eqb_neq. exact Hnz.
        -- apply Z.eqb_eq. exact Hm.
  - intros Hfile. destruct (Hf Hfile) as (p11 & E11).
    unfold error_check_11 in E11. rewrite eval_after in E11.
    pose proof (count_refs_value img sb n p11 Hws Hdirs) as Hv.
    destruct (count_refs img sb n p11) as [[[c|r] q]| | |]; try contradiction.
    subst c.
    destruct (Z.eqb_spec (u32 (refcount img sb n)) (u32 (nlink nd))) as [E|E];
      [exact E|discriminate E11].
Qed.

(** What status 0 says of an image whose directories have their blocks
    inside it: inode 1 is a directory with an entry [..] for inode 1 in its
    direct blocks; every inode of the table has a known type and, when in
    use, addresses in the data area with their bitmap bits set; a directory
    has its 2 matches for [.] and [..] in its direct blocks and, other than
    the root, one entry to its name system-wide (counted in [unsigned int])
    and the first record of the first candidate parent leading to it; a
    file has as many entries as its link count says; in a directory, no
    record that check 10 reads is in use and leads to an inode of type 0,
    whether or not it leads into the inode table (an inum beyond the table
    is read as an inode at its offset from the start of the table); no
    block is listed twice among the inodes in use; and the sweep of check 6,
    where it stays inside the image and the array, found no set bit against
    a 0 of the array that records the blocks in use. *)
Theorem accepted_image fuel :
  well_sized img sb -> loads img sb -> dirs_in_image img sb = true ->
  1 < ninodes sb ->
  xcheck fuel 2 (Some img) = Exited 0 EmptyString ->
  (type (inode_at img sb 1) = T_DIR
   /\ exists e, In e (direct_entries img (inode_at img sb 1))
                /\ is_root_parent e = true)
  /\ (forall n, 0 <= n < ninodes sb -> sound_inode img sb n)
  /\ (forall n e, 0 <= n < ninodes sb -> type (inode_at img sb n) = T_DIR ->
                  In e (scanned_entries img (inode_at img sb n)) ->
                  dangling img sb e = false)
  /\ NoDup (used_blocks img sb 0 (ninodes sb))
  /\ (size sb + 8 <= 2 ^ 32 -> 0 <= sweep_start sb < 2 ^ 32 ->
      sweep_start sb + sweep_bytes sb <= img_len img ->
      sweep_in_bounds img sb
        (mark_all (used_blocks img sb 0 (ninodes sb)) (in_use_0 sb)) = true ->
      (Z.to_nat (sweep_bytes sb) < fuel)%nat ->
      sweep_clean img sb
        (mark_all (used_blocks img sb 0 (ninodes sb)) (in_use_0 sb)) = true).
Proof.
  intros Hws Hlo Hdirs Hn Hrun.
  destruct (run_accepted fuel Hlo Hrun) as (p3 & pf & uf & p6 & E3 & Es & E6).
  assert (Hblocks : NoDup (used_blocks img sb 0 (ninodes sb))
                    /\ uf = mark_all (used_blocks img sb 0 (ninodes sb))
                              (in_use_0 sb)).
  { pose proof Es as Es'.
    apply (scan_blocks img sb fuel (Z.to_nat (ninodes sb)) 0 (in_use_0 sb) uf pf)
      in Es'; [|assumption|lia|lia| |].
    - rewrite Z2Nat.id in Es' by lia. split; apply Es'.
    - unfold in_use_0. apply length_replicate.
    - apply binary_replicate. }
  destruct Hblocks as [Hnd Euf].
  split; [|split; [|split; [|split; [exact Hnd|]]]].
  - assert (Hroot : type (inode_at img sb 1) = T_DIR ->
                    direct_in_image img (inode_at img sb 1) = true).
    { intros Hty.
      assert (Hisdir : is_dir img sb 1 = true)
        by (unfold is_dir; rewrite Hty; apply Z.eqb_refl).
      pose proof (dirs_in_image_at img sb 1 Hdirs ltac:(lia) Hisdir) as Hin.
      apply (dir_in_image_facts img _ Hin). }
    destruct (check_3_cases img sb p3 Hws Hn Hroot) as [(_ & Hty & He)|[E _]].
    + split; assumption.
    + rewrite E3 in E. discriminate E.
  - intros n Hn'.
    destruct (scan_inodes_passed img sb fuel (Z.to_nat (ninodes sb)) 0
                (in_use_0 sb) uf pf Hws ltac:(lia) ltac:(lia) Es n ltac:(lia))
      as (ui & ui' & p & pi & _ & Ei).
    apply (passed_inode_sound fuel n ui ui' pi); assumption.
  - intros n e Hn' Hdir He.
    destruct (scan_inodes_passed img sb fuel (Z.to_nat (ninodes sb)) 0
                (in_use_0 sb) uf pf Hws ltac:(lia) ltac:(lia) Es n ltac:(lia))
      as (ui & ui' & p & pi & _ & Ei).
    apply inode_checks_passed in Ei.
    destruct Ei as [_ [[Hty _]|(_ & _ & _ & _ & _ & _ & _ & _ & _ & _ & Hd & _)]].
    { pose proof T_DIR_used. congruence. }
    destruct (Hd Hdir) as (p4 & p10 & _ & E10 & _).
    assert (Hisdir : is_dir img sb n = true)
      by (unfold is_dir; rewrite Hdir; apply Z.eqb_refl).
    pose proof (dirs_in_image_at img sb n Hdirs Hn' Hisdir) as Hin.
    apply (check_10_passed img sb (inode_at img sb n) p10 Hws ltac:(lia) Hin E10).
    exact He.
  - intros Hsize Hstart Hread Hbounds Hfuel. rewrite <- Euf in *.
    assert (Hb : 0 <= bmapstart sb /\ bmapstart sb + 1 <= size sb)
      by (destruct Hws as (_ & _ & _ & Hb & _); lia).
    apply (proj2 (sweep_clean_spec img sb uf)).
    destruct (check_6_cases img sb uf Hb Hsize Hstart Hread
                (sweep_in_bounds_spec img sb uf Hbounds) fuel p6 Hfuel)
      as [[E _]|[_ Hno]]; [|exact Hno].
    rewrite E6 in E. discriminate E.
Qed.

End Accepted.


(** ** The images that end a run with status 0 *)

Lemma NoDup_nonzero_map_inv (f : Z -> Z) n :
  NoDup (nonzero (map f (seqZ 0 (Z.of_nat n)))) ->
  forall i j, 0 <= i < j -> j < Z.of_nat n -> f j <> 0 -> f i <> f j.
Proof.
  induction n as [|n IH]; intros Hnd i j Hi Hj Hnz; [lia|].
  replace (Z.of_nat (S n)) with (Z.of_nat n + 1) in Hnd by lia.
  rewrite seqZ_snoc, map_app, nonzero_app in Hnd by lia. cbn [map] in Hnd.
  rewrite nonzero_single in Hnd.
  apply NoDup_app in Hnd. destruct Hnd as (Hl & Hd & _).
  destruct (Z.eq_dec j (Z.of_nat n)) as [->|Hne].
  - destruct (Z.eqb_spec (f (Z.of_nat n)) 0) as [?|_]; [contradiction|].
    cbn [negb] in Hd. intros E.
    apply (Hd (f (Z.of_nat n))); [|apply list_elem_of_In; left; reflexivity].
    apply list_elem_of_In, in_nonzero. split; [|exact Hnz].
    rewrite <- E. apply in_map. apply list_elem_of_In, elem_of_seqZ. lia.
  - apply IH; [exact Hl|lia|lia|exact Hnz].
Qed.

Section Sound.
Context `{fs_header}.
Variable img : image.
Variable sb : superblock.

Lemma used_blocks_snoc n :
  0 <= n ->
  used_blocks img sb 0 (n + 1) = used_blocks img sb 0 n ++ inode_blocks img sb n.
Proof.
  intros Hn. unfold used_blocks. rewrite seqZ_snoc, flat_map_app by lia.
  cbn [flat_map]. rewrite app_nil_r. reflexivity.
Qed.

(** The blocks recorded in an array that holds the marks of [prefix] and no
    other. *)
Lemma marked_prefix prefix a v :
  (forall b, In b prefix -> 0 < b) -> 0 < a ->
  mark_all prefix (in_use_0 sb) !! Z.to_nat a = Some v -> v <> 0 ->
  In a prefix.
Proof.
  intros Hpos Ha Ev Hv.
  destruct (mark_all_lookup _ _ _ _ Ev) as [(_ & b & Hb & E)|[E _]].
  - pose proof (Hpos b Hb). replace a with b by lia. exact Hb.
  - unfold in_use_0 in E. apply lookup_replicate in E. destruct E as [E _].
    contradiction.
Qed.

Lemma sound_blocks_range n a :
  well_sized img sb -> sound_inode img sb n -> In a (inode_blocks img sb n) ->
  0 < a < size sb.
Proof.
  intros Hws (_ & Haddr & _) Ha. unfold inode_blocks in Ha.
  destruct (Z.eqb_spec (type (inode_at img sb n)) 0) as [?|Hty]; [destruct Ha|].
  destruct (Haddr Hty) as [Hok _].
  apply in_nonzero in Ha. destruct Ha as [Ha Hnz].
  destruct (ok_addrs img sb _ Hok a Ha) as [?|[Hlo Hhi]]; [contradiction|].
  pose proof (bitmap_end_nonneg img sb Hws). lia.
Qed.

Lemma free_inode_sound n : type (inode_at img sb n) = 0 -> sound_inode img sb n.
Proof.
  intros Hty. unfold sound_inode. cbv zeta.
  split; [left; exact Hty|]. split; [intros ?; contradiction|].
  split; intros Hk; [pose proof T_DIR_used|pose proof T_FILE_used]; congruence.
Qed.

(** The loop body at a sound inode whose blocks are new. *)
Lemma sound_inode_passes fuel n prefix :
  well_sized img sb -> dirs_in_image img sb = true -> sizeof_dirent <= BSIZE ->
  (Z.to_nat (ninodes sb) < fuel)%nat -> 0 <= n < ninodes sb ->
  sound_inode img sb n ->
  (type (inode_at img sb n) = T_DIR ->
   names_in_table img sb (inode_at img sb n) = true) ->
  (forall b, In b prefix -> 0 < b) ->
  NoDup (prefix ++ inode_blocks img sb n) ->
  yields (inode_checks img sb fuel n (inode_at img sb n)
            (mark_all prefix (in_use_0 sb)))
    (Ok (mark_all (inode_blocks img sb n) (mark_all prefix (in_use_0 sb)))).
Proof.
  intros Hws Hdirs Hsz Hfuel Hn Hsound Hnames Hpos Hnd.
  pose proof (fun a => sound_blocks_range n a Hws Hsound) as Hrange.
  destruct Hsound as (Hvalid & Haddr & Hdir & Hfile).
  set (nd := inode_at img sb n) in *.
  set (u := mark_all prefix (in_use_0 sb)) in *.
  assert (H1 : error_check_1 nd = 0).
  { destruct (check_1_value nd) as [[E _]|[_ Hx]]; [exact E|contradiction]. }
  unfold inode_blocks in *. fold nd in Hnd, Hrange |- *.
  destruct (Z.eqb_spec (type nd) 0) as [Hty|Hty].
  { unfold inode_checks. rewrite H1. apply yields_check_pass.
    rewrite (proj2 (Z.eqb_eq _ _) Hty). apply yields_ret. }
  destruct (Haddr Hty) as [Hok Hfree].
  assert (Hl : length u = Z.to_nat (size sb)).
  { unfold u. rewrite length_mark_all. unfold in_use_0. apply length_replicate. }
  rewrite nonzero_inode_addrs in Hnd, Hrange |- *.
  set (P := nonzero (pointers nd)) in *.
  set (Q := nonzero (indirect_addrs img nd)) in *.
  apply NoDup_app in Hnd. destruct Hnd as (Hndp & Hdisj & HndB).
  apply NoDup_app in HndB. destruct HndB as (HndP & HPQ & HndQ).
  assert (Hnew : forall a, In a (P ++ Q) -> ~ In a prefix).
  { intros a Ha Hp. apply (Hdisj a); apply list_elem_of_In; assumption. }
  pose proof (checked_pointers_index img sb nd u Hws Hok Hl) as Hin.
  assert (Hno7 : ~ pointer_clash nd u).
  { intros (j & Hj & Hnz & Hc).
    assert (HaP : In (addr nd j) P).
    { apply in_pointers. exists j. split; [exact Hj|]. split; [reflexivity|exact Hnz]. }
    destruct Hc as [(v & Ev & Hv)|(i & Hi & E)].
    - apply (Hnew (addr nd j)); [apply in_or_app; left; exact HaP|].
      apply (marked_prefix prefix (addr nd j) v); try assumption.
      apply Hrange, in_or_app. left. exact HaP.
    - revert E. unfold P, pointers in HndP.
      replace (NDIRECT + 1) with (Z.of_nat 13) in HndP by reflexivity.
      apply (NoDup_nonzero_map_inv _ _ HndP); [lia|unfold NDIRECT in *; lia|exact Hnz]. }
  assert (H7 : yields (error_check_7 nd u) (Ok (0, mark_all P u))).
  { intros pos. destruct (check_7_cases nd u pos Hin) as [[_ Hc]|[E _]];
      [contradiction|exact E]. }
  assert (Hl1 : length (mark_all P u) = Z.to_nat (size sb))
    by (rewrite length_mark_all; exact Hl).
  assert (Hno8 : ~ indirect_clash img nd (mark_all P u)).
  { intros (E0 & k & Hk & Hnz & Hc).
    set (a := block_uint img (addr nd NDIRECT) k) in *.
    assert (HaQ : In a Q).
    { apply in_indirect. split; [exact E0|]. exists k.
      split; [exact Hk|]. split; [reflexivity|exact Hnz]. }
    destruct Hc as [Ev|(i & Hi & E)].
    - destruct (mark_all_lookup _ _ _ _ Ev) as [(_ & b & Hb & Eb)|[Eu _]].
      + assert (b = a).
        { pose proof (Hrange b ltac:(apply in_or_app; left; exact Hb)).
          pose proof (Hrange a ltac:(apply in_or_app; right; exact HaQ)). lia. }
        subst b. apply (HPQ a); apply list_elem_of_In; assumption.
      + apply (Hnew a); [apply in_or_app; right; exact HaQ|].
        apply (marked_prefix prefix a 1); try assumption; [|lia].
        apply Hrange, in_or_app. right. exact HaQ.
    - revert E. unfold Q, indirect_addrs in HndQ.
      destruct (Z.eqb_spec (addr nd NDIRECT) 0) as [?|_]; [contradiction|].
      pose proof NINDIRECT_fits as [Hn0 _].
      rewrite <- (Z2Nat.id NINDIRECT) in HndQ by lia.
      apply (NoDup_nonzero_map_inv _ _ HndQ); [lia|lia|exact Hnz]. }
  assert (H8 : yields (error_check_8 img nd (mark_all P u))
                 (Ok (0, mark_all Q (mark_all P u)))).
  { intros pos.
    destruct (check_8_cases img sb nd (mark_all P u) pos Hws Hok Hl1)
      as [[_ Hc]|[E _]]; [contradiction|exact E]. }
  rewrite mark_all_app.
  apply inode_checks_to_7; try assumption.
  eapply yields_bind; [exact H7|]. cbv beta iota. apply yields_check_pass.
  eapply yields_bind; [exact H8|]. cbv beta iota. apply yields_check_pass.
  eapply yields_bind; [|eapply yields_bind; [|apply yields_ret]].
  - (* the checks of a directory *)
    destruct (Z.eqb_spec (type nd) T_DIR) as [Hd|_]; [|apply yields_ret].
    destruct (Hdir Hd) as (H4 & H10 & H912).
    assert (Hisdir : is_dir img sb n = true)
      by (unfold is_dir; fold nd; rewrite Hd; apply Z.eqb_refl).
    pose proof (dirs_in_image_at img sb n Hdirs Hn Hisdir) as Himg. fold nd in Himg.
    destruct (dir_in_image_facts img nd Himg) as [Hdirect _].
    unfold directory_checks.
    eapply yields_bind.
    { pose proof (check_4_value img nd n ltac:(apply Hws) Hdirect) as Hv.
      rewrite H4, Z.eqb_refl in Hv. exact Hv. }
    apply yields_check_pass.
    eapply yields_bind.
    { destruct (Z.eqb_spec n 1) as [E1|E1]; cbn [negb]; [apply yields_ret|].
      destruct (H912 E1) as (H12 & p & Hp & Hhit).
      unfold first_candidate in Hp.
      rewrite <- (Z2Nat.id (ninodes sb)) in Hp by lia.
      apply find_seqZ_first in Hp. destruct Hp as (Hpr & Hc & Hfirst).
      rewrite Z2Nat.id in Hpr by lia.
      eapply yields_bind.
      { intros pos. unfold error_check_9.
        apply (check_9_scan_hits img sb n p); try assumption; lia. }
      apply yields_check_pass.
      eapply yields_bind.
      { intros pos. unfold error_check_12. rewrite eval_after.
        pose proof (count_refs_value img sb n pos Hws Hdirs) as Hv.
        destruct (count_refs img sb n pos) as [[[c|r] q]| | |]; try contradiction.
        subst c. rewrite H12. reflexivity. }
      rewrite check_pass. apply yields_ret. }
    eapply yields_bind.
    { intros pos.
      destruct (check_10_cases img sb nd pos Hws Himg (Hnames Hd))
        as [[_ (e & He & Hdg)]|[E _]]; [|exact E].
      rewrite (H10 (Hnames Hd) e He) in Hdg. discriminate Hdg. }
    rewrite check_pass. apply yields_ret.
  - (* the check of a file *)
    destruct (Z.eqb_spec (type nd) T_FILE) as [Hf|_]; [|apply yields_ret].
    unfold file_checks. eapply yields_bind.
    { intros pos. unfold error_check_11. rewrite eval_after.
      pose proof (count_refs_value img sb n pos Hws Hdirs) as Hv.
      destruct (count_refs img sb n pos) as [[[c|r] q]| | |]; try contradiction.
      subst c. rewrite (Hfile Hf), Z.eqb_refl. reflexivity. }
    rewrite check_pass. apply yields_ret.
Qed.

Lemma all_names_in_table_at n :
  all_names_in_table img sb = true -> 0 <= n < ninodes sb ->
  type (inode_at img sb n) = T_DIR ->
  names_in_table img sb (inode_at img sb n) = true.
Proof.
  unfold all_names_in_table. rewrite forallb_forall. intros Hall Hn Hd.
  apply Hall. unfold directories. apply filter_In. split.
  - apply list_elem_of_In, elem_of_seqZ. lia.
  - unfold is_dir. rewrite Hd. apply Z.eqb_refl.
Qed.

(** The loop over sound inodes with no block listed twice. *)
Lemma sound_scan_passes fuel :
  well_sized img sb -> dirs_in_image img sb = true -> sizeof_dirent <= BSIZE ->
  all_names_in_table img sb = true ->
  (Z.to_nat (ninodes sb) < fuel)%nat ->
  (forall n, 0 <= n < ninodes sb -> sound_inode img sb n) ->
  NoDup (used_blocks img sb 0 (ninodes sb)) ->
  forall k first,
    0 <= first -> first + Z.of_nat k <= ninodes sb ->
    yields (scan_inodes img sb fuel k first
              (mark_all (used_blocks img sb 0 first) (in_use_0 sb)))
      (Ok (mark_all (used_blocks img sb 0 (first + Z.of_nat k)) (in_use_0 sb))).
Proof.
  intros Hws Hdirs Hsz Hnames Hfuel Hsound Hnd.
  induction k as [|k IH]; intros first Hf Hk.
  - cbn [scan_inodes]. replace (first + Z.of_nat 0) with first by lia.
    apply yields_ret.
  - cbn [scan_inodes].
    assert (Hpre : NoDup (used_blocks img sb 0 first ++ inode_blocks img sb first)).
    { rewrite <- used_blocks_snoc by lia.
      replace (ninodes sb) with (first + 1 + (ninodes sb - first - 1)) in Hnd by lia.
      unfold used_blocks in Hnd |- *.
      rewrite seqZ_app, flat_map_app in Hnd by lia.
      apply NoDup_app in Hnd. apply Hnd. }
    assert (Hpos : forall b, In b (used_blocks img sb 0 first) -> 0 < b).
    { intros b Hb. unfold used_blocks in Hb. apply in_flat_map in Hb.
      destruct Hb as (i & Hi & Hb). apply list_elem_of_In, elem_of_seqZ in Hi.
      apply (sound_blocks_range i b Hws (Hsound i ltac:(lia)) Hb). }
    eapply yields_bind.
    + apply scan_inode_loads; [exact Hws|lia|].
      apply (sound_inode_passes fuel first (used_blocks img sb 0 first));
        try assumption; [lia|apply Hsound; lia|].
      intros Hd. apply all_names_in_table_at; [assumption|lia|exact Hd].
    + rewrite <- mark_all_app, <- used_blocks_snoc by lia.
      replace (first + Z.of_nat (S k)) with (first + 1 + Z.of_nat k) by lia.
      apply IH; lia.
Qed.

(** The images that end a run with status 0, among those whose directories
    have their blocks inside the image and their entries leading into the
    inode table, and on which the sweep stays inside the image and the
    array: when inode 1 is a directory with an entry [..] for inode 1 in
    its direct blocks, every inode of the table is sound, no block is listed
    twice among the inodes in use and the sweep of check 6 finds no set bit
    against a 0 of the array that records these blocks, the run ends with
    status 0 and prints nothing. *)
Theorem sound_image_accepted fuel :
  well_sized img sb -> loads img sb -> dirs_in_image img sb = true ->
  1 < ninodes sb -> sizeof_dirent <= BSIZE ->
  all_names_in_table img sb = true ->
  size sb + 8 <= 2 ^ 32 -> 0 <= sweep_start sb < 2 ^ 32 ->
  sweep_start sb + sweep_bytes sb <= img_len img ->
  sweep_in_bounds img sb
    (mark_all (used_blocks img sb 0 (ninodes sb)) (in_use_0 sb)) = true ->
  (Z.to_nat (ninodes sb) < fuel)%nat -> (Z.to_nat (sweep_bytes sb) < fuel)%nat ->
  type (inode_at img sb 1) = T_DIR ->
  (exists e, In e (direct_entries img (inode_at img sb 1))
             /\ is_root_parent e = true) ->
  (forall n, 0 <= n < ninodes sb -> sound_inode img sb n) ->
  NoDup (used_blocks img sb 0 (ninodes sb)) ->
  sweep_clean img sb
    (mark_all (used_blocks img sb 0 (ninodes sb)) (in_use_0 sb)) = true ->
  xcheck fuel 2 (Some img) = Exited 0 EmptyString.
Proof.
  intros Hws Hlo Hdirs Hn Hsz Hnames Hsize Hstart Hread Hbounds Hfuel Hfuel6
    Hroot Hparent Hsound Hnd Hsweep.
  set (uf := mark_all (used_blocks img sb 0 (ninodes sb)) (in_use_0 sb)) in *.
  assert (H3 : yields (error_check_3 img sb) (Ok 0)).
  { intros pos.
    assert (Hd : type (inode_at img sb 1) = T_DIR ->
                 direct_in_image img (inode_at img sb 1) = true).
    { intros _.
      assert (Hisdir : is_dir img sb 1 = true)
        by (unfold is_dir; rewrite Hroot; apply Z.eqb_refl).
      pose proof (dirs_in_image_at img sb 1 Hdirs ltac:(lia) Hisdir) as Hin.
      apply (dir_in_image_facts img _ Hin). }
    destruct (check_3_cases img sb pos Hws Hn Hd) as [(E & _)|[_ [Hx|Hx]]];
      [exact E|contradiction|].
    destruct Hparent as (e & He & Hm). rewrite (Hx e He) in Hm. discriminate Hm. }
  assert (Hscan : yields (scan_inodes img sb fuel (Z.to_nat (ninodes sb)) 0
                            (in_use_0 sb)) (Ok uf)).
  { pose proof (sound_scan_passes fuel Hws Hdirs Hsz Hnames Hfuel Hsound Hnd
                  (Z.to_nat (ninodes sb)) 0 ltac:(lia) ltac:(lia)) as Hs.
    unfold used_blocks at 1 in Hs. rewrite seqZ_nil in Hs by lia.
    cbn [flat_map mark_all fold_left] in Hs.
    replace (0 + Z.of_nat (Z.to_nat (ninodes sb))) with (ninodes sb) in Hs by lia.
    exact Hs. }
  assert (Hb : 0 <= bmapstart sb /\ bmapstart sb + 1 <= size sb)
    by (destruct Hws as (_ & _ & _ & Hb & _); lia).
  pose proof (sweep_in_bounds_spec img sb uf Hbounds) as Hidx.
  assert (H6 : yields (error_check_6 img sb fuel uf) (Ok 0)).
  { intros pos.
    destruct (check_6_cases img sb uf Hb Hsize Hstart Hread Hidx fuel pos Hfuel6)
      as [[_ (k & Hk & Hv)]|[E _]]; [|exact E].
    destruct (proj1 (sweep_clean_spec img sb uf) Hsweep k Hk Hv). }
  destruct Hlo as [Hlen Hsb].
  unfold xcheck, main. cbn [Z.eqb Pos.eqb negb].
  rewrite eval_lseek. pose proof BSIZE_min as HB.
  assert (Hr : read_superblock img (BSIZE * 1)
               = Ok (sb, BSIZE * 1 + sizeof_superblock)).
  { rewrite read_superblock_ok by lia.
    replace (BSIZE * 1) with BSIZE by lia. rewrite <- Hsb. reflexivity. }
  rewrite (eval_bind_ok _ _ _ _ _ Hr).
  eapply eval_bind_yields; [apply H3|].
  rewrite check_pass. apply yields_ret_bind.
  eapply yields_bind; [exact Hscan|].
  eapply yields_bind; [exact H6|].
  intros pos. reflexivity.
Qed.

End Sound.
(** ** Directories below the root *)

Lemma count_one {A} (p : A -> bool) l e : In e l -> p e = true -> 1 <= count p l.
Proof.
  intros Hin Hp. unfold count.
  assert (Hf : In e (List.filter p l)) by (apply filter_In; split; assumption).
  destruct (List.filter p l); [destruct Hf|]. cbn [length]. lia.
Qed.

Lemma count_flat_map_one {A B} (p : B -> bool) (f : A -> list B) l x :
  In x l -> count p (f x) <= count p (flat_map f l).
Proof.
  induction l as [|a l IH]; intros Hin; [destruct Hin|].
  cbn [flat_map]. rewrite count_app. pose proof (count_nonneg p (f a)).
  pose proof (count_nonneg p (flat_map f l)).
  destruct Hin as [->|Hin]; [lia|]. specialize (IH Hin). lia.
Qed.

Lemma count_flat_map_two {A B} (p : B -> bool) (f : A -> list B) l x y :
  In x l -> In y l -> x <> y ->
  count p (f x) + count p (f y) <= count p (flat_map f l).
Proof.
  induction l as [|a l IH]; intros Hx Hy Hne; [destruct Hx|].
  cbn [flat_map]. rewrite count_app. pose proof (count_nonneg p (f a)).
  destruct Hx as [->|Hx], Hy as [->|Hy].
  - contradiction.
  - pose proof (count_flat_map_one p f l y Hy). lia.
  - pose proof (count_flat_map_one p f l x Hx). lia.
  - specialize (IH Hx Hy Hne). lia.
Qed.

Section Subdirectories.
Context `{fs_header}.
Variable img : image.
Variable sb : superblock.

Lemma in_directories n :
  0 <= n < ninodes sb -> is_dir img sb n = true -> In n (directories img sb).
Proof.
  intros Hn Hd. unfold directories. apply filter_In. split; [|exact Hd].
  apply list_elem_of_In, elem_of_seqZ. lia.
Qed.

(** A directory below the root that holds an entry for itself, as its [.]
    is, never lets the run end with status 0.  For check 9 to answer 0 some
    other directory must name it, in the first record of its first block;
    with the entry of the directory itself that makes two entries, and check
    12 asks for one.  (The entries are counted in [unsigned int]; fewer
    than [2^32] lead to the directory.) *)
Theorem subdirectory_never_accepted fuel d :
  well_sized img sb -> loads img sb -> dirs_in_image img sb = true ->
  1 < ninodes sb -> sizeof_dirent <= BSIZE ->
  0 <= d < ninodes sb -> d <> 1 -> type (inode_at img sb d) = T_DIR ->
  (exists e, In e (dir_entries img (inode_at img sb d)) /\ refers d e = true) ->
  refcount img sb d < 2 ^ 32 ->
  xcheck fuel 2 (Some img) <> Exited 0 EmptyString.
Proof.
  intros Hws Hlo Hdirs Hn Hsz Hd Hd1 Hty (e & He & Hre) Hc Hrun.
  destruct (run_accepted img sb fuel Hlo Hrun) as (p3 & pf & uf & p6 & _ & Es & _).
  destruct (scan_inodes_passed img sb fuel (Z.to_nat (ninodes sb)) 0
              (in_use_0 sb) uf pf Hws ltac:(lia) ltac:(lia) Es d ltac:(lia))
    as (ui & ui' & p & pi & _ & Ei).
  pose proof (passed_inode_sound img sb fuel d ui ui' pi Hws Hdirs Hd Ei) as Hsound.
  destruct Hsound as (_ & _ & Hdir & _).
  destruct (Hdir Hty) as (_ & _ & H912).
  destruct (H912 Hd1) as (H12 & q & Hq & Hhit).
  pose proof (refcount_nonneg img sb d) as H0.
  rewrite u32_small in H12 by lia.
  (* the first candidate is another directory, and names [d] too *)
  unfold first_candidate in Hq.
  rewrite <- (Z2Nat.id (ninodes sb)) in Hq by lia.
  apply find_seqZ_first in Hq. destruct Hq as (Hqr & Hcand & _).
  rewrite Z2Nat.id in Hqr by lia.
  unfold candidate in Hcand. apply andb_true_iff in Hcand.
  destruct Hcand as [Hcand _]. apply andb_true_iff in Hcand.
  destruct Hcand as [Hqdir Hqd]. apply negb_true_iff, Z.eqb_neq in Hqd.
  unfold names_first in Hhit. apply andb_true_iff in Hhit.
  destruct Hhit as [Hnz Hre']. apply negb_true_iff, Z.eqb_neq in Hnz.
  assert (Hfirst : In (block_dirent img (addr (inode_at img sb q) 0) 0)
                     (dir_entries img (inode_at img sb q))).
  { unfold dir_entries. apply in_or_app. left. apply in_direct_entries.
    exists 0, 0. split; [unfold NDIRECT; lia|]. split; [exact Hnz|].
    split; [|reflexivity]. unfold NDIRENT. pose proof sizeof_dirent_pos.
    split; [lia|]. apply Z.div_str_pos. lia. }
  assert (Hddir : is_dir img sb d = true)
    by (unfold is_dir; rewrite Hty; apply Z.eqb_refl).
  pose proof (count_flat_map_two (refers d)
                (fun n => dir_entries img (inode_at img sb n))
                (directories img sb) d q
                (in_directories d Hd Hddir) (in_directories q ltac:(lia) Hqdir) Hqd)
    as Htwo.
  cbv beta in Htwo.
  pose proof (count_one (refers d) _ e He Hre) as Hown.
  pose proof (count_one (refers d) _ _ Hfirst Hre') as Hother.
  unfold refcount, all_entries in H12. lia.
Qed.

End Subdirectories.

(** ** Reads and array accesses stay in bounds *)

Lemma safe_ret {A} (a : A) : safe (ret a).
Proof. intros pos. discriminate. Qed.

Lemma safe_check r msg : safe (check r msg).
Proof. intros pos. unfold check, die, ret. destruct (r !=? 0); discriminate. Qed.

Lemma safe_bind {A B} (m : IO A) (k : A -> IO B) :
  safe m -> (forall a pos q, m pos = Ok (a, q) -> safe (k a)) -> safe (bind m k).
Proof.
  intros Hm Hk pos. unfold bind.
  destruct (m pos) as [[a q]| | |] eqn:E; try discriminate.
  - apply (Hk a pos q E).
  - destruct (Hm _ E).
Qed.

(** A computation that answers from every position is safe. *)
Lemma answers_safe {A} (m : IO A) :
  (forall pos, exists a, eval m pos = Ok a) -> safe m.
Proof.
  intros Hm pos E. destruct (Hm pos) as [a Ea]. unfold eval in Ea.
  rewrite E in Ea. discriminate Ea.
Qed.

Lemma check_went_on r msg pos q : check r msg pos = Ok (tt, q) -> r = 0.
Proof. intros E. apply (check_passed r msg pos). apply (eval_of_ok _ _ _ _ E). Qed.

(** A check of [main]: the call, the diagnostic, and what follows when the
    call answered 0. *)
Lemma safe_checked {B} (m : IO Z) msg (k : IO B) :
  safe m -> (forall pos, eval m pos = Ok 0 -> safe k) ->
  safe (r <- m ;; check r msg ;;; k).
Proof.
  intros Hm Hk. apply safe_bind; [exact Hm|]. intros r pos q E.
  apply safe_bind; [apply safe_check|]. intros [] p' q' Ec.
  apply check_went_on in Ec. subst r. apply (Hk pos). apply (eval_of_ok _ _ _ _ E).
Qed.

Section Safe.
Context `{fs_header}.
Variable img : image.
Variable sb : superblock.

(** The direct-block loop of check 9 reads inside the blocks of the
    directory. *)
Lemma check_9_direct_safe d tmp : forall fuel i,
  img_len img <= 2 ^ 32 -> direct_in_image img tmp = true ->
  sizeof_dirent <= BSIZE ->
  safe (check_9_direct img fuel d tmp i 0).
Proof.
  induction fuel as [|fuel IH]; intros i Hlen Hdir Hsz pos; [discriminate|].
  cbn [check_9_direct]. change (0 <? NDIRECT) with true. cbv iota.
  destruct (Z.eqb_spec (addr tmp 0) 0) as [E0|E0]; cbn [negb].
  - unfold bind, ret. apply IH; assumption.
  - pose proof (direct_block_in_image img tmp 0 Hdir ltac:(unfold NDIRECT; lia) E0)
      as Hb.
    destruct (block_in_image_facts img _ Hlen Hb) as (Ha0 & Ha1 & Hu).
    pose proof BSIZE_min.
    unfold bind at 1. rewrite lseek_bind, Hu.
    unfold bind at 1. rewrite read_dirent_ok by nia.
    destruct (inum _ =? d); unfold ret; [discriminate|].
    apply IH; assumption.
Qed.

Lemma check_9_scan_safe d : forall fuel i,
  well_sized img sb -> dirs_in_image img sb = true -> sizeof_dirent <= BSIZE ->
  0 <= i -> safe (check_9_scan img sb fuel d i).
Proof.
  induction fuel as [|fuel IH]; intros i Hws Hdirs Hsz Hi pos; [discriminate|].
  cbn [check_9_scan].
  destruct (Z.ltb_spec i (ninodes sb)) as [Hlt|Hge]; [|discriminate].
  rewrite lseek_bind.
  rewrite (bind_ok _ _ _ _ _ (read_inode img sb i Hws ltac:(lia))).
  unfold after. unfold bind at 1.
  change ((type (inode_at img sb i) =? T_DIR) && (d !=? i) && (i !=? 1))
    with (candidate img sb d i).
  destruct (candidate img sb d i) eqn:Ec.
  - assert (Hdir : is_dir img sb i = true).
    { unfold candidate in Ec. apply andb_true_iff in Ec. destruct Ec as [Ec _].
      apply andb_true_iff in Ec. apply Ec. }
    pose proof (dirs_in_image_at img sb i Hdirs ltac:(lia) Hdir) as Hin.
    apply dir_in_image_facts in Hin. destruct Hin as [Hin _].
    unfold bind at 1.
    destruct (check_9_direct img fuel d (inode_at img sb i) i 0 _)
      as [[c q]| | |] eqn:Ed; try discriminate.
    + apply check_9_direct_inv in Ed; [|apply Hws|exact Hin].
      destruct Ed as (-> & _). discriminate.
    + destruct (check_9_direct_safe d (inode_at img sb i) fuel i
                  ltac:(apply Hws) Hin Hsz _ Ed).
  - unfold ret. apply IH; try assumption. unfold u32.
    apply Z.mod_pos_bound. lia.
Qed.

(** The checks of a directory and of a file. *)
Lemma directory_checks_safe fuel n :
  well_sized img sb -> dirs_in_image img sb = true -> sizeof_dirent <= BSIZE ->
  all_names_in_table img sb = true ->
  0 <= n < ninodes sb -> type (inode_at img sb n) = T_DIR ->
  safe (directory_checks img sb fuel n (inode_at img sb n)).
Proof.
  intros Hws Hdirs Hsz Hnames Hn Hd.
  assert (Hisdir : is_dir img sb n = true)
    by (unfold is_dir; rewrite Hd; apply Z.eqb_refl).
  pose proof (dirs_in_image_at img sb n Hdirs Hn Hisdir) as Himg.
  destruct (dir_in_image_facts img _ Himg) as [Hdirect _].
  assert (H12 : safe (error_check_12 img sb (inode_at img sb n) n)).
  { apply answers_safe. intros pos. unfold error_check_12. rewrite eval_after.
    pose proof (count_refs_value img sb n pos Hws Hdirs) as Hv.
    destruct (count_refs img sb n pos) as [[[c|r] q]| | |]; try contradiction.
    destruct (c !=? 1); eexists; reflexivity. }
  unfold directory_checks.
  apply safe_checked.
  { apply answers_safe. intros pos. eexists.
    apply (check_4_value img _ n ltac:(apply Hws) Hdirect). }
  intros _ _. apply safe_bind.
  { destruct (n !=? 1); [|apply safe_ret].
    apply safe_checked.
    { unfold error_check_9. apply check_9_scan_safe; try assumption. lia. }
    intros _ _. apply safe_bind; [exact H12|]. intros r p q _. apply safe_check. }
  intros _ _ _ _. apply safe_bind; [|intros r p q _; apply safe_check].
  apply answers_safe. intros pos.
  destruct (check_10_cases img sb _ pos Hws Himg
              (all_names_in_table_at img sb n Hnames Hn Hd)) as [[E _]|[E _]];
    eexists; exact E.
Qed.

Lemma file_checks_safe n :
  well_sized img sb -> dirs_in_image img sb = true ->
  safe (file_checks img sb n (inode_at img sb n)).
Proof.
  intros Hws Hdirs. unfold file_checks.
  apply safe_bind; [|intros r p q _; apply safe_check].
  apply answers_safe. intros pos. unfold error_check_11. rewrite eval_after.
  pose proof (count_refs_value img sb n pos Hws Hdirs) as Hv.
  destruct (count_refs img sb n pos) as [[[c|r] q]| | |]; try contradiction.
  destruct (c !=? _); eexists; reflexivity.
Qed.

(** The loop body. *)
Lemma inode_checks_safe fuel n (u : list Z) :
  well_sized img sb -> dirs_in_image img sb = true -> sizeof_dirent <= BSIZE ->
  all_names_in_table img sb = true ->
  0 <= n < ninodes sb -> length u = Z.to_nat (size sb) ->
  safe (inode_checks img sb fuel n (inode_at img sb n) u).
Proof.
  intros Hws Hdirs Hsz Hnames Hn Hl. set (nd := inode_at img sb n).
  unfold inode_checks.
  apply safe_bind; [apply safe_check|]. intros _ _ _ _.
  destruct (type nd !=? 0); [|apply safe_ret].
  apply safe_checked.
  { apply answers_safe. intros pos.
    destruct (check_2_cases img sb nd pos Hws) as [[E _]|[E _]]; eexists; exact E. }
  intros p2 E2. pose proof (check_2_passed img sb nd p2 Hws E2) as Hok.
  apply safe_checked.
  { apply answers_safe. intros pos.
    destruct (check_5_cases img sb nd pos Hws Hok) as [[E _]|[E _]];
      eexists; exact E. }
  intros _ _.
  pose proof (checked_pointers_index img sb nd u Hws Hok Hl) as Hin.
  apply safe_bind.
  { apply answers_safe. intros pos.
    destruct (check_7_cases nd u pos Hin) as [[[u' E] _]|[E _]];
      eexists; exact E. }
  intros [r7 u1] p7 q7 E7.
  apply safe_bind; [apply safe_check|]. intros [] pc qc Ec.
  apply check_went_on in Ec. subst r7. apply eval_of_ok in E7.
  assert (Hl1 : length u1 = Z.to_nat (size sb)).
  { destruct (check_7_cases nd u p7 Hin) as [[[u' E] _]|[E _]].
    - rewrite E7 in E. discriminate E.
    - assert (Eu : u1 = mark_all (nonzero (pointers nd)) u) by congruence.
      rewrite Eu, length_mark_all. exact Hl. }
  apply safe_bind.
  { apply answers_safe. intros pos.
    destruct (check_8_cases img sb nd u1 pos Hws Hok Hl1) as [[[u' E] _]|[E _]];
      eexists; exact E. }
  intros [r8 u2] p8 q8 _.
  apply safe_bind; [apply safe_check|]. intros _ _ _ _.
  apply safe_bind.
  { destruct (Z.eqb_spec (type nd) T_DIR) as [Hd|_]; [|apply safe_ret].
    apply directory_checks_safe; assumption. }
  intros _ _ _ _. apply safe_bind; [|intros; apply safe_ret].
  destruct (type nd =? T_FILE); [|apply safe_ret].
  apply file_checks_safe; assumption.
Qed.

Lemma scan_inodes_safe fuel : forall k first (u : list Z),
  well_sized img sb -> dirs_in_image img sb = true -> sizeof_dirent <= BSIZE ->
  all_names_in_table img sb = true ->
  0 <= first -> first + Z.of_nat k <= ninodes sb ->
  length u = Z.to_nat (size sb) ->
  safe (scan_inodes img sb fuel k first u).
Proof.
  induction k as [|k IH]; intros first u Hws Hdirs Hsz Hnames Hf Hk Hl;
    cbn [scan_inodes]; [apply safe_ret|].
  apply safe_bind.
  - intros pos. unfold scan_inode. rewrite lseek_bind.
    replace (sizeof_dinode * first) with (first * sizeof_dinode) by lia.
    rewrite (bind_ok _ _ _ _ _ (read_inode img sb first Hws ltac:(lia))).
    apply inode_checks_safe; try assumption. lia.
  - intros u1 pos q E1. apply IH; try assumption; [lia|lia|].
    assert (E : eval (scan_inodes img sb fuel 1 first u) pos = Ok u1).
    { cbn [scan_inodes]. rewrite (eval_bind_ok _ _ _ _ _ E1). reflexivity. }
    apply scan_inodes_marks in E; [|assumption|lia|lia].
    destruct E as [E _]. rewrite E. exact Hl.
Qed.

(** The sweep of check 6, for any amount of fuel. *)
Lemma check_6_sweep_safe (u : list Z) :
  0 <= bmapstart sb /\ bmapstart sb + 1 <= size sb -> size sb + 8 <= 2 ^ 32 ->
  0 <= sweep_start sb -> sweep_start sb + sweep_bytes sb <= img_len img ->
  sweep_in_bounds img sb u = true ->
  forall fuel m pos,
    0 <= m <= sweep_bytes sb -> pos = sweep_start sb + m ->
    check_6_sweep img sb fuel u (bmapstart sb + 1 + 8 * m)
      (bmapstart sb + 1 + 8 * m) pos <> Fault.
Proof.
  intros Hb Hsize Hstart Hread Hbounds.
  pose proof (sweep_in_bounds_spec img sb u Hbounds) as Hidx.
  induction fuel as [|fuel IH]; intros m pos Hm ->; [discriminate|].
  cbn [check_6_sweep].
  destruct (Z.ltb_spec (bmapstart sb + 1 + 8 * m) (size sb)) as [Hlt|Hge];
    [|discriminate].
  assert (Hm' : m < sweep_bytes sb) by (apply sweep_bytes_spec; lia).
  assert (Hp0 : 0 <= sweep_start sb + m) by lia.
  assert (Hp1 : sweep_start sb + m + 1 <= img_len img) by lia.
  rewrite (bind_ok _ _ _ _ _ (read_uchar_ok img _ Hp0 Hp1)).
  unfold after, bind.
  set (bits := byte_val (img_byte img (sweep_start sb + m))).
  loop_inv
    (fun o cnt (p : Z) =>
       p = sweep_start sb + m + 1 /\ cnt = bmapstart sb + 1 + 8 * m + o)
    (fun r : Z => True).
  - destruct HL as (-> & ->).
    replace (u32 (bmapstart sb + 1 + 8 * m + 8)) with (bmapstart sb + 1 + 8 * (m + 1))
      by (rewrite u32_small by lia; lia).
    replace (bmapstart sb + 1 + 8 * m + (0 + Z.of_nat 8))
      with (bmapstart sb + 1 + 8 * (m + 1)) by lia.
    apply IH; lia.
  - discriminate.
  - split; [reflexivity|lia].
  - destruct HI as (-> & ->).
    assert (Hj' : 0 <= j < 8) by lia.
    assert (Hk8 : (8 * m + j) / 8 = m /\ (8 * m + j) mod 8 = j).
    { split.
      - rewrite Z.add_comm, Z.mul_comm, Z.div_add by lia.
        rewrite Z.div_small by lia. lia.
      - rewrite Z.add_comm, Z.mul_comm, Z.mod_add by lia.
        apply Z.mod_small. lia. }
    destruct Hk8 as [Hq Hr].
    assert (Hbit : (Z.shiftr bits j mod 2 !=? 0) = swept_bit img sb (8 * m + j)).
    { rewrite shifted_bit by lia. unfold swept_bit. rewrite Hq, Hr. reflexivity. }
    rewrite Hbit.
    assert (Hnext : u32 (bmapstart sb + 1 + 8 * m + j + 1)
                    = bmapstart sb + 1 + 8 * m + (j + 1)).
    { rewrite u32_small by lia. lia. }
    destruct (swept_bit img sb (8 * m + j)) eqn:Es.
    + pose proof (Hidx (8 * m + j) ltac:(lia) Es) as Hlt'.
      replace (bmapstart sb + 1 + (8 * m + j)) with (bmapstart sb + 1 + 8 * m + j)
        in Hlt' by lia.
      destruct (lookup_lt_is_Some_2 u _ Hlt') as [v Ev]. rewrite Ev.
      destruct (v =? 0); cbn; [exact I|].
      rewrite Hnext. split; reflexivity.
    + cbn. rewrite Hnext. split; reflexivity.
Qed.

(** [main] on an image stays in bounds. *)
Lemma main_safe fuel :
  well_sized img sb -> loads img sb -> 1 < ninodes sb ->
  dirs_in_image img sb = true -> sizeof_dirent <= BSIZE ->
  all_names_in_table img sb = true ->
  size sb + 8 <= 2 ^ 32 -> 0 <= sweep_start sb < 2 ^ 32 ->
  sweep_start sb + sweep_bytes sb <= img_len img ->
  sweep_in_bounds img sb
    (mark_all (used_blocks img sb 0 (ninodes sb)) (in_use_0 sb)) = true ->
  safe (main fuel 2 (Some img)).
Proof.
  intros Hws [Hlen Hsb] Hn Hdirs Hsz Hnames Hsize Hstart Hread Hbounds.
  assert (Hb : 0 <= bmapstart sb /\ bmapstart sb + 1 <= size sb)
    by (destruct Hws as (_ & _ & _ & Hb & _); lia).
  unfold main. cbn [Z.eqb Pos.eqb negb]. intros pos.
  rewrite lseek_bind. pose proof BSIZE_min as HB.
  assert (Hr : read_superblock img (BSIZE * 1)
               = Ok (sb, BSIZE * 1 + sizeof_superblock)).
  { rewrite read_superblock_ok by lia.
    replace (BSIZE * 1) with BSIZE by lia. rewrite <- Hsb. reflexivity. }
  rewrite (bind_ok _ _ _ _ _ Hr).
  apply safe_checked.
  { apply answers_safe. intros p.
    assert (Hroot : type (inode_at img sb 1) = T_DIR ->
                    direct_in_image img (inode_at img sb 1) = true).
    { intros Hty.
      assert (Hisdir : is_dir img sb 1 = true)
        by (unfold is_dir; rewrite Hty; apply Z.eqb_refl).
      pose proof (dirs_in_image_at img sb 1 Hdirs ltac:(lia) Hisdir) as Hin.
      apply (dir_in_image_facts img _ Hin). }
    destruct (check_3_cases img sb p Hws Hn Hroot) as [[E _]|[E _]];
      eexists; exact E. }
  intros _ _. apply safe_bind.
  { apply scan_inodes_safe; try assumption; [lia|lia|].
    apply length_replicate. }
  intros uf p q Es. apply eval_of_ok in Es. fold (in_use_0 sb) in Es.
  apply (scan_blocks img sb fuel (Z.to_nat (ninodes sb)) 0 (in_use_0 sb) uf p)
    in Es; [|assumption|lia|lia|apply length_replicate|apply binary_replicate].
  rewrite Z2Nat.id in Es by lia. destruct Es as (Euf & _).
  apply safe_bind.
  - intros p6. unfold error_check_6. rewrite lseek_bind.
    fold (sweep_start sb). rewrite !u32_small by lia.
    replace (bmapstart sb + 1) with (bmapstart sb + 1 + 8 * 0) by lia.
    apply check_6_sweep_safe; try assumption; try lia.
    + rewrite Euf. exact Hbounds.
    + assert (0 <= sweep_bytes sb) by (unfold sweep_bytes; apply Z.div_pos; lia).
      lia.
  - intros r6 p6 q6 _. apply safe_bind; [apply safe_check|].
    intros _ _ _ _ p'. discriminate.
Qed.

(** A run never reads past the end of the image, nor outside the array
    [in_use], on an image of at most 4 GiB that holds the blocks and the
    inode table its superblock announces, whose directories have their
    blocks inside it and their entries leading into the inode table, and on
    which the sweep of check 6 stays inside the image and holds the set bits
    it reads against entries of the array. *)
Theorem run_in_bounds fuel :
  well_sized img sb -> loads img sb -> 1 < ninodes sb ->
  dirs_in_image img sb = true -> sizeof_dirent <= BSIZE ->
  all_names_in_table img sb = true ->
  size sb + 8 <= 2 ^ 32 -> 0 <= sweep_start sb < 2 ^ 32 ->
  sweep_start sb + sweep_bytes sb <= img_len img ->
  sweep_in_bounds img sb
    (mark_all (used_blocks img sb 0 (ninodes sb)) (in_use_0 sb)) = true ->
  xcheck fuel 2 (Some img) <> Fault.
Proof.
  intros Hws Hlo Hn Hdirs Hsz Hnames Hsize Hstart Hread Hbounds.
  pose proof (main_safe fuel Hws Hlo Hn Hdirs Hsz Hnames Hsize Hstart Hread
                Hbounds) as Hmain.
  unfold xcheck, eval. intros E.
  destruct (main fuel 2 (Some img) 0) as [[a p]| | |] eqn:Em; try discriminate E.
  destruct (Hmain 0 Em).
Qed.

End Safe.

(** ** The exit status and the diagnostics *)


(** ** The properties at concrete images *)

(** Closes a side condition on concrete numbers. *)
Ltac by_computation :=
  vm_compute;
  first [reflexivity | let E := fresh in intro E; discriminate E].

Ltac sized := repeat split; by_computation.

(** The run comes to an inode: the root check and the scan before it pass. *)
Ltac comes_to_inode :=
  split; [intros ?; by_computation
         |split; [sized|intros ?; by_computation]].

(** Checks 1, 2, 5, 7 and 8 pass on the inode. *)
Ltac address_checks :=
  split; [by_computation
         |split; [intros ?; by_computation
                 |split; [intros ?; by_computation
                         |eexists; split; intros ?; by_computation]]].

#[local] Existing Instance Xv6.header.

(** C1 at [low_pointer]: the file inode 2 points at block 5, below the first
    data block 59. *)
Lemma address_range_check_witness :
  xcheck 0 2 (Some Xv6.low_pointer)
  = Exited 1 ("ERROR: bad indirect address in inode" ++ nl).
Proof.
  refine (proj2 (proj2 (address_range_check (H := Xv6.header) Xv6.low_pointer Xv6.std_sb
            (inode_at Xv6.low_pointer Xv6.std_sb 2) _)) 0%nat 2 Xv6.root_in_use _ _ _ _ _ _).
  - sized.
  - sized.
  - comes_to_inode.
  - reflexivity.
  - by_computation.
  - by_computation.
  - exists 5. split; [vm_compute; tauto|].
    split; [discriminate|left; by_computation].
Defined.

(** C7, as amended, at [split_dir]: the direct block of inode 2 holds its [.]
    alone, one match. *)
Lemma directory_shape_check_witness :
  xcheck 0 2 (Some Xv6.split_dir)
  = Exited 1 ("ERROR: directory not properly formatted" ++ nl).
Proof.
  refine (proj2 (proj2 (directory_shape_check Xv6.split_dir Xv6.std_sb
            (inode_at Xv6.split_dir Xv6.std_sb 2) 2 _ _))
            0%nat Xv6.root_in_use Xv6.split_dir_in_use _ _ _ _ _ _ _).
  - by_computation.
  - by_computation.
  - sized.
  - sized.
  - comes_to_inode.
  - reflexivity.
  - by_computation.
  - address_checks.
  - by_computation.
Defined.

(** C7 as stated fails: the directory inode 2 of [split_dir] holds one [.]
    that leads to itself and one [..], 2 matches over the records of its
    data blocks, and check 4 rejects it, since its [..] lies in a block
    reached through the indirect block. *)
Lemma directory_shape_all_blocks_counterexample :
  ~ (yields (error_check_4 Xv6.split_dir (inode_at Xv6.split_dir Xv6.std_sb 2) 2) (Ok 0)
     <-> shape_matches 2
           (dir_entries Xv6.split_dir (inode_at Xv6.split_dir Xv6.std_sb 2)) = 2).
Proof.
  intros [_ Hpass].
  assert (E : shape_matches 2
                (dir_entries Xv6.split_dir (inode_at Xv6.split_dir Xv6.std_sb 2)) = 2)
    by by_computation.
  assert (Hc : eval (error_check_4 Xv6.split_dir
                       (inode_at Xv6.split_dir Xv6.std_sb 2) 2) 0 = Ok 1)
    by by_computation.
  specialize (Hpass E 0). rewrite Hc in Hpass. discriminate Hpass.
Qed.

(** C9 at inode 0 of [root_only]. *)
Lemma free_inode_skipped_witness :
  error_check_1 (inode_at Xv6.root_only Xv6.std_sb 0) = 0
  /\ yields (scan_inode Xv6.root_only Xv6.std_sb 0 0 Xv6.root_in_use)
       (Ok Xv6.root_in_use).
Proof.
  apply (free_inode_skipped Xv6.root_only Xv6.std_sb 0%nat 0 Xv6.root_in_use).
  - sized.
  - sized.
  - by_computation.
Defined.

(** C5 at [file_as_root]: inode 1 is a file. *)
Lemma root_check_first_witness :
  xcheck 0 2 (Some Xv6.file_as_root)
  = Exited 1 ("ERROR: root directory does not exist" ++ nl).
Proof.
  refine (proj2 (proj2 (root_check_first Xv6.file_as_root Xv6.std_sb _ _ _ _)) 0%nat).
  - sized.
  - sized.
  - by_computation.
  - left. by_computation.
Defined.

(** C8 at [short_link]: link count 2, one name. *)
Lemma link_count_check_witness :
  xcheck 0 2 (Some Xv6.short_link)
  = Exited 1 ("ERROR: bad reference count for file" ++ nl).
Proof.
  refine (proj2 (proj2 (link_count_check Xv6.short_link Xv6.std_sb
            (inode_at Xv6.short_link Xv6.std_sb 2) 2 _ _ _ _))
            0%nat Xv6.root_in_use Xv6.two_in_use _ _ _ _ _ _).
  - sized.
  - by_computation.
  - by_computation.
  - sized.
  - sized.
  - comes_to_inode.
  - reflexivity.
  - by_computation.
  - address_checks.
  - by_computation.
Defined.

(** Check 12 at [two_parents]: three entries lead to the directory inode 2,
    those of the root and of inode 3 and its own [.]; check 9 returns 0 for
    it, the entry of inode 3 being the first record of its first block. *)
Lemma entry_count_check_witness :
  xcheck 10 2 (Some Xv6.two_parents)
  = Exited 1 ("ERROR: directory appears more than once in file system" ++ nl).
Proof.
  refine (proj2 (proj2 (entry_count_check Xv6.two_parents Xv6.std_sb
            (inode_at Xv6.two_parents Xv6.std_sb 2) 2 _ _ _))
            10%nat Xv6.root_in_use Xv6.two_in_use _ _ _ _ _ _ _ _ _).
  - sized.
  - by_computation.
  - by_computation.
  - sized.
  - comes_to_inode.
  - reflexivity.
  - by_computation.
  - by_computation.
  - address_checks.
  - intros pos. by_computation.
  - intros pos. by_computation.
  - by_computation.
Defined.

(** C6 at [shared_block]: the root, inode 1, and the file inode 2 both use
    block 59. *)
Lemma shared_block_check_witness :
  xcheck 0 2 (Some Xv6.shared_block)
  = Exited 1 ("ERROR: direct address used more than once" ++ nl).
Proof.
  refine (proj2 (proj2 (proj2 (shared_block_check Xv6.shared_block Xv6.std_sb
            0%nat 1 2 0 0 59 Xv6.root_in_use _ _ _ _ _ _ _ _ _ _ _ _ _ _)))).
  - sized.
  - sized.
  - comes_to_inode.
  - sized.
  - by_computation.
  - by_computation.
  - sized.
  - sized.
  - by_computation.
  - by_computation.
  - by_computation.
  - by_computation.
  - intros pos. by_computation.
  - intros pos. by_computation.
Defined.

(** C3 at [two_parents]: inode 2 is found in the first record of the first
    block of inode 3. *)
Lemma reachability_first_record_witness :
  exists p a,
    0 <= p < ninodes Xv6.std_sb /\ is_dir Xv6.two_parents Xv6.std_sb p = true
    /\ p <> 2 /\ p <> 1
    /\ In a (nonzero (direct_addrs (inode_at Xv6.two_parents Xv6.std_sb p)))
    /\ inum (block_dirent Xv6.two_parents a 0) = 2
    /\ a = addr (inode_at Xv6.two_parents Xv6.std_sb p) 0
    /\ forall q, 0 <= q < p -> candidate Xv6.two_parents Xv6.std_sb 2 q = false.
Proof.
  refine (proj1 (reachability_first_record Xv6.two_parents Xv6.std_sb
                   10%nat 2 0 _ _ _)).
  - sized.
  - by_computation.
  - by_computation.
Defined.

(** C2 at [multi_parent]: the directory inode 2 has two parents, the root
    and the directory inode 3, each holding one entry for it; with its own
    [.] three entries lead to it, and check 12 called on it answers 1.  Yet
    the run never prints [directory appears more than once in file system]:
    check 9, which [main] calls before check 12, enters the direct-block
    loop at the other directory, inode 3, whose first record is its [.], and
    never returns. *)
Theorem multi_parent_not_reported :
  type (inode_at Xv6.multi_parent Xv6.std_sb 2) = T_DIR
  /\ count (refers 2)
       (dir_entries Xv6.multi_parent (inode_at Xv6.multi_parent Xv6.std_sb 1)) = 1
  /\ count (refers 2)
       (dir_entries Xv6.multi_parent (inode_at Xv6.multi_parent Xv6.std_sb 3)) = 1
  /\ refcount Xv6.multi_parent Xv6.std_sb 2 = 3
  /\ yields (error_check_12 Xv6.multi_parent Xv6.std_sb
               (inode_at Xv6.multi_parent Xv6.std_sb 2) 2) (Ok 1)
  /\ (forall fuel,
        yields (error_check_9 Xv6.multi_parent Xv6.std_sb fuel 2) OutOfFuel)
  /\ (forall fuel, xcheck fuel 2 (Some Xv6.multi_parent) = OutOfFuel).
Proof.
  assert (Hws : well_sized Xv6.multi_parent Xv6.std_sb) by sized.
  assert (Hdirs : dirs_in_image Xv6.multi_parent Xv6.std_sb = true)
    by by_computation.
  assert (Hc : refcount Xv6.multi_parent Xv6.std_sb 2 = 3) by by_computation.
  assert (H9 : forall fuel,
             yields (error_check_9 Xv6.multi_parent Xv6.std_sb fuel 2) OutOfFuel).
  { intros fuel pos. unfold error_check_9.
    apply (check_9_scan_spins Xv6.multi_parent Xv6.std_sb 2 3).
    - exact Hws.
    - exact Hdirs.
    - by_computation.
    - sized.
    - by_computation.
    - by_computation.
    - intros q Hq.
      assert (Hq' : q = 0 \/ q = 1 \/ q = 2) by lia.
      destruct Hq' as [->|[->| ->]]; by_computation.
    - right. by_computation. }
  split; [by_computation|]. split; [by_computation|]. split; [by_computation|].
  split; [exact Hc|]. split.
  { assert (Hlt : refcount Xv6.multi_parent Xv6.std_sb 2 < 2 ^ 32)
      by (rewrite Hc; reflexivity).
    pose proof (check_12_value Xv6.multi_parent Xv6.std_sb
                  (inode_at Xv6.multi_parent Xv6.std_sb 2) 2 Hws Hdirs Hlt) as Hv.
    rewrite Hc in Hv. exact Hv. }
  split; [exact H9|].
  intros fuel.
  apply (run_spins_in_check_9 Xv6.multi_parent Xv6.std_sb fuel 2
           Xv6.root_in_use Xv6.two_in_use).
  - exact Hws.
  - sized.
  - comes_to_inode.
  - by_computation.
  - discriminate.
  - address_checks.
  - intros pos. by_computation.
  - apply H9.
Qed.

(** C10 at [sibling_dirs]: the one directory entry that leads to the
    directory inode 2 is in the root, and check 9 for inode 2 neither
    answers 1 nor lets the run end: it enters the direct-block loop at the
    other directory, inode 3, whose first record is its [.], and stays
    there. *)
Theorem sibling_directory_not_reported :
  refcount Xv6.sibling_dirs Xv6.std_sb 2 = 1
  /\ count (refers 2)
       (dir_entries Xv6.sibling_dirs (inode_at Xv6.sibling_dirs Xv6.std_sb 1)) = 1
  /\ (forall fuel pos,
        eval (error_check_9 Xv6.sibling_dirs Xv6.std_sb fuel 2) pos = OutOfFuel)
  /\ (forall fuel, xcheck fuel 2 (Some Xv6.sibling_dirs) = OutOfFuel).
Proof.
  assert (Hws : well_sized Xv6.sibling_dirs Xv6.std_sb) by sized.
  assert (H9 : forall fuel,
             yields (error_check_9 Xv6.sibling_dirs Xv6.std_sb fuel 2) OutOfFuel).
  { intros fuel pos. unfold error_check_9.
    apply (check_9_scan_spins Xv6.sibling_dirs Xv6.std_sb 2 3).
    - exact Hws.
    - by_computation.
    - by_computation.
    - sized.
    - by_computation.
    - by_computation.
    - intros q Hq.
      assert (Hc : q = 0 \/ q = 1 \/ q = 2) by lia.
      destruct Hc as [->|[->| ->]]; by_computation.
    - right. by_computation. }
  split; [by_computation|]. split; [by_computation|].
  split; [exact H9|].
  intros fuel.
  apply (run_spins_in_check_9 Xv6.sibling_dirs Xv6.std_sb fuel 2
           Xv6.root_in_use Xv6.two_in_use).
  - exact Hws.
  - sized.
  - comes_to_inode.
  - by_computation.
  - discriminate.
  - address_checks.
  - intros pos. by_computation.
  - apply H9.
Qed.

(** A directory named by the root alone, with no other directory in the
    image, is reported as not found: the root is not searched. *)
Lemma one_subdir_reported :
  xcheck 300 2 (Some Xv6.one_subdir)
  = Exited 1 ("ERROR: inode marked use but not found in a directory" ++ nl).
Proof. by_computation. Qed.

(** The same on the tree that two [mkdir] leave in the root. *)
Lemma ordinary_tree_hangs fuel :
  xcheck fuel 2 (Some Xv6.ordinary_tree) = OutOfFuel.
Proof.
  assert (Hws : well_sized Xv6.ordinary_tree Xv6.std_sb) by sized.
  apply (run_spins_in_check_9 Xv6.ordinary_tree Xv6.std_sb fuel 2
           Xv6.root_in_use Xv6.two_in_use).
  - exact Hws.
  - sized.
  - comes_to_inode.
  - by_computation.
  - discriminate.
  - address_checks.
  - intros pos. by_computation.
  - intros pos. unfold error_check_9.
    apply (check_9_scan_spins Xv6.ordinary_tree Xv6.std_sb 2 3).
    + exact Hws.
    + by_computation.
    + by_computation.
    + sized.
    + by_computation.
    + by_computation.
    + intros q Hq.
      assert (Hc : q = 0 \/ q = 1 \/ q = 2) by lia.
      destruct Hc as [->|[->| ->]]; by_computation.
    + right. by_computation.
Qed.

(** C4 at [stale_bit]: the bitmap marks the data block 64, no inode uses
    it, and the sweep of check 6 passes: the run ends with status 0.  The
    sweep reads the bit of block 64 against [in_use[59]]. *)
Theorem stale_bitmap_bit_accepted :
  bitmap_bit Xv6.stale_bit Xv6.std_sb 64 = true
  /\ in_data_area Xv6.std_sb 64
  /\ yields (scan_inodes Xv6.stale_bit Xv6.std_sb 200 200 0 (in_use_0 Xv6.std_sb))
       (Ok Xv6.root_in_use)
  /\ Xv6.root_in_use !! 64%nat = Some 0
  /\ yields (error_check_6 Xv6.stale_bit Xv6.std_sb 200 Xv6.root_in_use) (Ok 0)
  /\ xcheck 200 2 (Some Xv6.stale_bit) = Exited 0 EmptyString.
Proof.
  split; [by_computation|]. split; [sized|].
  split; [intros pos; by_computation|]. split; [by_computation|].
  split; [intros pos; by_computation|]. by_computation.
Qed.

(** Check 1 at [odd_type]: inode 2 has type 9. *)
Lemma bad_inode_check_witness :
  xcheck 0 2 (Some Xv6.odd_type) = Exited 1 ("ERROR: bad inode" ++ nl).
Proof.
  refine (proj2 (proj2 (bad_inode_check Xv6.odd_type Xv6.std_sb
            (inode_at Xv6.odd_type Xv6.std_sb 2))) 0%nat 2 Xv6.root_in_use _ _ _ _ _).
  - sized.
  - sized.
  - comes_to_inode.
  - reflexivity.
  - assert (E : type (inode_at Xv6.odd_type Xv6.std_sb 2) = 9) by by_computation.
    unfold valid_type. rewrite E. cbn. lia.
Defined.

(** Check 5 at [unmarked_block]: the bitmap has the block 59 of the root
    directory free. *)
Lemma bitmap_mark_check_witness :
  xcheck 0 2 (Some Xv6.unmarked_block)
  = Exited 1 ("ERROR: address used by inode but marked free in bitmap" ++ nl).
Proof.
  assert (Hws : well_sized Xv6.unmarked_block Xv6.std_sb) by sized.
  refine (proj2 (proj2 (bitmap_mark_check Xv6.unmarked_block Xv6.std_sb
            (inode_at Xv6.unmarked_block Xv6.std_sb 1) Hws _))
            0%nat 1 (in_use_0 Xv6.std_sb) _ _ _ _ _ _).
  - apply (check_2_passed _ _ _ 0 Hws). by_computation.
  - sized.
  - comes_to_inode.
  - reflexivity.
  - by_computation.
  - by_computation.
  - exists 59. split; [vm_compute; tauto|].
    split; [discriminate|by_computation].
Defined.

(** Check 3 at [root_only]: the second record of block 59 is the [..] of
    the root. *)
Lemma root_check_passes_witness :
  yields (error_check_3 Xv6.root_only Xv6.std_sb) (Ok 0).
Proof.
  refine (proj2 (proj1 (root_check_passes Xv6.root_only Xv6.std_sb _ _ _)) _).
  - sized.
  - by_computation.
  - intros _. by_computation.
  - split; [by_computation|].
    exists (block_dirent Xv6.root_only 59 1). split; [|by_computation].
    apply in_direct_entries. exists 0, 1.
    split; [sized|]. split; [by_computation|]. split; [sized|].
    f_equal.
Defined.

(** Check 7 at [twice_listed]: the second direct pointer of inode 2 repeats
    the first. *)
Lemma pointer_clash_check_witness :
  xcheck 0 2 (Some Xv6.twice_listed)
  = Exited 1 ("ERROR: direct address used more than once" ++ nl).
Proof.
  assert (Hws : well_sized Xv6.twice_listed Xv6.std_sb) by sized.
  assert (Hok : ~ bad_address Xv6.twice_listed Xv6.std_sb
                    (inode_at Xv6.twice_listed Xv6.std_sb 2)).
  { apply (check_2_passed _ _ _ 0 Hws). by_computation. }
  refine (proj2 (proj2 (pointer_clash_check Xv6.twice_listed Xv6.std_sb
            (inode_at Xv6.twice_listed Xv6.std_sb 2) Xv6.root_in_use Hws Hok _))
            0%nat 2 _ _ _ _ _ _ _).
  - by_computation.
  - sized.
  - comes_to_inode.
  - reflexivity.
  - by_computation.
  - by_computation.
  - apply (check_5_passed _ _ _ 0 Hws Hok). by_computation.
  - exists 1. split; [sized|]. split; [by_computation|].
    right. exists 0. split; [sized|by_computation].
Defined.

(** Check 8 at [listed_again]: the indirect block of inode 2 lists its
    direct block 60. *)
Lemma indirect_clash_check_witness :
  xcheck 0 2 (Some Xv6.listed_again)
  = Exited 1 ("ERROR: indirect address used more than once" ++ nl).
Proof.
  assert (Hws : well_sized Xv6.listed_again Xv6.std_sb) by sized.
  assert (Hok : ~ bad_address Xv6.listed_again Xv6.std_sb
                    (inode_at Xv6.listed_again Xv6.std_sb 2)).
  { apply (check_2_passed _ _ _ 0 Hws). by_computation. }
  refine (proj2 (proj2 (proj2 (indirect_clash_check Xv6.listed_again Xv6.std_sb
            (inode_at Xv6.listed_again Xv6.std_sb 2)
            (mark_all (nonzero (pointers (inode_at Xv6.listed_again Xv6.std_sb 2)))
               Xv6.root_in_use) Hws Hok _)))
            0%nat 2 Xv6.root_in_use _ _ _ _ _ _ _ _ _).
  - by_computation.
  - sized.
  - comes_to_inode.
  - reflexivity.
  - by_computation.
  - by_computation.
  - apply (check_5_passed _ _ _ 0 Hws Hok). by_computation.
  - apply (check_7_passed _ _ _ _
             (mark_all (nonzero (pointers (inode_at Xv6.listed_again Xv6.std_sb 2)))
                Xv6.root_in_use) 0 Hws Hok); by_computation.
  - reflexivity.
  - split; [by_computation|]. exists 0. split; [sized|].
    split; [by_computation|]. left. by_computation.
Defined.

(** Check 9 at [two_parents], for inode 2: the first candidate is inode 3,
    and the first record of its block 61 is the entry [a] of inode 2. *)
Lemma check_9_outcomes_witness :
  yields (error_check_9 Xv6.two_parents Xv6.std_sb 201 2) (Ok 0).
Proof.
  assert (E : match first_candidate Xv6.two_parents Xv6.std_sb 2 with
              | None => Ok 1
              | Some p =>
                  if names_first Xv6.two_parents Xv6.std_sb 2 p
                  then Ok 0 else OutOfFuel
              end = @Ok Z 0) by by_computation.
  rewrite <- E. apply check_9_outcomes.
  - sized.
  - by_computation.
  - by_computation.
  - vm_compute. lia.
Defined.

(** Check 9 at [one_subdir]: the directory inode 2 has its name in the
    root, there is no third directory, and the run reports inode 2. *)
Lemma lone_directory_reported_witness :
  xcheck 201 2 (Some Xv6.one_subdir)
  = Exited 1 ("ERROR: inode marked use but not found in a directory" ++ nl).
Proof.
  refine (proj2 (lone_directory_reported Xv6.one_subdir Xv6.std_sb 201%nat 2
            Xv6.root_in_use Xv6.two_in_use _ _ _ _ _ _ _ _ _)).
  - sized.
  - sized.
  - comes_to_inode.
  - by_computation.
  - discriminate.
  - address_checks.
  - intros pos. by_computation.
  - intros q Hq.
    apply (find_seqZ_none (candidate Xv6.one_subdir Xv6.std_sb 2) 0 200);
      [by_computation|exact Hq].
  - vm_compute. lia.
Defined.

(** Check 10 at [lost_name]: the entry [f] of the root leads to inode 5,
    which is free. *)
Lemma dangling_name_check_witness :
  xcheck 0 2 (Some Xv6.lost_name)
  = Exited 1 ("ERROR: inode referred to in directory but marked free" ++ nl).
Proof.
  refine (proj2 (proj2 (dangling_name_check Xv6.lost_name Xv6.std_sb
            (inode_at Xv6.lost_name Xv6.std_sb 1) _ _ _))
            0%nat 1 (in_use_0 Xv6.std_sb) Xv6.root_in_use _ _ _ _ _ _ _ _).
  - sized.
  - by_computation.
  - by_computation.
  - sized.
  - comes_to_inode.
  - reflexivity.
  - by_computation.
  - address_checks.
  - intros pos. by_computation.
  - intros Hne. exfalso. apply Hne. reflexivity.
  - exists (block_dirent Xv6.lost_name 59 2). split; [|by_computation].
    apply in_scanned_entries. left. apply in_direct_entries. exists 0, 2.
    split; [sized|]. split; [by_computation|]. split; [sized|].
    f_equal.
Defined.

(** The checks of a device at [bare_device]: inode 2 passes, with no name
    and link count 1. *)
Lemma checks_by_type_witness :
  yields (scan_inode Xv6.bare_device Xv6.std_sb 0 2 Xv6.root_in_use)
    (Ok Xv6.root_in_use).
Proof.
  refine (proj1 (checks_by_type Xv6.bare_device Xv6.std_sb 0%nat 2
                   Xv6.root_in_use Xv6.root_in_use _ _ _ _ _) _).
  - sized.
  - sized.
  - address_checks.
  - by_computation.
  - by_computation.
  - by_computation.
Defined.

(** The invariant of the loop at [root_only], after its 200 inodes: block 59
    alone is recorded. *)
Lemma scan_records_blocks_witness :
  NoDup (used_blocks Xv6.root_only Xv6.std_sb 0 200)
  /\ (forall a, In a (used_blocks Xv6.root_only Xv6.std_sb 0 200) ->
                0 < a < size Xv6.std_sb)
  /\ Xv6.root_in_use
     = mark_all (used_blocks Xv6.root_only Xv6.std_sb 0 200) (in_use_0 Xv6.std_sb).
Proof.
  apply (scan_records_blocks Xv6.root_only Xv6.std_sb 200%nat 200 Xv6.root_in_use 0).
  - sized.
  - sized.
  - by_computation.
Defined.

(** A run that ends with status 0 at [far_entry]: the entry [x] of the root
    leads beyond the inode table, to bytes of the data block 69 that read
    as an inode of type 2, and no record of the root leads to an inode of
    type 0. *)
Lemma accepted_image_witness :
  names_in_table Xv6.far_entry Xv6.std_sb
    (inode_at Xv6.far_entry Xv6.std_sb 1) = false
  /\ sound_inode Xv6.far_entry Xv6.std_sb 1
  /\ Forall (fun e => dangling Xv6.far_entry Xv6.std_sb e = false)
       (scanned_entries Xv6.far_entry (inode_at Xv6.far_entry Xv6.std_sb 1))
  /\ NoDup (used_blocks Xv6.far_entry Xv6.std_sb 0 (ninodes Xv6.std_sb)).
Proof.
  pose proof (accepted_image Xv6.far_entry Xv6.std_sb 200%nat) as Hrun.
  destruct Hrun as (_ & Hsound & Hnames & Hnd & _);
    [sized|sized|by_computation..|].
  split; [by_computation|]. split; [apply Hsound; sized|].
  split; [|exact Hnd].
  apply List.Forall_forall. intros e He. apply (Hnames 1 e); [sized|by_computation|exact He].
Defined.

(** The sweep at [stray_bit]: the second bit it reads, that of block 65, is
    set, and it holds it against [in_use[60]], which is 0. *)
Lemma bitmap_sweep_check_witness :
  yields (error_check_6 Xv6.stray_bit Xv6.std_sb 200 Xv6.root_in_use) (Ok 1).
Proof.
  refine (proj2 (proj1 (bitmap_sweep_check Xv6.stray_bit Xv6.std_sb Xv6.root_in_use
            _ _ _ _ _ 200%nat _)) _).
  - sized.
  - by_computation.
  - sized.
  - by_computation.
  - apply sweep_in_bounds_spec. by_computation.
  - vm_compute. lia.
  - exists 1. split; [sized|]. unfold sweep_violation. split; by_computation.
Defined.

(** The end of the run at [stray_bit]. *)
Lemma bitmap_sweep_outcome_witness :
  xcheck 200 2 (Some Xv6.stray_bit)
  = Exited 1 ("ERROR: bitmap marks block in use but it is not in use" ++ nl).
Proof.
  assert (E : sweep_clean Xv6.stray_bit Xv6.std_sb Xv6.root_in_use = false)
    by by_computation.
  rewrite (bitmap_sweep_outcome Xv6.stray_bit Xv6.std_sb 200%nat Xv6.root_in_use).
  - rewrite E. reflexivity.
  - sized.
  - by_computation.
  - sized.
  - by_computation.
  - by_computation.
  - vm_compute. lia.
  - sized.
  - intros pos. by_computation.
  - intros pos. by_computation.
Defined.

(** Status 0 at [one_file]: a root directory and a file with its one name. *)
Lemma sound_image_accepted_witness :
  xcheck 201 2 (Some Xv6.one_file) = Exited 0 EmptyString.
Proof.
  assert (Hws : well_sized Xv6.one_file Xv6.std_sb) by sized.
  assert (Hok : forall n, ~ bad_address Xv6.one_file Xv6.std_sb
                              (inode_at Xv6.one_file Xv6.std_sb n) ->
                          eval (error_check_5 Xv6.one_file Xv6.std_sb
                                  (inode_at Xv6.one_file Xv6.std_sb n)) 0 = Ok 0 ->
                          ~ bad_address Xv6.one_file Xv6.std_sb
                              (inode_at Xv6.one_file Xv6.std_sb n)
                          /\ ~ free_in_bitmap Xv6.one_file Xv6.std_sb
                                 (inode_at Xv6.one_file Xv6.std_sb n)).
  { intros n Hb E5. split; [exact Hb|].
    apply (check_5_passed _ _ _ 0 Hws Hb E5). }
  apply (sound_image_accepted Xv6.one_file Xv6.std_sb 201%nat).
  - exact Hws.
  - sized.
  - by_computation.
  - by_computation.
  - by_computation.
  - by_computation.
  - by_computation.
  - sized.
  - by_computation.
  - by_computation.
  - vm_compute. lia.
  - vm_compute. lia.
  - by_computation.
  - exists (block_dirent Xv6.one_file 59 1). split; [|by_computation].
    apply in_direct_entries. exists 0, 1.
    split; [sized|]. split; [by_computation|]. split; [sized|].
    f_equal.
  - intros n Hn.
    assert (Hfree : forallb (fun n => (n =? 1) || (n =? 2)
                       || (type (inode_at Xv6.one_file Xv6.std_sb n) =? 0))
                      (seqZ 0 200) = true) by by_computation.
    rewrite forallb_forall in Hfree.
    specialize (Hfree n ltac:(apply list_elem_of_In, elem_of_seqZ; exact Hn)).
    destruct (Z.eqb_spec n 1) as [->|_]; [|destruct (Z.eqb_spec n 2) as [->|_]].
    + (* the root directory *)
      assert (Et : type (inode_at Xv6.one_file Xv6.std_sb 1) = 1) by by_computation.
      unfold sound_inode. cbv zeta.
      split; [right; right; left; exact Et|].
      split; [intros _; apply Hok;
               [apply (check_2_passed _ _ _ 0 Hws)|]; by_computation|].
      split.
      * intros _. split; [by_computation|]. split.
        -- intros _ e He.
           assert (Hall : forallb (fun e => negb (dangling Xv6.one_file Xv6.std_sb e))
                            (scanned_entries Xv6.one_file
                               (inode_at Xv6.one_file Xv6.std_sb 1)) = true)
             by by_computation.
           rewrite forallb_forall in Hall. apply negb_true_iff, Hall, He.
        -- intros Hne. exfalso. apply Hne. reflexivity.
      * intros Hf. rewrite Et in Hf. discriminate Hf.
    + (* the file *)
      assert (Et : type (inode_at Xv6.one_file Xv6.std_sb 2) = 2) by by_computation.
      unfold sound_inode. cbv zeta.
      split; [right; right; right; exact Et|].
      split; [intros _; apply Hok;
               [apply (check_2_passed _ _ _ 0 Hws)|]; by_computation|].
      split.
      * intros Hd. rewrite Et in Hd. discriminate Hd.
      * intros _. by_computation.
    + apply free_inode_sound. cbn [orb] in Hfree. apply Z.eqb_eq. exact Hfree.
  - assert (E : used_blocks Xv6.one_file Xv6.std_sb 0 (ninodes Xv6.std_sb)
                = [59; 60]) by by_computation.
    rewrite E. apply NoDup_cons. split; [|apply NoDup_singleton].
    intros Hin. apply list_elem_of_In in Hin. destruct Hin as [Hin|[]].
    discriminate Hin.
  - by_computation.
Defined.

(** The directory inode 2 of [one_subdir], with its [.] and its name in the
    root: no status 0. *)
Lemma subdirectory_never_accepted_witness :
  xcheck 201 2 (Some Xv6.one_subdir) <> Exited 0 EmptyString.
Proof.
  apply (subdirectory_never_accepted Xv6.one_subdir Xv6.std_sb 201%nat 2).
  - sized.
  - sized.
  - by_computation.
  - by_computation.
  - by_computation.
  - sized.
  - discriminate.
  - by_computation.
  - exists (block_dirent Xv6.one_subdir 60 0). split; [|by_computation].
    unfold dir_entries. apply in_or_app. left.
    apply in_direct_entries. exists 0, 0.
    split; [sized|]. split; [by_computation|]. split; [sized|].
    f_equal.
  - by_computation.
Defined.

(** The run on [one_file] stays in bounds. *)
Lemma run_in_bounds_witness : xcheck 201 2 (Some Xv6.one_file) <> Fault.
Proof.
  apply (run_in_bounds Xv6.one_file Xv6.std_sb 201%nat).
  - sized.
  - sized.
  - by_computation.
  - by_computation.
  - by_computation.
  - by_computation.
  - by_computation.
  - sized.
  - by_computation.
  - by_computation.
Defined.

